(** * AS3-redis: the product service of [src/index.js]

    A shallow embedding of the Express handlers of [src/index.js] and of the
    collaborators they talk to (the ioredis client, the MongoDB collection
    [products], [JSON.parse] / [JSON.stringify], the clock and [Math.random]).

    Modelling conventions.
    - JavaScript values are the inductive [jsval].  Numbers are exact
      decimals; the rounding of IEEE-754 doubles is not modelled.  Strings
      are byte strings ([string]); case folding is the ASCII one.
    - A handler is a computation in the monad [Js]: it reads and updates a
      [world] (Redis keyspace, MongoDB collection, clock, failure scripts,
      the wording of the engine's errors),
      either completes normally or throws, and leaves a trace of [event]s
      (collaborator calls with their settlement, console output).
    - Every awaited collaborator call may reject: the world carries, per
      collaborator, a script saying which of the coming calls reject and
      with which error.  A rejected call leaves the collaborator's data
      untouched. *)

From Stdlib Require Import ZArith List String Ascii Bool Lia.
From Stdlib Require Import Decimal DecimalPos DecimalN.
From stdpp Require Import base option list strings gmap.

Import ListNotations.
Local Open Scope Z_scope.
Local Open Scope list_scope.

(* ===================================================================== *)
(** ** JavaScript values *)
(* ===================================================================== *)

(** A number is an exact decimal, [mantissa / 10 ^ scale]; the rounding of
    IEEE-754 doubles is not modelled.  It is canonical when it has no
    trailing zero after the decimal point. *)
Record number : Type := Number { mantissa : Z; scale : nat }.

Definition int (z : Z) : number := Number z 0.
Coercion int : Z >-> number.

Definition number_eqb (a b : number) : bool :=
  Z.eqb (mantissa a) (mantissa b) && Nat.eqb (scale a) (scale b).

Definition canonical (n : number) : bool :=
  Nat.eqb (scale n) 0 || negb (mantissa n mod 10 =? 0).

(** The digits of the mantissa, sign aside. *)
Definition magnitude (n : number) : N := Z.to_N (Z.abs (mantissa n)).

(** The decimal exponent [e] of a non-zero number: 10^(e-1) <= |n| < 10^e. *)
Definition exponent (n : number) : Z :=
  Z.of_nat (nb_digits (N.to_uint (magnitude n))) - Z.of_nat (scale n).

(** Numbers written without an exponent by [Number.prototype.toString]:
    zero, and those from 1e-6 up to, but not reaching, 1e21. *)
Definition plain_range (n : number) : bool :=
  (magnitude n =? 0)%N || ((-6 <? exponent n) && (exponent n <=? 21)).

(** The values that travel through the handlers: request bodies, MongoDB
    documents, driver results and response payloads.  [JDate] is a [Date]
    (milliseconds since the epoch), [JOid] a driver-generated [ObjectId]
    (its 24 hexadecimal digits).  An object is its properties in property
    order. *)
#[local] Unset Elimination Schemes.
Inductive jsval : Type :=
| JUndefined
| JNull
| JBool (b : bool)
| JNum (n : number)
| JStr (s : string)
| JDate (ms : Z)
| JOid (hex : string)
| JArr (items : list jsval)
| JObj (props : list (string * jsval)).
#[local] Set Elimination Schemes.

Abbreviation props := (list (string * jsval)).

(** [o.k]: the value of property [k], [undefined] when [o] has none. *)
Fixpoint get_prop (k : string) (ps : props) : jsval :=
  match ps with
  | [] => JUndefined
  | (k', v) :: ps' => if String.eqb k k' then v else get_prop k ps'
  end.

Definition has_prop (k : string) (ps : props) : bool :=
  existsb (fun p => String.eqb k (fst p)) ps.

(** [o[k] = v]: overwrite in place when [k] is there, append otherwise. *)
Fixpoint set_prop (k : string) (v : jsval) (ps : props) : props :=
  match ps with
  | [] => [(k, v)]
  | (k', v') :: ps' =>
      if String.eqb k k' then (k', v) :: ps' else (k', v') :: set_prop k v ps'
  end.

Definition remove_prop (k : string) (ps : props) : props :=
  List.filter (fun p => negb (String.eqb k (fst p))) ps.

(** [v.k] on an arbitrary value: only objects have properties here. *)
Definition field (k : string) (v : jsval) : jsval :=
  match v with
  | JObj ps => get_prop k ps
  | _ => JUndefined
  end.

(** Structural equality of values. *)
Fixpoint jsval_eqb (a b : jsval) {struct a} : bool :=
  match a, b with
  | JUndefined, JUndefined => true
  | JNull, JNull => true
  | JBool x, JBool y => Bool.eqb x y
  | JNum x, JNum y => number_eqb x y
  | JStr x, JStr y => String.eqb x y
  | JDate x, JDate y => Z.eqb x y
  | JOid x, JOid y => String.eqb x y
  | JArr xs, JArr ys =>
      (fix go (xs ys : list jsval) {struct xs} : bool :=
         match xs, ys with
         | [], [] => true
         | x :: xs', y :: ys' => jsval_eqb x y && go xs' ys'
         | _, _ => false
         end) xs ys
  | JObj xs, JObj ys =>
      (fix go (xs ys : props) {struct xs} : bool :=
         match xs, ys with
         | [], [] => true
         | (k, x) :: xs', (k', y) :: ys' =>
             String.eqb k k' && jsval_eqb x y && go xs' ys'
         | _, _ => false
         end) xs ys
  | _, _ => false
  end.

(** Property names of every object in the value are pairwise distinct, as
    they are in any JavaScript object (in property order; the special
    ordering of integer-like names is not modelled), and every number is
    canonical. *)
Fixpoint distinct_keys (ks : list string) : bool :=
  match ks with
  | [] => true
  | k :: ks' => negb (existsb (String.eqb k) ks') && distinct_keys ks'
  end.

Fixpoint wf_value (v : jsval) : bool :=
  match v with
  | JNum n => canonical n
  | JArr l => forallb wf_value l
  | JObj ps =>
      distinct_keys (map fst ps)
      && forallb (fun p => match p with (_, x) => wf_value x end) ps
  | _ => true
  end.

(** Size of a value: one per node. *)
Fixpoint jsize (v : jsval) : nat :=
  match v with
  | JArr l => S (list_sum (map jsize l))
  | JObj ps => S (list_sum (map (fun p => match p with (_, x) => jsize x end) ps))
  | _ => 1%nat
  end.

(* ===================================================================== *)
(** ** [JSON.stringify] and [JSON.parse] *)
(* ===================================================================== *)

Module JSON.

Abbreviation text := (list ascii).

Definition lit (s : string) : text := list_ascii_of_string s.

Definition chr (n : N) : ascii := ascii_of_N n.
Definition code (c : ascii) : N := N_of_ascii c.

(** *** Numbers: [Number.prototype.toString] *)

Fixpoint uint_chars (u : uint) : text :=
  match u with
  | Nil => []
  | D0 u' => chr 48 :: uint_chars u'
  | D1 u' => chr 49 :: uint_chars u'
  | D2 u' => chr 50 :: uint_chars u'
  | D3 u' => chr 51 :: uint_chars u'
  | D4 u' => chr 52 :: uint_chars u'
  | D5 u' => chr 53 :: uint_chars u'
  | D6 u' => chr 54 :: uint_chars u'
  | D7 u' => chr 55 :: uint_chars u'
  | D8 u' => chr 56 :: uint_chars u'
  | D9 u' => chr 57 :: uint_chars u'
  end.

(** The decimal digits of a natural number, without leading zeros. *)
Definition natural (a : N) : text := uint_chars (N.to_uint a).

(** The last [width] decimal digits of [a]. *)
Fixpoint digits (width : nat) (a : N) : text :=
  match width with
  | O => []
  | S w => digits w (a / 10) ++ [chr (48 + a mod 10)]
  end.

(** [n] printed on at least [width] digits, zero-padded on the left. *)
Definition pad (width : nat) (n : Z) : text :=
  let ds := natural (Z.to_N n) in
  repeat (chr 48) (width - length ds) ++ ds.

(** Integer part, then the [scale] digits of the fraction. *)
Definition positional (n : number) : text :=
  let p := (10 ^ N.of_nat (scale n))%N in
  natural (magnitude n / p)
  ++ match scale n with
     | O => []
     | S _ => chr 46 :: digits (scale n) (magnitude n mod p)
     end.

(** [a] without its trailing zeros; [fuel] bounds their number. *)
Fixpoint strip_zeros (fuel : nat) (a : N) : N :=
  match fuel with
  | O => a
  | S f => if (a mod 10 =? 0)%N then strip_zeros f (a / 10) else a
  end.

(** Scientific notation: first digit, the other significant digits after
    a point, then the signed exponent. *)
Definition exponential (n : number) : text :=
  let a := magnitude n in
  let e := exponent n - 1 in
  match natural (strip_zeros (nb_digits (N.to_uint a)) a) with
  | [] => []
  | c :: rest =>
      c :: match rest with [] => [] | _ :: _ => chr 46 :: rest end
      ++ chr 101 :: (if e <? 0 then chr 45 else chr 43) :: natural (Z.to_N (Z.abs e))
  end.

Definition print_number (n : number) : text :=
  if (magnitude n =? 0)%N then [chr 48]
  else (if mantissa n <? 0 then [chr 45] else [])
       ++ (if plain_range n then positional n else exponential n).

(** *** Strings: QuoteJSONString *)

Definition hex_char (n : N) : ascii :=
  if (n <? 10)%N then chr (48 + n) else chr (87 + n).

Definition escape_char (c : ascii) : text :=
  let n := code c in
  if (n =? 8)%N then [chr 92; chr 98]             (* backspace *)
  else if (n =? 9)%N then [chr 92; chr 116]       (* tab *)
  else if (n =? 10)%N then [chr 92; chr 110]      (* line feed *)
  else if (n =? 12)%N then [chr 92; chr 102]      (* form feed *)
  else if (n =? 13)%N then [chr 92; chr 114]      (* carriage return *)
  else if (n =? 34)%N then [chr 92; chr 34]       (* double quote *)
  else if (n =? 92)%N then [chr 92; chr 92]       (* backslash *)
  else if (n <? 32)%N then
    [chr 92; chr 117; chr 48; chr 48; hex_char (n / 16); hex_char (n mod 16)]
  else [c].

Definition quote (s : text) : text :=
  chr 34 :: flat_map escape_char s ++ [chr 34].

(** *** Dates: [Date.prototype.toISOString] *)

(** Proleptic Gregorian date of a day number counted from 1970-01-01. *)
Definition civil_from_days (days : Z) : Z * Z * Z :=
  let z := days + 719468 in
  let era := z / 146097 in
  let doe := z - era * 146097 in
  let yoe := (doe - doe / 1460 + doe / 36524 - doe / 146096) / 365 in
  let doy := doe - (365 * yoe + yoe / 4 - yoe / 100) in
  let mp := (5 * doy + 2) / 153 in
  let d := doy - (153 * mp + 2) / 5 + 1 in
  let m := if mp <? 10 then mp + 3 else mp - 9 in
  let y := yoe + era * 400 + (if m <=? 2 then 1 else 0) in
  (y, m, d).

Definition iso_year (y : Z) : text :=
  if (0 <=? y) && (y <=? 9999) then pad 4 y
  else (if y <? 0 then chr 45 else chr 43) :: pad 6 (Z.abs y).

Definition toISOString (ms : Z) : text :=
  let day := ms / 86400000 in
  let rest := ms mod 86400000 in
  match civil_from_days day with
  | (y, m, d) =>
      iso_year y ++ [chr 45] ++ pad 2 m ++ [chr 45] ++ pad 2 d ++ [chr 84]
      ++ pad 2 (rest / 3600000) ++ [chr 58]
      ++ pad 2 (rest / 60000 mod 60) ++ [chr 58]
      ++ pad 2 (rest / 1000 mod 60) ++ [chr 46]
      ++ pad 3 (rest mod 1000) ++ [chr 90]
  end.

(** A [Date] holds a time value within 8.64e15 ms of the epoch, or is
    invalid; [toJSON] of an invalid date is [null]. *)
Definition valid_time (ms : Z) : bool := Z.abs ms <=? 8640000000000000.

(** *** Serialization *)

Fixpoint join (sep : text) (parts : list text) : text :=
  match parts with
  | [] => []
  | [p] => p
  | p :: ps => p ++ sep ++ join sep ps
  end.

(** SerializeJSONProperty: [None] is the result [undefined]. *)
Fixpoint print_value (v : jsval) : option text :=
  match v with
  | JUndefined => None
  | JNull => Some (lit "null")
  | JBool true => Some (lit "true")
  | JBool false => Some (lit "false")
  | JNum n => Some (print_number n)
  | JStr s => Some (quote (lit s))
  | JDate ms =>
      Some (if valid_time ms then quote (toISOString ms) else lit "null")
  | JOid hex => Some (quote (lit hex))
  | JArr l =>
      Some (chr 91
            :: join [chr 44]
                 (map (fun x => match print_value x with
                                | Some t => t
                                | None => lit "null"
                                end) l)
            ++ [chr 93])
  | JObj ps =>
      Some (chr 123
            :: join [chr 44]
                 (flat_map (fun p => match p with
                                     | (k, x) =>
                                         match print_value x with
                                         | Some t => [quote (lit k) ++ chr 58 :: t]
                                         | None => []
                                         end
                                     end) ps)
            ++ [chr 125])
  end.

(** [JSON.stringify(v)]: a string, or [undefined] ([None]). *)
Definition stringify (v : jsval) : option string :=
  option_map string_of_list_ascii (print_value v).

(** *** Parsing *)

Definition is_ws (c : ascii) : bool :=
  let n := code c in
  (n =? 32)%N || (n =? 9)%N || (n =? 10)%N || (n =? 13)%N.

Fixpoint skip_ws (s : text) : text :=
  match s with
  | c :: r => if is_ws c then skip_ws r else s
  | [] => []
  end.

Fixpoint strip_prefix (p s : text) : option text :=
  match p, s with
  | [], _ => Some s
  | a :: p', b :: s' => if Ascii.eqb a b then strip_prefix p' s' else None
  | _ :: _, [] => None
  end.

Definition digit_of (c : ascii) : option (uint -> uint) :=
  let n := code c in
  if (n =? 48)%N then Some D0 else if (n =? 49)%N then Some D1
  else if (n =? 50)%N then Some D2 else if (n =? 51)%N then Some D3
  else if (n =? 52)%N then Some D4 else if (n =? 53)%N then Some D5
  else if (n =? 54)%N then Some D6 else if (n =? 55)%N then Some D7
  else if (n =? 56)%N then Some D8 else if (n =? 57)%N then Some D9
  else None.

Fixpoint read_uint (s : text) : uint * text :=
  match s with
  | c :: r =>
      match digit_of c with
      | Some d => let (u, r') := read_uint r in (d u, r')
      | None => (Nil, s)
      end
  | [] => (Nil, [])
  end.

(** The longest run of digits the text starts with. *)
Fixpoint read_digits (s : text) : text * text :=
  match s with
  | c :: r =>
      if (48 <=? code c)%N && (code c <=? 57)%N
      then let (ds, r') := read_digits r in (c :: ds, r')
      else ([], s)
  | [] => ([], [])
  end.

(** The number a run of digits denotes. *)
Definition value_of (ds : text) : N :=
  fold_left (fun acc c => (10 * acc + (code c - 48))%N) ds 0%N.

(** An optional fraction: a point and at least one digit. *)
Definition read_fraction (s : text) : option (text * text) :=
  match s with
  | c :: r =>
      if (code c =? 46)%N then
        match read_digits r with
        | ([], _) => None
        | (ds, r') => Some (ds, r')
        end
      else Some ([], s)
  | [] => Some ([], [])
  end.

(** An optional exponent: e or E, an optional sign and at least one
    digit. *)
Definition read_exponent (s : text) : option (Z * text) :=
  match s with
  | c :: r =>
      if (code c =? 101)%N || (code c =? 69)%N then
        let (neg, r1) :=
          match r with
          | d :: r' =>
              if (code d =? 45)%N then (true, r')
              else if (code d =? 43)%N then (false, r')
              else (false, r)
          | [] => (false, r)
          end in
        match read_digits r1 with
        | ([], _) => None
        | (ds, r2) =>
            Some (if neg then - Z.of_N (value_of ds) else Z.of_N (value_of ds), r2)
        end
      else Some (0, s)
  | [] => Some (0, [])
  end.

(** [m / 10 ^ sc] without trailing zeros after the point. *)
Fixpoint canon (sc : nat) (m : Z) : number :=
  match sc with
  | O => Number m 0
  | S sc' => if m mod 10 =? 0 then canon sc' (m / 10) else Number m sc
  end.

(** The canonical number [m * 10 ^ e]. *)
Definition scaled (m : Z) (e : Z) : number :=
  if 0 <=? e then Number (m * 10 ^ e) 0 else canon (Z.to_nat (- e)) m.

(** The digits of a JSON number: an integer part without a leading zero
    (a single 0 apart), an optional fraction and an optional exponent;
    [neg] tells whether a minus sign came first. *)
Definition read_unsigned (neg : bool) (s : text) : option (number * text) :=
  let (u, r1) := read_uint s in
  if uint_beq (unorm u) u then
    match read_fraction r1 with
    | Some (fp, r2) =>
        match read_exponent r2 with
        | Some (e, r3) =>
            let a := (N.of_uint u * 10 ^ N.of_nat (length fp) + value_of fp)%N in
            Some (scaled (if neg then - Z.of_N a else Z.of_N a)
                    (e - Z.of_nat (length fp)), r3)
        | None => None
        end
    | None => None
    end
  else None.

(** JSON number: an optional minus sign, then the digits. *)
Definition read_number (s : text) : option (number * text) :=
  match s with
  | c :: r => if (code c =? 45)%N then read_unsigned true r else read_unsigned false s
  | [] => None
  end.

Definition hex_val (c : ascii) : option N :=
  let n := code c in
  if (48 <=? n)%N && (n <=? 57)%N then Some (n - 48)%N
  else if (97 <=? n)%N && (n <=? 102)%N then Some (n - 87)%N
  else if (65 <=? n)%N && (n <=? 70)%N then Some (n - 55)%N
  else None.

(** The bytes (UTF-8) of a code unit written as a u-escape. *)
Definition utf8 (cp : N) : text :=
  if (cp <? 128)%N then [chr cp]
  else if (cp <? 2048)%N then [chr (192 + cp / 64); chr (128 + cp mod 64)]
  else [chr (224 + cp / 4096); chr (128 + (cp / 64) mod 64); chr (128 + cp mod 64)].

Definition unescape (n : N) : option ascii :=
  if (n =? 34)%N then Some (chr 34)
  else if (n =? 92)%N then Some (chr 92)
  else if (n =? 47)%N then Some (chr 47)
  else if (n =? 98)%N then Some (chr 8)
  else if (n =? 102)%N then Some (chr 12)
  else if (n =? 110)%N then Some (chr 10)
  else if (n =? 114)%N then Some (chr 13)
  else if (n =? 116)%N then Some (chr 9)
  else None.

(** The characters of a string literal, read after its opening quote up
    to and including the closing one. *)
Fixpoint read_chars (s : text) : option (text * text) :=
  match s with
  | [] => None
  | c :: r =>
      let n := code c in
      if (n =? 34)%N then Some ([], r)
      else if (n <? 32)%N then None
      else if (n =? 92)%N then
        match r with
        | [] => None
        | e :: r1 =>
            if (code e =? 117)%N then
              match r1 with
              | a :: b :: c' :: d :: r2 =>
                  match hex_val a, hex_val b, hex_val c', hex_val d with
                  | Some x3, Some x2, Some x1, Some x0 =>
                      match read_chars r2 with
                      | Some (t, r3) =>
                          Some (utf8 (x3 * 4096 + x2 * 256 + x1 * 16 + x0)%N ++ t, r3)
                      | None => None
                      end
                  | _, _, _, _ => None
                  end
              | _ => None
              end
            else
              match unescape (code e) with
              | Some ch =>
                  match read_chars r1 with
                  | Some (t, r2) => Some (ch :: t, r2)
                  | None => None
                  end
              | None => None
              end
        end
      else
        match read_chars r with
        | Some (t, r') => Some (c :: t, r')
        | None => None
        end
  end.

(** The object a member list denotes: a repeated name keeps its first
    position and takes the last value. *)
Definition build_object (ms : list (string * jsval)) : jsval :=
  JObj (fold_left (fun acc p => set_prop (fst p) (snd p) acc) ms []).

(** The recursive-descent parser.  [fuel] bounds the nesting of calls; one
    more than the length of the input is enough.  A result is the value
    read and the input left after it. *)
Fixpoint parse_value (fuel : nat) (s : text) : option (jsval * text) :=
  match fuel with
  | O => None
  | S n =>
      match skip_ws s with
      | [] => None
      | c :: r =>
          let k := code c in
          if (k =? 123)%N then
            match skip_ws r with
            | c' :: r' =>
                if (code c' =? 125)%N then Some (JObj [], r')
                else
                  match parse_members n r with
                  | Some (ms, t) => Some (build_object ms, t)
                  | None => None
                  end
            | [] => None
            end
          else if (k =? 91)%N then
            match skip_ws r with
            | c' :: r' =>
                if (code c' =? 93)%N then Some (JArr [], r')
                else
                  match parse_items n r with
                  | Some (vs, t) => Some (JArr vs, t)
                  | None => None
                  end
            | [] => None
            end
          else if (k =? 34)%N then
            match read_chars r with
            | Some (t, r') => Some (JStr (string_of_list_ascii t), r')
            | None => None
            end
          else if (k =? 110)%N then
            option_map (pair JNull) (strip_prefix (lit "ull") r)
          else if (k =? 116)%N then
            option_map (pair (JBool true)) (strip_prefix (lit "rue") r)
          else if (k =? 102)%N then
            option_map (pair (JBool false)) (strip_prefix (lit "alse") r)
          else
            match read_number (c :: r) with
            | Some (z, r') => Some (JNum z, r')
            | None => None
            end
      end
  end
with parse_items (fuel : nat) (s : text) : option (list jsval * text) :=
  match fuel with
  | O => None
  | S n =>
      match parse_value n s with
      | Some (v, r) =>
          match skip_ws r with
          | c :: r' =>
              if (code c =? 44)%N then
                match parse_items n r' with
                | Some (vs, t) => Some (v :: vs, t)
                | None => None
                end
              else if (code c =? 93)%N then Some ([v], r')
              else None
          | [] => None
          end
      | None => None
      end
  end
with parse_members (fuel : nat) (s : text) : option (list (string * jsval) * text) :=
  match fuel with
  | O => None
  | S n =>
      match skip_ws s with
      | q :: r =>
          if (code q =? 34)%N then
            match read_chars r with
            | Some (k, r1) =>
                match skip_ws r1 with
                | col :: r2 =>
                    if (code col =? 58)%N then
                      match parse_value n r2 with
                      | Some (v, r3) =>
                          match skip_ws r3 with
                          | c :: r4 =>
                              if (code c =? 44)%N then
                                match parse_members n r4 with
                                | Some (ms, t) =>
                                    Some ((string_of_list_ascii k, v) :: ms, t)
                                | None => None
                                end
                              else if (code c =? 125)%N then
                                Some ([(string_of_list_ascii k, v)], r4)
                              else None
                          | [] => None
                          end
                      | None => None
                      end
                    else None
                | [] => None
                end
            | None => None
            end
          else None
      | [] => None
      end
  end.

(** [JSON.parse(s)]: the value, or [None] for a thrown SyntaxError. *)
Definition parse (s : string) : option jsval :=
  let t := list_ascii_of_string s in
  match parse_value (S (length t)) t with
  | Some (v, r) => match skip_ws r with [] => Some v | _ :: _ => None end
  | None => None
  end.

(** What a value looks like after a trip through JSON text: dates and
    object ids have become strings, [undefined] properties are gone and
    [undefined] array elements are [null]. *)
Fixpoint image (v : jsval) : jsval :=
  match v with
  | JUndefined => JNull
  | JDate ms =>
      if valid_time ms then JStr (string_of_list_ascii (toISOString ms)) else JNull
  | JOid hex => JStr hex
  | JArr l => JArr (map image l)
  | JObj ps =>
      JObj (flat_map (fun p => match p with
                               | (k, JUndefined) => []
                               | (k, x) => [(k, image x)]
                               end) ps)
  | _ => v
  end.

(** *** Notions used to state the round trip *)

Definition is_digit (c : ascii) : bool := (48 <=? code c)%N && (code c <=? 57)%N.

(** The text of an array element: [undefined] is written [null]. *)
Definition print_item (v : jsval) : text :=
  match print_value v with
  | Some t => t
  | None => lit "null"
  end.

(** The text of an object member, none for an [undefined] value. *)
Definition print_member (p : string * jsval) : list text :=
  match p with
  | (k, x) =>
      match print_value x with
      | Some t => [quote (lit k) ++ chr 58 :: t]
      | None => []
      end
  end.

Definition image_member (p : string * jsval) : props :=
  match p with
  | (k, JUndefined) => []
  | (k, x) => [(k, image x)]
  end.

(** The members that are written: those whose value is not [undefined]. *)
Definition kept (ps : props) : props :=
  List.filter (fun p => match snd p with JUndefined => false | _ => true end) ps.

Definition member_text (p : string * jsval) : text :=
  quote (lit (fst p)) ++ chr 58 :: print_item (snd p).

Definition member_image (p : string * jsval) : string * jsval :=
  (fst p, image (snd p)).

(** What may follow a value inside JSON text: nothing, a comma, or a
    closing bracket or brace. *)
Definition delimited (rest : text) : Prop :=
  match rest with
  | [] => True
  | c :: _ => code c = 44%N \/ code c = 93%N \/ code c = 125%N
  end.

(** What ends a number: no digit, point or exponent mark. *)
Definition ends_number (rest : text) : Prop :=
  match rest with
  | [] => True
  | c :: _ =>
      is_digit c = false /\ (code c =? 46)%N = false
      /\ (code c =? 101)%N = false /\ (code c =? 69)%N = false
  end.

(** The first character of a printed value is no white space and closes
    no array. *)
Definition head_ok (t : text) : Prop :=
  exists c r, t = c :: r /\ is_ws c = false /\ (code c =? 93)%N = false.

(** Parsing the text of [v], whatever follows it, gives the image of [v]
    and leaves what follows. *)
Definition roundtrips (v : jsval) : Prop :=
  wf_value v = true ->
  forall fuel rest, (2 * jsize (image v) <= fuel)%nat -> delimited rest ->
  parse_value fuel (print_item v ++ rest) = Some (image v, rest).

Definition fuel_of (l : list jsval) : nat :=
  list_sum (map (fun v => (2 * jsize (image v))%nat) l).

End JSON.

(* ===================================================================== *)
(** ** Regular expressions of [$regex] filters *)
(* ===================================================================== *)

(** The pattern language of the store (PCRE, in UTF-8 mode), as far as it
    is modelled here:
    - characters that stand for themselves, and a backslash before a
      character that is no letter or digit;
    - the dot, the classes [[...]] and [[^...]] with ranges, and the
      escapes \d \D \w \W \s \S, inside a class and outside;
    - \n \r \t \f \a \e;
    - the anchors ^ and $, \A \Z \z, and the word boundary \b \B;
    - groups [(...)] and [(?:...)] and the alternation;
    - the quantifiers * + ? {n} {n,} {n,m}, greedy or lazy.
    What is searched for is a match anywhere in the subject, so that only
    the language of the pattern matters, not the order in which PCRE
    tries the alternatives.

    [compile] answers [None] for a pattern that is malformed, and also
    for the constructs left out of the model: back references,
    look-around and the other [(?...)] groups, possessive quantifiers,
    the escapes \x \o \c \p \P \Q \E \h \v \R \X \K \G \N and octal ones,
    and POSIX classes.  Letter case is the ASCII one; the folding of
    letters beyond ASCII is not modelled. *)
Module Regex.

Import JSON.


(** ASCII case folding. *)
Definition lower (c : ascii) : ascii :=
  let n := code c in
  if (65 <=? n)%N && (n <=? 90)%N then chr (n + 32) else c.

(** *** Characters *)

Definition digit_code (n : N) : bool := ((48 <=? n) && (n <=? 57))%N.

Definition letter_code (n : N) : bool :=
  (((65 <=? n) && (n <=? 90)) || ((97 <=? n) && (n <=? 122)))%N.

(** \w: letters, digits and the underscore. *)
Definition word_code (n : N) : bool := (digit_code n || letter_code n || (n =? 95))%N.

(** \s: space, tab, line feed, vertical tab, form feed, carriage return. *)
Definition space_code (n : N) : bool := ((n =? 32) || ((9 <=? n) && (n <=? 13)))%N.

(** The same letter in the other case. *)
Definition other_case (n : N) : N :=
  if ((65 <=? n) && (n <=? 90))%N then (n + 32)%N
  else if ((97 <=? n) && (n <=? 122))%N then (n - 32)%N
  else n.

Definition continuation (c : ascii) : bool := ((128 <=? code c) && (code c <? 192))%N.

Definition leading (c : ascii) : bool := ((192 <=? code c) && (code c <? 248))%N.

(** The character a text begins with, as its code point, and what
    follows it.  No character begins with a byte that continues a UTF-8
    sequence; a leading byte whose sequence is cut short counts as a
    character of its own, beyond the code points. *)
Definition next_char (s : text) : option (N * text) :=
  match s with
  | [] => None
  | a :: r =>
      let x := code a in
      let stray := Some (1114112 + x, r)%N in
      if (x <? 128)%N then Some (x, r)
      else if (x <? 192)%N then None
      else if ((192 <=? x) && (x <? 224))%N then
        match r with
        | b :: r1 =>
            if continuation b then Some ((x - 192) * 64 + (code b - 128), r1)%N else stray
        | _ => stray
        end
      else if ((224 <=? x) && (x <? 240))%N then
        match r with
        | b :: c :: r2 =>
            if continuation b && continuation c
            then Some ((x - 224) * 4096 + (code b - 128) * 64 + (code c - 128), r2)%N
            else stray
        | _ => stray
        end
      else if ((240 <=? x) && (x <? 248))%N then
        match r with
        | b :: c :: d :: r3 =>
            if continuation b && continuation c && continuation d
            then Some ((x - 240) * 262144 + (code b - 128) * 4096
                       + (code c - 128) * 64 + (code d - 128), r3)%N
            else stray
        | _ => stray
        end
      else stray
  end.

(** *** Patterns *)

(** What a class lists: a range of code points, or one of \d \w \s,
    negated for \D \W \S. *)
Inductive item : Type :=
| Range (lo hi : N)
| Digit (neg : bool)
| Word (neg : bool)
| Space (neg : bool).

(** The assertions: ^ and \A; $ and \Z; \z; \b, negated for \B. *)
Inductive anchor : Type :=
| Start
| Finish
| VeryEnd
| Boundary (neg : bool).

Inductive regex : Type :=
| Lit (c : ascii)                          (* one byte *)
| Class (neg : bool) (items : list item)   (* one character *)
| Anchor (a : anchor)
| Empty
| Seq (r1 r2 : regex)
| Alt (r1 r2 : regex)
| Star (r : regex).

Definition concat (rs : list regex) : regex := fold_right Seq Empty rs.

Fixpoint choice (rs : list regex) : regex :=
  match rs with
  | [] => Empty
  | [r] => r
  | r :: rest => Alt r (choice rest)
  end.

(** The dot: any character but the line feed. *)
Definition dot : regex := Class true [Range 10 10].

(** *** Matching *)

Definition in_item (n : N) (i : item) : bool :=
  match i with
  | Range lo hi => ((lo <=? n) && (n <=? hi))%N
  | Digit neg => xorb neg (digit_code n)
  | Word neg => xorb neg (word_code n)
  | Space neg => xorb neg (space_code n)
  end.

Definition in_class (ci neg : bool) (items : list item) (n : N) : bool :=
  xorb neg (existsb (in_item n) items || (ci && existsb (in_item (other_case n)) items)).

(** What stands before the position reached in the subject: nothing, or
    a character, of a word or not. *)
Inductive before : Type :=
| AtStart
| After (word : bool).

Definition word_before (b : before) : bool :=
  match b with
  | AtStart => false
  | After w => w
  end.

Definition word_after (s : text) : bool :=
  match s with
  | c :: _ => word_code (code c)
  | [] => false
  end.

(** [$] holds at the end of the subject and before a line feed that
    ends it. *)
Definition holds (a : anchor) (b : before) (s : text) : bool :=
  match a with
  | Start => match b with AtStart => true | After _ => false end
  | Finish =>
      match s with
      | [] => true
      | [c] => (code c =? 10)%N
      | _ => false
      end
  | VeryEnd => match s with [] => true | _ :: _ => false end
  | Boundary neg => xorb neg (xorb (word_before b) (word_after s))
  end.

(** The pattern matches at the start of [s], what stands before being
    [b], and [k] accepts what is left.  Every way of matching is tried.
    A repetition goes on only while it consumes something. *)
Fixpoint run (ci : bool) (r : regex) (b : before) (s : text)
  (k : before -> text -> bool) {struct r} : bool :=
  match r with
  | Lit x =>
      match s with
      | c :: s' =>
          (if ci then Ascii.eqb (lower x) (lower c) else Ascii.eqb x c)
          && k (After (word_code (code c))) s'
      | [] => false
      end
  | Class neg items =>
      match next_char s with
      | Some (n, s') => in_class ci neg items n && k (After (word_code n)) s'
      | None => false
      end
  | Anchor a => holds a b s && k b s
  | Empty => k b s
  | Seq r1 r2 => run ci r1 b s (fun b' s' => run ci r2 b' s' k)
  | Alt r1 r2 => run ci r1 b s k || run ci r2 b s k
  | Star r1 =>
      (fix again (fuel : nat) (b0 : before) (s0 : text) {struct fuel} : bool :=
         k b0 s0
         || match fuel with
            | O => false
            | S fuel' =>
                run ci r1 b0 s0
                  (fun b' s' => (length s' <? length s0)%nat && again fuel' b' s')
            end) (length s) b s
  end.

(** The pattern matches somewhere in the subject, from this position on. *)
Fixpoint search_from (ci : bool) (r : regex) (b : before) (s : text) : bool :=
  run ci r b s (fun _ _ => true)
  || match s with
     | [] => false
     | c :: s' => search_from ci r (After (word_code (code c))) s'
     end.

(** Unanchored search: the pattern matches somewhere in the subject. *)
Definition search (ci : bool) (r : regex) (s : text) : bool := search_from ci r AtStart s.

(** Option [i] asks for case-insensitive matching. *)
Definition case_insensitive (options : string) : bool :=
  existsb (Ascii.eqb (chr 105)) (lit options).

(** *** Reading a pattern *)

(** A quantifier: the least and the greatest number of repetitions. *)
Inductive quantifier : Type :=
| Once
| Times (lo : N) (hi : option N).

(** The counts of [{n}], [{n,}] and [{n,m}], read after the brace; a
    brace followed by anything else is an ordinary character. *)
Definition read_counts (s : text) : option (N * option N * text) :=
  match read_digits s with
  | ([], _) => None
  | (ds, c :: r) =>
      if (code c =? 125)%N then Some (value_of ds, Some (value_of ds), r)
      else if (code c =? 44)%N then
        match read_digits r with
        | ([], c2 :: r2) =>
            if (code c2 =? 125)%N then Some (value_of ds, None, r2) else None
        | (ds2, c2 :: r2) =>
            if (code c2 =? 125)%N then Some (value_of ds, Some (value_of ds2), r2) else None
        | (_, []) => None
        end
      else None
  | (_, []) => None
  end.

(** The quantifier sign the text begins with, if any. *)
Definition read_sign (s : text) : option (N * option N * text) :=
  match s with
  | c :: r =>
      if (code c =? 42)%N then Some (0, None, r)%N
      else if (code c =? 43)%N then Some (1, None, r)%N
      else if (code c =? 63)%N then Some (0, Some 1, r)%N
      else if (code c =? 123)%N then read_counts r
      else None
  | [] => None
  end.

Definition counts_ok (lo : N) (hi : option N) : bool :=
  match hi with
  | Some h => ((lo <=? h) && (h <=? 65535))%N
  | None => (lo <=? 65535)%N
  end.

(** The quantifier that follows an item: none, or a sign, which a
    question mark may follow (lazy: the same matches, tried in another
    order).  Refused ([None]): counts out of order or above 65535, a
    possessive quantifier, and a quantifier on a quantifier. *)
Definition read_quantifier (s : text) : option (quantifier * text) :=
  match read_sign s with
  | None => Some (Once, s)
  | Some (lo, hi, r) =>
      if counts_ok lo hi then
        let r1 := match r with
                  | c :: r' => if (code c =? 63)%N then r' else r
                  | [] => r
                  end in
        match read_sign r1 with
        | Some _ => None
        | None => Some (Times lo hi, r1)
        end
      else None
  end.

(** [lo] copies of the item, then a star or the copies that may be left
    out. *)
Definition quantify (q : quantifier) (r : regex) : regex :=
  match q with
  | Once => r
  | Times lo None => concat (repeat r (N.to_nat lo) ++ [Star r])
  | Times lo (Some hi) =>
      concat (repeat r (N.to_nat lo) ++ repeat (Alt r Empty) (N.to_nat (hi - lo)))
  end.

(** A backslash and a letter, outside a class. *)
Definition read_escape (e : ascii) : option regex :=
  let n := code e in
  if (n =? 100)%N then Some (Class false [Digit false])
  else if (n =? 68)%N then Some (Class false [Digit true])
  else if (n =? 119)%N then Some (Class false [Word false])
  else if (n =? 87)%N then Some (Class false [Word true])
  else if (n =? 115)%N then Some (Class false [Space false])
  else if (n =? 83)%N then Some (Class false [Space true])
  else if (n =? 98)%N then Some (Anchor (Boundary false))
  else if (n =? 66)%N then Some (Anchor (Boundary true))
  else if (n =? 65)%N then Some (Anchor Start)
  else if (n =? 90)%N then Some (Anchor Finish)
  else if (n =? 122)%N then Some (Anchor VeryEnd)
  else if (n =? 110)%N then Some (Lit (chr 10))
  else if (n =? 114)%N then Some (Lit (chr 13))
  else if (n =? 116)%N then Some (Lit (chr 9))
  else if (n =? 102)%N then Some (Lit (chr 12))
  else if (n =? 97)%N then Some (Lit (chr 7))
  else if (n =? 101)%N then Some (Lit (chr 27))
  else if digit_code n || letter_code n then None
  else Some (Lit e).

(** One member of a class: a character, or one of \d \w \s. *)
Definition read_member (s : text) : option (item * text) :=
  match s with
  | [] => None
  | c :: r =>
      if (code c =? 92)%N then
        match r with
        | [] => None
        | e :: r1 =>
            let n := code e in
            if (n =? 100)%N then Some (Digit false, r1)
            else if (n =? 68)%N then Some (Digit true, r1)
            else if (n =? 119)%N then Some (Word false, r1)
            else if (n =? 87)%N then Some (Word true, r1)
            else if (n =? 115)%N then Some (Space false, r1)
            else if (n =? 83)%N then Some (Space true, r1)
            else if (n =? 98)%N then Some (Range 8 8, r1)
            else if (n =? 110)%N then Some (Range 10 10, r1)
            else if (n =? 114)%N then Some (Range 13 13, r1)
            else if (n =? 116)%N then Some (Range 9 9, r1)
            else if (n =? 102)%N then Some (Range 12 12, r1)
            else if (n =? 97)%N then Some (Range 7 7, r1)
            else if (n =? 101)%N then Some (Range 27 27, r1)
            else if digit_code n || letter_code n then None
            else
              match next_char r with
              | Some (cp, r2) => Some (Range cp cp, r2)
              | None => None
              end
        end
      else if (code c =? 91)%N then
        match r with
        | d :: _ =>
            if ((code d =? 58) || (code d =? 46) || (code d =? 61))%N then None
            else Some (Range 91 91, r)
        | [] => Some (Range 91 91, r)
        end
      else
        match next_char s with
        | Some (cp, r1) => Some (Range cp cp, r1)
        | None => None
        end
  end.

(** The members of a class up to the closing bracket; a closing bracket
    that comes first is a member.  A hyphen between two characters makes
    a range; before the closing bracket it is a hyphen. *)
Fixpoint read_members (fuel : nat) (first : bool) (s : text) (acc : list item)
  : option (list item * text) :=
  match fuel with
  | O => None
  | S fuel' =>
      match s with
      | [] => None
      | c :: r =>
          if (code c =? 93)%N && negb first then Some (rev acc, r)
          else
            match (if (code c =? 93)%N then Some (Range 93 93, r) else read_member s) with
            | None => None
            | Some (m, r1) =>
                match r1 with
                | h :: t :: r2 =>
                    if ((code h =? 45) && negb (code t =? 93))%N then
                      match m, read_member (t :: r2) with
                      | Range lo _, Some (Range _ hi, r3) =>
                          if (lo <=? hi)%N
                          then read_members fuel' false r3 (Range lo hi :: acc)
                          else None
                      | _, _ => None
                      end
                    else read_members fuel' false r1 (m :: acc)
                | _ => read_members fuel' false r1 (m :: acc)
                end
            end
      end
  end.

(** A class, read after its opening bracket: a circumflex first negates
    it. *)
Definition read_class (s : text) : option (regex * text) :=
  let (neg, s1) :=
    match s with
    | c :: r => if (code c =? 94)%N then (true, r) else (false, s)
    | [] => (false, s)
    end in
  match read_members (length s1) true s1 [] with
  | Some (items, rest) => Some (Class neg items, rest)
  | None => None
  end.

(** The bytes of the character that ends with the last item read, taken
    back from the items read so far: a quantifier bears on the whole
    character. *)
Fixpoint take_back (n : nat) (acc got : list regex) : list regex * list regex :=
  match n, acc with
  | S n', Lit b :: acc' =>
      if continuation b then take_back n' acc' (Lit b :: got)
      else if leading b then (Lit b :: got, acc')
      else (got, acc)
  | _, _ => (got, acc)
  end.

(** What a group opens with: nothing, or [?:]; the other groups that
    begin with a question mark or a star are refused. *)
Definition open_group (s : text) : option text :=
  match s with
  | c :: r =>
      if (code c =? 63)%N then
        match r with
        | d :: r' => if (code d =? 58)%N then Some r' else None
        | [] => None
        end
      else if (code c =? 42)%N then None
      else Some s
  | [] => Some s
  end.

(** The pattern read so far: [alts] holds the alternatives that are
    complete and [acc] the items of the one being read, both last first. *)
Definition finish (acc alts : list regex) : regex :=
  choice (rev (concat (rev acc) :: alts)).

(** The parser.  [inside] tells whether a group is open; the result is
    the pattern read and, for a group, what follows its closing
    parenthesis.  One more than the length of the text is fuel enough. *)
Fixpoint parse (fuel : nat) (inside : bool) (acc alts : list regex) (s : text)
  : option (regex * text) :=
  match fuel with
  | O => None
  | S f =>
      let item_then (r : regex) (rest : text) :=
        match read_quantifier rest with
        | Some (q, rest') => parse f inside (quantify q r :: acc) alts rest'
        | None => None
        end in
      let anchor_then (r : regex) (rest : text) :=
        match read_quantifier rest with
        | Some (Once, _) => parse f inside (r :: acc) alts rest
        | _ => None
        end in
      match s with
      | [] => if inside then None else Some (finish acc alts, [])
      | c :: r =>
          let n := code c in
          if (n =? 41)%N then
            if inside then Some (finish acc alts, r) else None
          else if (n =? 124)%N then parse f inside [] (concat (rev acc) :: alts) r
          else if (n =? 40)%N then
            match open_group r with
            | Some r1 =>
                match parse f true [] [] r1 with
                | Some (g, r2) => item_then g r2
                | None => None
                end
            | None => None
            end
          else if (n =? 91)%N then
            match read_class r with
            | Some (cl, r1) => item_then cl r1
            | None => None
            end
          else if (n =? 92)%N then
            match r with
            | e :: r1 =>
                match read_escape e with
                | Some (Anchor a) => anchor_then (Anchor a) r1
                | Some x => item_then x r1
                | None => None
                end
            | [] => None
            end
          else if (n =? 46)%N then item_then dot r
          else if (n =? 94)%N then anchor_then (Anchor Start) r
          else if (n =? 36)%N then anchor_then (Anchor Finish) r
          else if ((n =? 42) || (n =? 43) || (n =? 63))%N then None
          else if (n =? 123)%N && match read_counts r with Some _ => true | None => false end
          then None
          else
            match read_quantifier r with
            | Some (Once, _) => parse f inside (Lit c :: acc) alts r
            | Some (q, rest') =>
                let (bytes, acc') :=
                  if continuation c then take_back 3 acc [Lit c] else ([Lit c], acc) in
                parse f inside (quantify q (concat bytes) :: acc') alts rest'
            | None => None
            end
      end
  end.

(** The pattern a text denotes, [None] when it is refused. *)
Definition compile (p : text) : option regex :=
  match parse (S (length p)) false [] [] p with
  | Some (r, _) => Some r
  | None => None
  end.

End Regex.

(* ===================================================================== *)
(** ** Errors and completions *)
(* ===================================================================== *)

(** A thrown [Error]: the handlers only read [error.message]. *)
Record error : Type := Error { name : string; message : string }.

(** How an evaluation ends: with a value, or by throwing. *)
Inductive completion (A : Type) : Type :=
| Normal (a : A)
| Throw (e : error).
Arguments Normal {A} a.
Arguments Throw {A} e.

(* ===================================================================== *)
(** ** The MongoDB collection [products] *)
(* ===================================================================== *)

Module Mongo.

Import JSON.

(** The queries (filter documents) the handlers build. *)
#[local] Unset Elimination Schemes.
Inductive query : Type :=
| QAll                                               (* {} *)
| QIdEq (id : string)                                (* { _id: id } *)
| QRegex (path pattern options : string)             (* { path: { $regex, $options } } *)
| QOr (qs : list query).                             (* { $or: [...] } *)
#[local] Set Elimination Schemes.

(** The query is rejected when a pattern does not compile or [$or] is
    given nothing. *)
Fixpoint valid (q : query) : bool :=
  match q with
  | QAll | QIdEq _ => true
  | QRegex _ p _ => match Regex.compile (lit p) with Some _ => true | None => false end
  | QOr qs => match qs with [] => false | _ :: _ => forallb valid qs end
  end.

(** The strings a regular expression is tried on: the field itself, or
    the string elements of an array-valued field. *)
Definition strings_at (path : string) (d : jsval) : list string :=
  match field path d with
  | JStr s => [s]
  | JArr l => flat_map (fun x => match x with JStr s => [s] | _ => [] end) l
  | _ => []
  end.

Fixpoint matches (q : query) (d : jsval) : bool :=
  match q with
  | QAll => true
  | QIdEq id => jsval_eqb (field "_id" d) (JStr id)
  | QRegex path p opts =>
      match Regex.compile (lit p) with
      | Some pat =>
          existsb (fun s => Regex.search (Regex.case_insensitive opts) pat (lit s))
            (strings_at path d)
      | None => false
      end
  | QOr qs => existsb (fun g => matches g d) qs
  end.

Definition bad_query : error :=
  Error "MongoServerError" "Regular expression is invalid".

(** [find(q).toArray()]: the matching documents in natural order. *)
Definition find (q : query) (docs : list jsval) : completion (list jsval) :=
  if valid q then Normal (List.filter (matches q) docs) else Throw bad_query.

(** The 24 hexadecimal digits of the [n]-th generated ObjectId. *)
Definition oid_hex (n : N) : string :=
  string_of_list_ascii
    (map (fun i => hex_char ((n / 16 ^ N.of_nat i) mod 16)%N) (rev (seq 0 24))).

Definition duplicate_key : error :=
  Error "MongoServerError" "E11000 duplicate key error collection: products index: _id_".

(** The document as stored: [_id] first (the given one, or a fresh
    ObjectId), then the other properties. *)
Definition with_id (oid : N) (doc : props) : jsval * jsval :=
  let id := if has_prop "_id" doc then get_prop "_id" doc else JOid (oid_hex oid) in
  (id, JObj (("_id", id) :: remove_prop "_id" doc)).

Definition id_taken (id : jsval) (docs : list jsval) : bool :=
  existsb (fun d => jsval_eqb (field "_id" d) id) docs.

(** [insertOne(doc)]: the new collection, the next ObjectId counter and
    the driver's result. *)
Definition insertOne (doc : props) (oid : N) (docs : list jsval)
  : completion (list jsval * N * jsval) :=
  let (id, stored) := with_id oid doc in
  if id_taken id docs then Throw duplicate_key
  else Normal (docs ++ [stored], N.succ oid,
               JObj [("acknowledged", JBool true); ("insertedId", id)]).

(** [insertMany(docs)], ordered: documents go in one after the other; at
    the first failure the call rejects and the earlier ones stay.  The
    state is returned in both cases. *)
Fixpoint insert_each (news : list props) (oid : N) (docs : list jsval) (ids : list jsval)
  : list jsval * N * completion (list jsval) :=
  match news with
  | [] => (docs, oid, Normal ids)
  | doc :: rest =>
      match insertOne doc oid docs with
      | Normal (docs', oid', r) => insert_each rest oid' docs' (ids ++ [field "insertedId" r])
      | Throw e => (docs, oid, Throw e)
      end
  end.

Definition index_keys (ids : list jsval) : props :=
  imap (fun i id => (string_of_list_ascii (print_number (Z.of_nat i)), id)) ids.

Definition insertMany (news : list props) (oid : N) (docs : list jsval)
  : list jsval * N * completion jsval :=
  match insert_each news oid docs [] with
  | (docs', oid', Normal ids) =>
      (docs', oid',
       Normal (JObj [("acknowledged", JBool true);
                     ("insertedCount", JNum (Z.of_nat (length ids)));
                     ("insertedIds", JObj (index_keys ids))]))
  | (docs', oid', Throw e) => (docs', oid', Throw e)
  end.

Definition immutable_id : error :=
  Error "MongoServerError"
    "Performing an update on the path '_id' would modify the immutable field '_id'".

Definition update_result (matched modified : Z) : jsval :=
  JObj [("acknowledged", JBool true); ("modifiedCount", JNum modified);
        ("upsertedId", JNull); ("upsertedCount", JNum 0);
        ("matchedCount", JNum matched)].

(** [$set]: assign each given property, a name being taken as the name
    of a field of the document itself; an empty [$set] changes nothing.
    What the server does with a dotted name (a path into the document)
    or with a name that begins with a dollar sign is not modelled, nor
    is the order in which it adds several new fields. *)
Definition apply_set (set : props) (d : jsval) : jsval :=
  match d with
  | JObj ps => JObj (fold_left (fun acc p => set_prop (fst p) (snd p) acc) set ps)
  | _ => d
  end.

(** [updateOne(q, { $set: set })]: the first matching document is
    patched; none matching is not an error. *)
Fixpoint updateOne (q : query) (set : props) (docs : list jsval)
  : completion (list jsval * jsval) :=
  match docs with
  | [] => Normal ([], update_result 0 0)
  | d :: rest =>
      if matches q d then
        let d' := apply_set set d in
        if jsval_eqb (field "_id" d') (field "_id" d)
        then Normal (d' :: rest, update_result 1 (if jsval_eqb d' d then 0 else 1))
        else Throw immutable_id
      else
        match updateOne q set rest with
        | Normal (rest', r) => Normal (d :: rest', r)
        | Throw e => Throw e
        end
  end.

Definition delete_result (deleted : Z) : jsval :=
  JObj [("acknowledged", JBool true); ("deletedCount", JNum deleted)].

(** [deleteOne(q)]: the first matching document is removed. *)
Fixpoint deleteOne (q : query) (docs : list jsval) : list jsval * jsval :=
  match docs with
  | [] => ([], delete_result 0)
  | d :: rest =>
      if matches q d then (rest, delete_result 1)
      else let (rest', r) := deleteOne q rest in (d :: rest', r)
  end.

End Mongo.

(* ===================================================================== *)
(** ** The world of a request *)
(* ===================================================================== *)

(** A Redis key: its value and its expiry time (ms); the key is gone once
    the clock of the server is past that time. *)
Record entry : Type := Entry { value : string; expires : Z }.

(** What the three [Math.random()] expressions of one synthetic product
    evaluate to: the price ([Math.random() * 1000]), the category index
    ([Math.floor(Math.random() * 4)]) and the stock flag
    ([Math.random() > 0.5]). *)
Record draw : Type :=
  Draw { drawn_price : number; drawn_category : nat; drawn_stock : bool }.

Record world : Type := World {
  now : Z;                                   (* Date.now(), in ms *)
  keyspace : gmap string entry;              (* the Redis server *)
  products : list jsval;                     (* the collection, in natural order *)
  next_oid : N;                              (* ObjectId supply of the driver *)
  redis_faults : list (option error);        (* rejections of the coming Redis calls *)
  mongo_faults : list (option error);        (* rejections of the coming MongoDB calls *)
  accumulator : string -> list jsval -> jsval; (* the server's $avg, $min, $max *)
  randoms : nat -> draw;                     (* outcomes of Math.random() *)
  drawn : nat;                               (* products drawn so far *)
  parse_message : string -> string           (* the engine's wording of the SyntaxError
                                                that JSON.parse throws on a text *)
}.

Definition set_keyspace (k : gmap string entry) (w : world) : world :=
  World (now w) k (products w) (next_oid w) (redis_faults w) (mongo_faults w)
    (accumulator w) (randoms w) (drawn w) (parse_message w).

Definition set_products (docs : list jsval) (oid : N) (w : world) : world :=
  World (now w) (keyspace w) docs oid (redis_faults w) (mongo_faults w)
    (accumulator w) (randoms w) (drawn w) (parse_message w).

Definition set_redis_faults (fs : list (option error)) (w : world) : world :=
  World (now w) (keyspace w) (products w) (next_oid w) fs (mongo_faults w)
    (accumulator w) (randoms w) (drawn w) (parse_message w).

Definition set_mongo_faults (fs : list (option error)) (w : world) : world :=
  World (now w) (keyspace w) (products w) (next_oid w) (redis_faults w) fs
    (accumulator w) (randoms w) (drawn w) (parse_message w).

Definition set_drawn (n : nat) (w : world) : world :=
  World (now w) (keyspace w) (products w) (next_oid w) (redis_faults w) (mongo_faults w)
    (accumulator w) (randoms w) n (parse_message w).

(** Time passing between two requests. *)
Definition elapse (ms : Z) (w : world) : world :=
  World (now w + ms) (keyspace w) (products w) (next_oid w) (redis_faults w)
    (mongo_faults w) (accumulator w) (randoms w) (drawn w) (parse_message w).

(** The next call of a collaborator rejects when its script says so; an
    exhausted script means no more rejections. *)
Definition next_fault (script : list (option error)) : option error * list (option error) :=
  match script with
  | [] => (None, [])
  | f :: rest => (f, rest)
  end.

(** *** Redis commands *)

Module Redis.

(** GET: the value of a key that exists and has not expired. *)
Definition get (key : string) (w : world) : option string :=
  match keyspace w !! key with
  | Some e => if now w <=? expires e then Some (value e) else None
  | None => None
  end.

(** SET key value EX seconds. *)
Definition set (key val : string) (seconds : Z) (w : world) : world :=
  set_keyspace (<[key := Entry val (now w + seconds * 1000)]> (keyspace w)) w.

(** DEL key: the number of keys removed. *)
Definition del (key : string) (w : world) : Z * world :=
  (match get key w with Some _ => 1 | None => 0 end,
   set_keyspace (delete key (keyspace w)) w).

End Redis.

(* ===================================================================== *)
(** ** Traces and the monad of handlers *)
(* ===================================================================== *)

(** The awaited calls a handler issues. *)
Inductive call : Type :=
| RedisGet (key : string)
| RedisSet (key val : string) (seconds : Z)
| RedisDel (key : string)
| Find (q : Mongo.query)
| InsertOne (doc : props)
| InsertMany (docs : list props)
| UpdateOne (q : Mongo.query) (set : props)
| DeleteOne (q : Mongo.query)
| Aggregate.

(** What can be observed of a handler besides its response: each call as
    it is issued, then how its promise settles, and console output. *)
Inductive event : Type :=
| Call (c : call)
| Fulfilled (v : jsval)
| Rejected (e : error)
| Log (msg : string)
| LogError (msg : string) (e : error).

Definition Js (A : Type) : Type := world -> completion A * world * list event.

Definition ret {A : Type} (a : A) : Js A := fun w => (Normal a, w, []).

Definition bind {A B : Type} (m : Js A) (k : A -> Js B) : Js B :=
  fun w =>
    match m w with
    | (Normal a, w1, t1) =>
        match k a w1 with
        | (c, w2, t2) => (c, w2, t1 ++ t2)
        end
    | (Throw e, w1, t1) => (Throw e, w1, t1)
    end.

Definition throw {A : Type} (e : error) : Js A := fun w => (Throw e, w, []).

(** [try { body } catch (error) { handler }] *)
Definition try_catch {A : Type} (body : Js A) (handler : error -> Js A) : Js A :=
  fun w =>
    match body w with
    | (Normal a, w1, t1) => (Normal a, w1, t1)
    | (Throw e, w1, t1) =>
        match handler e w1 with
        | (c, w2, t2) => (c, w2, t1 ++ t2)
        end
    end.

#[export] Instance Js_ret : MRet Js := @ret.
#[export] Instance Js_bind : MBind Js := fun A B k m => bind m k.

Definition trace {A : Type} (r : completion A * world * list event) : list event := snd r.
Definition final {A : Type} (r : completion A * world * list event) : world := snd (fst r).
Definition result {A : Type} (r : completion A * world * list event) : completion A :=
  fst (fst r).

(** *** Awaited calls *)

(** A Redis command: rejected when the script says so, otherwise run on
    the keyspace. *)
Definition redis_call {A : Type} (c : call) (run : world -> A * world) (show : A -> jsval)
  : Js A :=
  fun w =>
    let (f, rest) := next_fault (redis_faults w) in
    let w0 := set_redis_faults rest w in
    match f with
    | Some e => (Throw e, w0, [Call c; Rejected e])
    | None => let (a, w1) := run w0 in (Normal a, w1, [Call c; Fulfilled (show a)])
    end.

(** A collection operation: rejected when the script says so or when the
    store itself refuses it. *)
Definition mongo_call {A : Type} (c : call) (run : world -> completion A * world)
  (show : A -> jsval) : Js A :=
  fun w =>
    let (f, rest) := next_fault (mongo_faults w) in
    let w0 := set_mongo_faults rest w in
    match f with
    | Some e => (Throw e, w0, [Call c; Rejected e])
    | None =>
        match run w0 with
        | (Normal a, w1) => (Normal a, w1, [Call c; Fulfilled (show a)])
        | (Throw e, w1) => (Throw e, w1, [Call c; Rejected e])
        end
    end.

Definition show_reply (r : option string) : jsval :=
  match r with Some s => JStr s | None => JNull end.

(** [redis.get(key)] *)
Definition redis_get (key : string) : Js (option string) :=
  redis_call (RedisGet key) (fun w => (Redis.get key w, w)) show_reply.

(** [redis.set(key, val, 'EX', seconds)] *)
Definition redis_set (key val : string) (seconds : Z) : Js unit :=
  redis_call (RedisSet key val seconds)
    (fun w => (tt, Redis.set key val seconds w)) (fun _ => JStr "OK").

(** [redis.del(key)] *)
Definition redis_del (key : string) : Js Z :=
  redis_call (RedisDel key) (Redis.del key) (fun n => JNum n).

(** [productsCollection.find(q).toArray()] *)
Definition productsCollection_find (q : Mongo.query) : Js (list jsval) :=
  mongo_call (Find q) (fun w => (Mongo.find q (products w), w)) JArr.

(** [productsCollection.insertOne(doc)] *)
Definition productsCollection_insertOne (doc : props) : Js jsval :=
  mongo_call (InsertOne doc)
    (fun w =>
       match Mongo.insertOne doc (next_oid w) (products w) with
       | Normal (docs, oid, r) => (Normal r, set_products docs oid w)
       | Throw e => (Throw e, w)
       end) id.

(** [productsCollection.insertMany(docs)] *)
Definition productsCollection_insertMany (docs : list props) : Js jsval :=
  mongo_call (InsertMany docs)
    (fun w =>
       match Mongo.insertMany docs (next_oid w) (products w) with
       | (docs', oid, r) => (r, set_products docs' oid w)
       end) id.

(** [productsCollection.updateOne(q, { $set: set })] *)
Definition productsCollection_updateOne (q : Mongo.query) (set : props) : Js jsval :=
  mongo_call (UpdateOne q set)
    (fun w =>
       match Mongo.updateOne q set (products w) with
       | Normal (docs, r) => (Normal r, set_products docs (next_oid w) w)
       | Throw e => (Throw e, w)
       end) id.

(** [productsCollection.deleteOne(q)] *)
Definition productsCollection_deleteOne (q : Mongo.query) : Js jsval :=
  mongo_call (DeleteOne q)
    (fun w =>
       match Mongo.deleteOne q (products w) with
       | (docs, r) => (Normal r, set_products docs (next_oid w) w)
       end) id.

(** *** Console, JSON and the response object *)

Definition console_log (msg : string) : Js unit := fun w => (Normal tt, w, [Log msg]).

Definition console_error (msg : string) (e : error) : Js unit :=
  fun w => (Normal tt, w, [LogError msg e]).

(** The error [JSON.parse] throws on a text that is not JSON; its
    message is worded by the engine. *)
Definition syntax_error (w : world) (s : string) : error :=
  Error "SyntaxError" (parse_message w s).

(** [JSON.parse(s)], throwing on malformed text. *)
Definition JSON_parse (s : string) : Js jsval :=
  fun w =>
    match JSON.parse s with
    | Some v => ret v w
    | None => throw (syntax_error w s) w
    end.

(** [JSON.stringify(v)] where a string is expected: [undefined] is passed
    on as the empty string. *)
Definition JSON_stringify (v : jsval) : string :=
  match JSON.stringify v with
  | Some s => s
  | None => EmptyString
  end.

(** What Express sends: the status and the value given to [res.json]. *)
Record response : Type := Response { status : Z; payload : jsval }.

(** The body on the wire; [res.json(undefined)] sends none. *)
Definition body (r : response) : string := JSON_stringify (payload r).

(** [res.json(v)] *)
Definition res_json (v : jsval) : Js response := ret (Response 200 v).

(** [res.status(code).json(v)] *)
Definition res_status_json (code : Z) (v : jsval) : Js response := ret (Response code v).

(** [{ error: error.message }] *)
Definition error_payload (e : error) : jsval := JObj [("error", JStr (message e))].

(** A cached reply is taken when it is truthy: neither [null] nor the
    empty string. *)
Definition truthy (r : option string) : bool :=
  match r with
  | Some s => negb (String.eqb s EmptyString)
  | None => false
  end.

(** The string handed to [JSON.parse]: [null] is coerced to its name. *)
Definition to_string (r : option string) : string :=
  match r with
  | Some s => s
  | None => "null"
  end.

(* ===================================================================== *)
(** ** The handlers of [src/index.js] *)
(* ===================================================================== *)

(** The catch block every handler ends with:
    [console.error(label, error); res.status(500).json({ error: error.message })]. *)
Definition fail_with (label : string) (e : error) : Js response :=
  console_error label e;;
  res_status_json 500 (error_payload e).

(** [app.get('/products-cached', ...)] *)
Definition get_products_cached : Js response :=
  try_catch
    (cachedProducts ← redis_get "products";
     if truthy cachedProducts then
       console_log "Datos desde Redis cache";;
       parsed ← JSON_parse (to_string cachedProducts);
       res_json parsed
     else
       console_log "Cache miss - Consultando MongoDB";;
       products ← productsCollection_find Mongo.QAll;
       redis_set "products" (JSON_stringify (JArr products)) 3600;;
       res_json (JArr products))
    (fail_with "Error en /products-cached:").

(** [app.post('/products', ...)], [body] being [req.body]. *)
Definition post_products (body : props) : Js response :=
  try_catch
    (result ← productsCollection_insertOne body;
     redis_del "products";;
     res_status_json 201 result)
    (fail_with "Error al crear producto:").

(** [app.put('/products/:id', ...)] *)
Definition put_products_id (id : string) (body : props) : Js response :=
  try_catch
    (result ← productsCollection_updateOne (Mongo.QIdEq id) body;
     redis_del "products";;
     res_json result)
    (fail_with "Error al actualizar producto:").

(** [app.delete('/products/:id', ...)] *)
Definition delete_products_id (id : string) : Js response :=
  try_catch
    (result ← productsCollection_deleteOne (Mongo.QIdEq id);
     redis_del "products";;
     res_json result)
    (fail_with "Error al eliminar producto:").

(** [app.get('/products/search/:query', ...)] *)
Definition get_products_search (query : string) : Js response :=
  try_catch
    (products ← productsCollection_find
                  (Mongo.QOr [Mongo.QRegex "name" query "i";
                              Mongo.QRegex "description" query "i"]);
     res_json (JArr products))
    (fail_with "Error en búsqueda:").

(** The object pushed for each document: [{ category: '$category', count: 1 }];
    a missing field is left out. *)
Definition pushed (d : jsval) : jsval :=
  match field "category" d with
  | JUndefined => JObj [("count", JNum 1)]
  | c => JObj [("category", c); ("count", JNum 1)]
  end.

(** The [$group] stage of /stats, with [_id: null]: one group holding
    every document, and no group at all for an empty collection. *)
Definition group_stage (acc : string -> list jsval -> jsval) (docs : list jsval)
  : list jsval :=
  match docs with
  | [] => []
  | _ :: _ =>
      let prices := map (field "price") docs in
      [JObj [("_id", JNull);
             ("totalProducts", JNum (Z.of_nat (length docs)));
             ("avgPrice", acc "$avg" prices);
             ("minPrice", acc "$min" prices);
             ("maxPrice", acc "$max" prices);
             ("categoryCounts", JArr (map pushed docs))]]
  end.

(** [productsCollection.aggregate([{ $group: ... }]).toArray()] *)
Definition productsCollection_aggregate : Js (list jsval) :=
  mongo_call Aggregate
    (fun w => (Normal (group_stage (accumulator w) (products w)), w)) JArr.

(** [stats[0]] *)
Definition first (l : list jsval) : jsval := nth 0 l JUndefined.

(** [app.get('/stats', ...)] *)
Definition get_stats : Js response :=
  try_catch
    (stats ← productsCollection_aggregate;
     res_json (first stats))
    (fail_with "Error en estadísticas:").

Definition categories : list string := ["Electronics"; "Books"; "Clothing"; "Food"].

Definition decimal (i : nat) : string :=
  string_of_list_ascii (JSON.print_number (Z.of_nat i)).

(** The [i]-th synthetic product of /populate. *)
Definition testProduct (w : world) (i : nat) : props :=
  let r := randoms w (drawn w + i)%nat in
  [("name", JStr ("Product " +:+ decimal i));
   ("description", JStr ("Description for product " +:+ decimal i));
   ("price", JNum (drawn_price r));
   ("category", JStr (nth (drawn_category r mod 4) categories EmptyString));
   ("inStock", JBool (drawn_stock r));
   ("createdAt", JDate (now w))].

(** [Array.from({ length: 1000 }, (_, i) => ...)] *)
Definition testProducts : Js (list props) :=
  fun w => (Normal (map (testProduct w) (seq 0 1000)), set_drawn (drawn w + 1000)%nat w, []).

(** [app.post('/populate', ...)] *)
Definition post_populate : Js response :=
  try_catch
    (docs ← testProducts;
     result ← productsCollection_insertMany docs;
     redis_del "products";;
     res_json (JObj [("message", JStr "Database populated successfully");
                     ("insertedCount", field "insertedCount" result)]))
    (fail_with "Error en /populate:").

(** *** The routes *)

(** The requests of the routes modelled here (the plain listing, the
    lookup by id, /clear-cache and /health are left out). *)
Inductive request : Type :=
| GET_products_cached
| POST_products (body : props)
| PUT_products_id (id : string) (body : props)
| DELETE_products_id (id : string)
| GET_products_search (query : string)
| GET_stats
| POST_populate.

(** The routing table built by [app.get], [app.post], [app.put] and
    [app.delete], for these routes. *)
Definition app (req : request) : Js response :=
  match req with
  | GET_products_cached => get_products_cached
  | POST_products body => post_products body
  | PUT_products_id id body => put_products_id id body
  | DELETE_products_id id => delete_products_id id
  | GET_products_search query => get_products_search query
  | GET_stats => get_stats
  | POST_populate => post_populate
  end.

(** The requests that change the collection. *)
Definition mutating (req : request) : bool :=
  match req with
  | POST_products _ | PUT_products_id _ _ | DELETE_products_id _ | POST_populate => true
  | _ => false
  end.

(* ===================================================================== *)
(** ** Reading traces and scripts *)
(* ===================================================================== *)

(** The fate of the [n]-th coming call of a collaborator. *)
Definition fault_at (n : nat) (script : list (option error)) : option error :=
  nth n script None.

Definition is_store_query (c : call) : bool :=
  match c with
  | Find _ | Aggregate => true
  | _ => false
  end.

Definition is_cache_write (c : call) : bool :=
  match c with
  | RedisSet _ _ _ => true
  | _ => false
  end.

Definition is_cache_delete (c : call) : bool :=
  match c with
  | RedisDel _ => true
  | _ => false
  end.

Definition is_mutation (c : call) : bool :=
  match c with
  | InsertOne _ | InsertMany _ | UpdateOne _ _ | DeleteOne _ => true
  | _ => false
  end.

(** How many calls of a kind a trace holds. *)
Fixpoint count_calls (kind : call -> bool) (t : list event) : nat :=
  match t with
  | [] => O
  | Call c :: t' => ((if kind c then 1 else 0) + count_calls kind t')%nat
  | _ :: t' => count_calls kind t'
  end.

(** The trace opens with a store mutation that was acknowledged. *)
Definition mutation_acknowledged (t : list event) : bool :=
  match t with
  | Call c :: Fulfilled _ :: _ => is_mutation c
  | _ => false
  end.

(** The position of the first call of a kind, if any. *)
Fixpoint first_call (kind : call -> bool) (t : list event) : option nat :=
  match t with
  | [] => None
  | Call c :: t' => if kind c then Some O else option_map S (first_call kind t')
  | _ :: t' => option_map S (first_call kind t')
  end.



(* ===================================================================== *)
(** ** Sample data *)
(* ===================================================================== *)

Definition widget : jsval :=
  JObj [("_id", JStr "p1"); ("name", JStr "Widget");
        ("description", JStr "A pocket widget"); ("price", JNum (Number 999 2));
        ("category", JStr "Books"); ("inStock", JBool true);
        ("createdAt", JDate 1700000000000)].

Definition gadget : jsval :=
  JObj [("_id", JStr "p2"); ("name", JStr "abc"); ("description", JStr "xyz");
        ("price", JNum 20); ("category", JStr "Books"); ("inStock", JBool false);
        ("createdAt", JDate 1700000000000)].

Definition redis_down : error := Error "Error" "connect ECONNREFUSED 127.0.0.1:6379".

(** An engine that words every failure of [JSON.parse] in the same way. *)
Definition terse : string -> string := fun _ => "Unexpected end of JSON input".

(** A world at instant 1000000 ms with the given collection, keyspace and
    Redis script; MongoDB never rejects on its own account. *)
Definition sample (docs : list jsval) (cache : gmap string entry)
  (script : list (option error)) (acc : string -> list jsval -> jsval) : world :=
  World 1000000 cache docs 0 script [] acc (fun _ => Draw 500 1 true) 0 terse.

(** Accumulators that answer [null], as the server does when no price is
    a number. *)
Definition no_acc : string -> list jsval -> jsval := fun _ _ => JNull.

(** The keyspace after a listing was cached at instant 1000000 ms. *)
Definition cached (docs : list jsval) : gmap string entry :=
  {[ "products" := Entry (JSON_stringify (JArr docs)) 4600000 ]}.

(* ===================================================================== *)
(** * The rest of the application

    What follows embeds the code of [index.js] and [config/db.js] that
    lies outside the cached read and the mutating routes: the other
    routes, the options of the Redis client, the timing middleware,
    start-up and shutdown.

    - The routes that use no other call than those above stay in the
      monad [Js].  The others run in the monad [Proc] of the process,
      which adds to the world of the handlers the environment, the module
      variables [db] and [productsCollection], and [process.exit].
    - The scripts of the world rule the calls made here too: the MongoDB
      script is consumed by the constructor of the client, [connect],
      [createIndex], [findOne], [command] and [close], the Redis script
      by [ping] and [quit].
    - Requests reach the handlers once the server listens, that is, once
      [db] and [productsCollection] are set. *)
(* ===================================================================== *)

(* ===================================================================== *)
(** ** The plain listing and the clearing of the cache *)
(* ===================================================================== *)

(** [app.get('/products', ...)] *)
Definition get_products : Js response :=
  try_catch
    (products ← productsCollection_find Mongo.QAll;
     res_json (JArr products))
    (fail_with "Error en /products:").

(** [app.post('/clear-cache', ...)] *)
Definition post_clear_cache : Js response :=
  try_catch
    (redis_del "products";;
     res_json (JObj [("message", JStr "Cache cleared successfully")]))
    (fail_with "Error clearing cache:").

Definition is_redis_call (c : call) : bool :=
  match c with
  | RedisGet _ | RedisSet _ _ _ | RedisDel _ => true
  | _ => false
  end.

Definition is_store_call (c : call) : bool := negb (is_redis_call c).

(** A store operation that leaves Redis and the clock alone. *)
Definition keeps_cache (run : world -> completion jsval * world) : Prop :=
  forall w0,
    redis_faults (snd (run w0)) = redis_faults w0
    /\ keyspace (snd (run w0)) = keyspace w0
    /\ now (snd (run w0)) = now w0.

(** The document carries a driver-generated [ObjectId] as its [_id]. *)
Definition has_oid (d : jsval) : bool :=
  match field "_id" d with
  | JOid _ => true
  | _ => false
  end.

(* ===================================================================== *)
(** ** Configuration read from the environment *)
(* ===================================================================== *)

(** [process.env], once [dotenv] has filled it. *)
Abbreviation environment := (gmap string string).

(** [process.env.NAME || fallback]: an unset variable is [undefined], and
    so is falsy; so is one set to the empty string. *)
Definition or_else (v : option string) (fallback : string) : string :=
  match v with
  | Some s => if String.eqb s EmptyString then fallback else s
  | None => fallback
  end.

(** *** [parseInt(string)], no radix given *)

(** The white space and line terminators of three bytes (UTF-8): U+1680,
    U+2000 to U+200A, U+2028, U+2029, U+202F, U+205F, U+3000, U+FEFF. *)
Definition wide_space (x y z : N) : bool :=
  ((x =? 225) && (y =? 154) && (z =? 128))%N
  || ((x =? 226) && (y =? 128)
      && (((128 <=? z) && (z <=? 138)) || (z =? 168) || (z =? 169) || (z =? 175)))%N
  || ((x =? 226) && (y =? 129) && (z =? 159))%N
  || ((x =? 227) && (y =? 128) && (z =? 128))%N
  || ((x =? 239) && (y =? 187) && (z =? 191))%N.

(** TrimString at the start: tab, line feed, vertical tab, form feed,
    carriage return, space, U+00A0 (two bytes) and the wide ones. *)
Fixpoint trim_start (s : JSON.text) : JSON.text :=
  match s with
  | a :: r =>
      let x := JSON.code a in
      if ((9 <=? x) && (x <=? 13) || (x =? 32))%N then trim_start r
      else if (x =? 194)%N then
        match r with
        | b :: r1 => if (JSON.code b =? 160)%N then trim_start r1 else s
        | [] => s
        end
      else if ((x =? 225) || (x =? 226) || (x =? 227) || (x =? 239))%N then
        match r with
        | b :: c :: r2 =>
            if wide_space x (JSON.code b) (JSON.code c) then trim_start r2 else s
        | _ => s
        end
      else s
  | [] => []
  end.

(** The value of a digit of the radix. *)
Definition radix_digit (radix : N) (c : ascii) : option N :=
  match JSON.hex_val c with
  | Some d => if (d <? radix)%N then Some d else None
  | None => None
  end.

(** The integer the longest run of digits at the start denotes; none when
    there is no digit. *)
Fixpoint read_radix (radix : N) (s : JSON.text) (acc : N) (seen : bool) : option N :=
  match s with
  | c :: r =>
      match radix_digit radix c with
      | Some d => read_radix radix r (radix * acc + d)%N true
      | None => if seen then Some acc else None
      end
  | [] => if seen then Some acc else None
  end.

(** An optional sign: whether it is a minus, and what follows it. *)
Definition read_sign (s : JSON.text) : bool * JSON.text :=
  match s with
  | c :: r =>
      if (JSON.code c =? 45)%N then (true, r)
      else if (JSON.code c =? 43)%N then (false, r)
      else (false, s)
  | [] => (false, s)
  end.

(** The radix: 16 after [0x] or [0X], which is skipped, and 10 otherwise. *)
Definition read_prefix (s : JSON.text) : N * JSON.text :=
  match s with
  | z :: r =>
      if (JSON.code z =? 48)%N then
        match r with
        | x :: r' =>
            if ((JSON.code x =? 120) || (JSON.code x =? 88))%N then (16%N, r') else (10%N, s)
        | [] => (10%N, s)
        end
      else (10%N, s)
  | [] => (10%N, s)
  end.

(** [parseInt(s)]: leading white space, an optional sign, an optional
    [0x] or [0X] that selects radix 16, then digits; what follows them is
    ignored.  [None] is [NaN].  The result is the integer read (the
    [Number] is the double nearest to it: the integer itself up to 2^53);
    the sign of zero is not kept. *)
Definition parseInt (s : string) : option Z :=
  let (neg, t1) := read_sign (trim_start (JSON.lit s)) in
  let (radix, t2) := read_prefix t1 in
  option_map (fun n => if neg then - Z.of_N n else Z.of_N n) (read_radix radix t2 0%N false).

(** *** The ioredis client *)

(** The options of [new Redis({...})] that come from the environment. *)
Record redis_options : Type :=
  RedisOptions { host : string; port : option Z; password : option string }.

Definition redis_options_of (env : environment) : redis_options :=
  RedisOptions (or_else (env !! "REDIS_HOST") "localhost")
    (parseInt (or_else (env !! "REDIS_PORT") "6379"))
    (env !! "REDIS_PASSWORD").

(** [retryStrategy(times)]: the delay, in ms, before reconnection attempt
    number [times]. *)
Definition retryStrategy (times : Z) : Z := Z.min (times * 50) 2000.

(** The delays ioredis waits before the first [n] reconnection attempts
    of a connection that stays down: it asks the strategy with 1, 2, ... *)
Definition retry_schedule (n : nat) : list Z :=
  map (fun k => retryStrategy (Z.of_nat k)) (seq 1 n).

Definition total (delays : list Z) : Z := fold_right Z.add 0 delays.

(** [process.env.PORT || 3000] *)
Definition PORT (env : environment) : jsval :=
  match env !! "PORT" with
  | Some s => if String.eqb s EmptyString then JNum 3000 else JStr s
  | None => JNum 3000
  end.

(* ===================================================================== *)
(** ** The process: module variables, start-up and shutdown *)
(* ===================================================================== *)

(** The handle [client.db(name)] gives. *)
Record database : Type := Database { db_url : string; db_name : string }.

(** What the code outside the cached routes reads and writes: the world
    of the handlers, the environment, the module variables of
    [config/db.js] and [index.js], and what the servers answer to a
    ping. *)
Record process : Type := Process {
  server : world;                       (* Redis and the collection *)
  env : environment;                    (* process.env *)
  uptime : number;                      (* process.uptime(), in seconds *)
  config_db : option database;          (* [db] of config/db.js *)
  index_db : option database;           (* [db] of index.js *)
  productsCollection : option string;   (* [productsCollection] of index.js *)
  indexes : list string;                (* keys indexed on the collection *)
  listening : option jsval;             (* the port the server listens on *)
  ping_reply : props;                   (* reply of MongoDB to { ping: 1 } *)
  pong_reply : string                   (* reply of Redis to PING *)
}.

Definition set_server (w : world) (p : process) : process :=
  Process w (env p) (uptime p) (config_db p) (index_db p) (productsCollection p)
    (indexes p) (listening p) (ping_reply p) (pong_reply p).

Definition set_config_db (d : option database) (p : process) : process :=
  Process (server p) (env p) (uptime p) d (index_db p) (productsCollection p)
    (indexes p) (listening p) (ping_reply p) (pong_reply p).

Definition set_index_db (d : option database) (p : process) : process :=
  Process (server p) (env p) (uptime p) (config_db p) d (productsCollection p)
    (indexes p) (listening p) (ping_reply p) (pong_reply p).

Definition set_productsCollection (c : option string) (p : process) : process :=
  Process (server p) (env p) (uptime p) (config_db p) (index_db p) c
    (indexes p) (listening p) (ping_reply p) (pong_reply p).

Definition set_indexes (l : list string) (p : process) : process :=
  Process (server p) (env p) (uptime p) (config_db p) (index_db p) (productsCollection p)
    l (listening p) (ping_reply p) (pong_reply p).

Definition set_listening (port : option jsval) (p : process) : process :=
  Process (server p) (env p) (uptime p) (config_db p) (index_db p) (productsCollection p)
    (indexes p) port (ping_reply p) (pong_reply p).

(** The calls made outside the cached routes. *)
Inductive op : Type :=
| NewRedis (options : redis_options)
| NewMongoClient (url : string) (options : jsval)
| ClientConnect
| CreateIndex (key : string)
| Listen (port : jsval)
| FindOne (q : Mongo.query)
| DbCommand (command : jsval)
| RedisPing
| RedisQuit
| ClientClose.

(** What the process shows: the events of the handlers, its own calls,
    and its exit. *)
Inductive pevent : Type :=
| Ev (e : event)
| Op (c : op)
| Exit (code : Z).

(** How a piece of the process ends: with a value, by throwing, or with
    [process.exit(code)], after which nothing runs. *)
Inductive outcome (A : Type) : Type :=
| Returned (a : A)
| Raised (e : error)
| Exited (code : Z).
Arguments Returned {A} a.
Arguments Raised {A} e.
Arguments Exited {A} code.

Definition Proc (A : Type) : Type := process -> outcome A * process * list pevent.

Definition proc_ret {A : Type} (a : A) : Proc A := fun p => (Returned a, p, []).

Definition proc_bind {A B : Type} (m : Proc A) (k : A -> Proc B) : Proc B :=
  fun p =>
    match m p with
    | (Returned a, p1, t1) =>
        match k a p1 with
        | (o, p2, t2) => (o, p2, t1 ++ t2)
        end
    | (Raised e, p1, t1) => (Raised e, p1, t1)
    | (Exited code, p1, t1) => (Exited code, p1, t1)
    end.

#[export] Instance Proc_ret : MRet Proc := @proc_ret.
#[export] Instance Proc_bind : MBind Proc := fun A B k m => proc_bind m k.

Definition raise {A : Type} (e : error) : Proc A := fun p => (Raised e, p, []).

(** [process.exit(code)] *)
Definition exit {A : Type} (code : Z) : Proc A := fun p => (Exited code, p, [Exit code]).

(** [try { body } catch (error) { handler }]: an exit is not caught. *)
Definition attempt {A : Type} (body : Proc A) (handler : error -> Proc A) : Proc A :=
  fun p =>
    match body p with
    | (Raised e, p1, t1) =>
        match handler e p1 with
        | (o, p2, t2) => (o, p2, t1 ++ t2)
        end
    | r => r
    end.

(** A computation of the handlers, run in the process. *)
Definition lift {A : Type} (m : Js A) : Proc A :=
  fun p =>
    match m (server p) with
    | (Normal a, w, t) => (Returned a, set_server w p, map Ev t)
    | (Throw e, w, t) => (Raised e, set_server w p, map Ev t)
    end.

Definition get_process : Proc process := fun p => (Returned p, p, []).

Definition modify (f : process -> process) : Proc unit := fun p => (Returned tt, f p, []).

Definition outcome_of {A : Type} (r : outcome A * process * list pevent) : outcome A :=
  fst (fst r).
Definition state_of {A : Type} (r : outcome A * process * list pevent) : process :=
  snd (fst r).
Definition events_of {A : Type} (r : outcome A * process * list pevent) : list pevent :=
  snd r.

(** A call to MongoDB: rejected when the script of the store says so, or
    when the store refuses it. *)
Definition store_op {A : Type} (c : op) (run : process -> completion A * process)
  (show : A -> jsval) : Proc A :=
  fun p =>
    let (f, rest) := next_fault (mongo_faults (server p)) in
    let p0 := set_server (set_mongo_faults rest (server p)) p in
    match f with
    | Some e => (Raised e, p0, [Op c; Ev (Rejected e)])
    | None =>
        match run p0 with
        | (Normal a, p1) => (Returned a, p1, [Op c; Ev (Fulfilled (show a))])
        | (Throw e, p1) => (Raised e, p1, [Op c; Ev (Rejected e)])
        end
    end.

(** A Redis command: rejected when the script of Redis says so. *)
Definition cache_op {A : Type} (c : op) (run : process -> A * process) (show : A -> jsval)
  : Proc A :=
  fun p =>
    let (f, rest) := next_fault (redis_faults (server p)) in
    let p0 := set_server (set_redis_faults rest (server p)) p in
    match f with
    | Some e => (Raised e, p0, [Op c; Ev (Rejected e)])
    | None => let (a, p1) := run p0 in (Returned a, p1, [Op c; Ev (Fulfilled (show a))])
    end.

Definition say (msg : string) : Proc unit := lift (console_log msg).

Definition complain (label : string) (e : error) : Proc unit := lift (console_error label e).

(** *** [config/db.js] *)

Definition missing_uri : error :=
  Error "Error" "MONGODB_URI is not defined in environment variables".

(** The module as it is loaded by [require('./config/db')]: it throws
    when [MONGODB_URI] is falsy; otherwise its constant [url] is set. *)
Definition config_db_module : Proc string :=
  p ← get_process;
  match env p !! "MONGODB_URI" with
  | Some url => if String.eqb url EmptyString then raise missing_uri else mret url
  | None => raise missing_uri
  end.

Definition client_options : jsval :=
  JObj [("maxPoolSize", JNum 10); ("serverSelectionTimeoutMS", JNum 5000);
        ("socketTimeoutMS", JNum 45000); ("tls", JBool true);
        ("retryWrites", JBool true); ("w", JStr "majority")].

(** [new MongoClient(url, {...})] *)
Definition new_MongoClient (url : string) : Proc unit :=
  store_op (NewMongoClient url client_options) (fun p => (Normal tt, p)) (fun _ => JUndefined).

(** [client.connect()] *)
Definition client_connect : Proc unit :=
  store_op ClientConnect (fun p => (Normal tt, p)) (fun _ => JUndefined).

(** [connectDB()], [url] being the constant of the module.  The object
    logged on failure holds the message, code and name of the error; the
    event keeps the error they are read from. *)
Definition connectDB (url : string) : Proc database :=
  p ← get_process;
  match config_db p with
  | Some db => mret db
  | None =>
      new_MongoClient url;;
      attempt
        (say "Intentando conectar a MongoDB Atlas...";;
         client_connect;;
         say "MongoDB connected successfully";;
         let db := Database url (or_else (env p !! "MONGODB_DB_NAME") "testdb") in
         modify (set_config_db (Some db));;
         mret db)
        (fun error =>
           complain "Error de conexión a MongoDB:" error;;
           raise error)
  end.

(** *** [index.js]: start-up *)

(** [new Redis({...})] *)
Definition new_Redis : Proc unit :=
  fun p => (Returned tt, p, [Op (NewRedis (redis_options_of (env p)))]).

(** An index on [key] exists from now on: creating one that exists
    already changes nothing. *)
Definition ensure_index (key : string) (p : process) : process :=
  set_indexes (if existsb (String.eqb key) (indexes p) then indexes p
               else indexes p ++ [key]) p.

(** [productsCollection.createIndex({ key: 1 })]: the name of the index. *)
Definition productsCollection_createIndex (key : string) : Proc string :=
  store_op (CreateIndex key) (fun p => (Normal (key +:+ "_1"), ensure_index key p)) JStr.

Definition line_feed : string := String (JSON.chr 10) EmptyString.

(** The text logged once the server listens. *)
Definition banner (p : process) : string :=
  String.concat line_feed
    [EmptyString;
     "        =================================";
     "        🚀 Servidor iniciado";
     "        ---------------------------------";
     "        📡 Puerto: " +:+ or_else (env p !! "PORT") "3000";
     "        💾 MongoDB: conectado";
     "        📦 Redis: " +:+ or_else (env p !! "REDIS_HOST") "localhost" +:+ ":"
       +:+ or_else (env p !! "REDIS_PORT") "6379";
     "        ⏱️ Cache TTL: 3600 segundos";
     "        =================================";
     "      "].

(** [app.listen(PORT, () => console.log(...))] *)
Definition app_listen (port : jsval) : Proc unit :=
  (fun p => (Returned tt, set_listening (Some port) p, [Op (Listen port)]));;
  p ← get_process;
  say (banner p).

(** [initializeApp()] *)
Definition initializeApp (url : string) : Proc unit :=
  attempt
    (db ← connectDB url;
     modify (set_index_db (Some db));;
     modify (set_productsCollection (Some "products"));;
     productsCollection_createIndex "name";;
     productsCollection_createIndex "price";;
     productsCollection_createIndex "category";;
     p ← get_process;
     app_listen (PORT (env p)))
    (fun error =>
       complain "Failed to initialize application:" error;;
       exit 1).

(** The module [index.js] as node runs it: the requires (of which
    [config/db] may throw), the Redis client, and the start-up. *)
Definition main : Proc unit :=
  url ← config_db_module;
  new_Redis;;
  initializeApp url.

(** *** [index.js]: shutdown *)

(** Reading a property of [undefined]. *)
Definition type_error (property : string) : error :=
  Error "TypeError"
    ("Cannot read properties of undefined (reading '" +:+ property +:+ "')").

(** [redis.quit()] *)
Definition redis_quit : Proc string :=
  cache_op RedisQuit (fun p => ("OK", p)) JStr.

(** [db.client.close()] *)
Definition client_close : Proc unit :=
  store_op ClientClose (fun p => (Normal tt, p)) (fun _ => JUndefined).

(** The handler of SIGINT. *)
Definition on_SIGINT : Proc unit :=
  say (line_feed +:+ "Cerrando conexiones...");;
  attempt
    (redis_quit;;
     p ← get_process;
     match index_db p with
     | Some _ => client_close
     | None => raise (type_error "client")
     end;;
     say "Conexiones cerradas correctamente";;
     exit 0)
    (fun error =>
       complain "Error al cerrar conexiones:" error;;
       exit 1).

(** *** [index.js]: the routes that need the process *)

(** [productsCollection.findOne(q)]: the first match in natural order, or
    [null]. *)
Definition productsCollection_findOne (q : Mongo.query) : Proc jsval :=
  store_op (FindOne q)
    (fun p =>
       (match Mongo.find q (products (server p)) with
        | Normal found => Normal (nth 0 found JNull)
        | Throw e => Throw e
        end, p))
    id.

(** [!v] *)
Definition falsy (v : jsval) : bool :=
  match v with
  | JUndefined | JNull => true
  | JBool b => negb b
  | JNum n => mantissa n =? 0
  | JStr s => String.eqb s EmptyString
  | _ => false
  end.

(** [app.get('/products/:id', ...)] *)
Definition get_products_id (id : string) : Proc response :=
  attempt
    (product ← productsCollection_findOne (Mongo.QIdEq id);
     if falsy product
     then lift (res_status_json 404 (JObj [("message", JStr "Producto no encontrado")]))
     else lift (res_json product))
    (fun error => lift (fail_with "Error en /products/:id:" error)).

(** The error the driver throws for a reply that reports a failure: its
    message is the [errmsg] of the reply. *)
Definition command_failed (reply : props) : error :=
  Error "MongoServerError"
    (match get_prop "errmsg" reply with
     | JStr s => s
     | _ => "n/a"
     end).

(** [db.command({ ping: 1 })]: the driver resolves with the reply of the
    server when its [ok] is 1, and rejects otherwise. *)
Definition db_command_ping : Proc props :=
  store_op (DbCommand (JObj [("ping", JNum 1)]))
    (fun p =>
       (if jsval_eqb (get_prop "ok" (ping_reply p)) (JNum 1)
        then Normal (ping_reply p)
        else Throw (command_failed (ping_reply p)), p))
    JObj.

(** How the ping of MongoDB fails, if it does: rejected as the script
    says, or by the driver for a reply whose [ok] is not 1. *)
Definition ping_failure (p : process) : option error :=
  match fault_at 0 (mongo_faults (server p)) with
  | Some e => Some e
  | None =>
      if jsval_eqb (get_prop "ok" (ping_reply p)) (JNum 1) then None
      else Some (command_failed (ping_reply p))
  end.

(** [redis.ping()] *)
Definition redis_ping : Proc string :=
  cache_op RedisPing (fun p => (pong_reply p, p)) JStr.

(** The payload of /health when something was thrown. *)
Definition health_error (e : error) : jsval :=
  JObj [("error", JStr (message e)); ("mongodb", JStr "error"); ("redis", JStr "error")].

(** [app.get('/health', ...)] *)
Definition get_health : Proc response :=
  attempt
    (mongoStatus ← db_command_ping;
     redisStatus ← redis_ping;
     p ← get_process;
     lift (res_json
             (JObj [("mongodb",
                     JStr (if jsval_eqb (get_prop "ok" mongoStatus) (JNum 1)
                           then "connected" else "disconnected"));
                    ("redis",
                     JStr (if String.eqb redisStatus "PONG"
                           then "connected" else "disconnected"));
                    ("uptime", JNum (uptime p))])))
    (fun error => lift (res_status_json 500 (health_error error))).

(** *** [index.js]: the timing middleware and the routing table *)

(** Time passing while a response is produced. *)
Definition tick (ms : Z) : Proc unit :=
  modify (fun p => set_server (elapse ms (server p)) p).

(** [timeMiddleware(req, res, next)], [path] being [req.path] and [next]
    the rest of the chain (the body parser, the router and the handler),
    which ends in a response; [took] ms pass until the response is
    finished, and the listener of [finish] then logs the time since the
    request came in. *)
Definition timeMiddleware (path : string) (took : Z) (next : Proc response) : Proc response :=
  p ← get_process;
  let startTime := now (server p) in
  res ← next;
  tick took;;
  q ← get_process;
  let duration := now (server q) - startTime in
  say (path +:+ " - Tiempo: " +:+ string_of_list_ascii (JSON.print_number duration) +:+ "ms");;
  mret res.

(** Every route of [index.js]: those of [request], and the four others. *)
Inductive route : Type :=
| Request (req : request)
| GET_products
| GET_products_id (id : string)
| POST_clear_cache
| GET_health.

Definition handler_of (r : route) : Proc response :=
  match r with
  | Request req => lift (app req)
  | GET_products => lift get_products
  | GET_products_id id => get_products_id id
  | POST_clear_cache => lift post_clear_cache
  | GET_health => get_health
  end.

(** The routes whose handler writes to the collection. *)
Definition changes_collection (r : route) : bool :=
  match r with
  | Request req => mutating req
  | _ => false
  end.

(** A request that brings no [_id] of its own for a new document. *)
Definition brings_no_id (req : request) : bool :=
  match req with
  | POST_products body => negb (has_prop "_id" body)
  | _ => true
  end.

(** A property name that [$set] takes as the name of a field of the
    document itself: not empty, without a dot (which would make it a
    path into the document), a dollar sign at the start (an operator) or
    a NUL character. *)
Definition plain_name (k : string) : bool :=
  match JSON.lit k with
  | [] => false
  | c :: r =>
      negb (JSON.code c =? 36)%N
      && forallb (fun x => negb (JSON.code x =? 46)%N && negb (JSON.code x =? 0)%N) (c :: r)
  end.

(** The world after a sequence of requests, each arriving some time (ms)
    after the one before it was answered. *)
Definition after (reqs : list (Z * request)) (w : world) : world :=
  fold_left (fun w0 r => final (app (snd r) (elapse (fst r) w0))) reqs w.

(** The documents as stored when none brought an [_id]: each gets the
    next ObjectId, placed first. *)
Fixpoint stored_with (oid : N) (news : list props) : list jsval :=
  match news with
  | [] => []
  | doc :: rest => JObj (("_id", JOid (Mongo.oid_hex oid)) :: doc) :: stored_with (N.succ oid) rest
  end.

(** The label each route gives to [console.error] in its catch block;
    /health logs nothing. *)
Definition label_of (r : route) : string :=
  match r with
  | Request GET_products_cached => "Error en /products-cached:"
  | Request (POST_products _) => "Error al crear producto:"
  | Request (PUT_products_id _ _) => "Error al actualizar producto:"
  | Request (DELETE_products_id _) => "Error al eliminar producto:"
  | Request (GET_products_search _) => "Error en búsqueda:"
  | Request GET_stats => "Error en estadísticas:"
  | Request POST_populate => "Error en /populate:"
  | GET_products => "Error en /products:"
  | GET_products_id _ => "Error en /products/:id:"
  | POST_clear_cache => "Error clearing cache:"
  | GET_health => EmptyString
  end.

(** The errors a handler logged. *)
Definition logged (t : list event) : list (string * error) :=
  flat_map (fun e => match e with LogError label err => [(label, err)] | _ => [] end) t.

(** What a handler that answered 500 shows, and what one that answered
    something else: one error logged under the label, its message in the
    payload; or no error logged. *)
Definition reported (label : string) (resp : response) (errors : list (string * error))
  : Prop :=
  if status resp =? 500
  then exists e, errors = [(label, e)] /\ payload resp = error_payload e
  else errors = [].

(** *** Reading the events of the process *)

Definition ops_of (t : list pevent) : list op :=
  flat_map (fun e => match e with Op c => [c] | _ => [] end) t.

Definition errors_logged (t : list pevent) : list (string * error) :=
  flat_map (fun e => match e with Ev (LogError label err) => [(label, err)] | _ => [] end) t.

(** A process that has just been started, on a collection without
    indexes: no module variable is set and the server does not listen. *)
Definition started (w : world) (vars : environment) (up : number)
  (ping : props) (pong : string) : process :=
  Process w vars up None None None [] None ping pong.

(** A world at instant 1000000 ms with the given collection and MongoDB
    script, nothing cached and Redis answering. *)
Definition unsteady (docs : list jsval) (script : list (option error)) : world :=
  World 1000000 ∅ docs 0 [] script no_acc (fun _ => Draw 500 1 true) 0 terse.

Definition mongo_down : error :=
  Error "MongoServerSelectionError" "connect ECONNREFUSED 127.0.0.1:27017".

(** A process just started on the given world and environment; MongoDB
    and Redis answer a ping as they should. *)
Definition booting (w : world) (vars : environment) : process :=
  started w vars 0 [("ok", JNum 1)] "PONG".

(** An environment that sets [MONGODB_URI] and nothing else. *)
Definition uri_only : environment := {[ "MONGODB_URI" := "mongodb://db" ]}.

(** An environment that sets nothing. *)
Definition bare : environment := ∅.

(* ===================================================================== *)
(** ** The routing table *)
(* ===================================================================== *)

(** The methods the table is asked for here; HEAD is served by the
    handlers of GET.  OPTIONS, which Express answers itself, and the other
    methods are left out. *)
Inductive verb : Type := GET | HEAD | POST | PUT | DELETE.

(** A piece of a route path: [/text] or [/:name]. *)
Inductive piece : Type :=
| Literal (text : string)
| Param (name : string).

(** The path cut at its slashes. *)
Fixpoint split_path (s : JSON.text) : list JSON.text :=
  match s with
  | [] => [[]]
  | c :: r =>
      if (JSON.code c =? 47)%N then [] :: split_path r
      else
        match split_path r with
        | seg :: segs => (c :: seg) :: segs
        | [] => [[c]]
        end
  end.

(** The segments of a request path: what stands between the slashes,
    after the first slash; one slash at the end counts for nothing. *)
Definition segments (path : JSON.text) : option (list JSON.text) :=
  match split_path path with
  | [] :: rest =>
      Some (match List.rev rest with
            | [] :: init => List.rev init
            | _ => rest
            end)
  | _ => None
  end.

(** A text that can stand between two slashes, and the slash a request
    path may end with. *)
Definition no_slash (t : JSON.text) : bool :=
  forallb (fun c => negb (JSON.code c =? 47)%N) t.

Definition closing (trailing : bool) : JSON.text :=
  if trailing then [JSON.chr 47] else [].

(** Equality of texts, the case of ASCII letters aside. *)
Fixpoint ci_eqb (a b : JSON.text) : bool :=
  match a, b with
  | [], [] => true
  | x :: a', y :: b' => Ascii.eqb (Regex.lower x) (Regex.lower y) && ci_eqb a' b'
  | _, _ => false
  end.

(** The regular expression Express compiles a route path to, with its
    defaults: case-insensitive, a slash at the end allowed, the whole
    path matched.  A literal piece matches its segment, a parameter any
    segment that is not empty; the result is the segments the parameters
    matched. *)
Fixpoint match_pieces (ps : list piece) (segs : list JSON.text) : option (list JSON.text) :=
  match ps, segs with
  | [], [] => Some []
  | Literal t :: ps', seg :: segs' =>
      if ci_eqb (JSON.lit t) seg then match_pieces ps' segs' else None
  | Param _ :: ps', seg :: segs' =>
      match seg with
      | [] => None
      | _ :: _ => option_map (cons seg) (match_pieces ps' segs')
      end
  | _, _ => None
  end.

Definition match_path (ps : list piece) (path : JSON.text) : option (list JSON.text) :=
  match segments path with
  | Some segs => match_pieces ps segs
  | None => None
  end.

(** A route as registered: its method, its path, and the handler, given
    the values of the parameters and the body of the request. *)
Record layer : Type :=
  Layer { layer_method : verb; layer_path : list piece;
          layer_route : list string -> props -> route }.

(** The calls of [app.get], [app.post], [app.put] and [app.delete], in
    the order of [index.js]. *)
Definition router : list layer :=
  [Layer GET [Literal "products"] (fun _ _ => GET_products);
   Layer GET [Literal "products-cached"] (fun _ _ => Request GET_products_cached);
   Layer GET [Literal "products"; Param "id"]
     (fun params _ => GET_products_id (nth 0 params EmptyString));
   Layer POST [Literal "products"] (fun _ body => Request (POST_products body));
   Layer PUT [Literal "products"; Param "id"]
     (fun params body => Request (PUT_products_id (nth 0 params EmptyString) body));
   Layer DELETE [Literal "products"; Param "id"]
     (fun params _ => Request (DELETE_products_id (nth 0 params EmptyString)));
   Layer GET [Literal "products"; Literal "search"; Param "query"]
     (fun params _ => Request (GET_products_search (nth 0 params EmptyString)));
   Layer GET [Literal "stats"] (fun _ _ => Request GET_stats);
   Layer POST [Literal "populate"] (fun _ _ => Request POST_populate);
   Layer POST [Literal "clear-cache"] (fun _ _ => POST_clear_cache);
   Layer GET [Literal "health"] (fun _ _ => GET_health)].

(** The route handles the method: its own, and HEAD for a route of GET. *)
Definition handles (l : layer) (v : verb) : bool :=
  match v, layer_method l with
  | GET, GET | HEAD, GET | HEAD, HEAD | POST, POST | PUT, PUT | DELETE, DELETE => true
  | _, _ => false
  end.

(** What the router does with a request: it hands it to a route, or
    fails on a parameter (Express answers 400), or finds no route
    (Express answers 404). *)
Inductive resolution : Type :=
| Served (r : route)
| Bad_request
| Not_found.

Section Routing.

(** [decodeURIComponent], [None] when it throws. *)
Variable decodeURIComponent : JSON.text -> option string.

Fixpoint decode_params (raw : list JSON.text) : option (list string) :=
  match raw with
  | [] => Some []
  | r :: rest =>
      match decodeURIComponent r, decode_params rest with
      | Some v, Some vs => Some (v :: vs)
      | _, _ => None
      end
  end.

(** The layers are tried in order.  A layer whose path matches has its
    parameters decoded, whatever its method; if that fails, no route
    serves the request.  The first layer that matches and handles the
    method serves it. *)
Fixpoint dispatch_in (table : list layer) (v : verb) (path : JSON.text) (body : props)
  : resolution :=
  match table with
  | [] => Not_found
  | l :: rest =>
      match match_path (layer_path l) path with
      | None => dispatch_in rest v path body
      | Some raw =>
          match decode_params raw with
          | None => Bad_request
          | Some params =>
              if handles l v then Served (layer_route l params body)
              else dispatch_in rest v path body
          end
      end
  end.

Definition dispatch : verb -> JSON.text -> props -> resolution := dispatch_in router.

End Routing.

(** A decoder for paths without escapes: the text as it stands. *)
Definition as_written (t : JSON.text) : option string := Some (string_of_list_ascii t).

(* ===================================================================== *)
(** * Properties *)
(* ===================================================================== *)

(** ** JSON text: parsing what was printed *)

Module JSONFacts.
Import JSON.

Lemma digit_of_is_digit c : is_digit c = false -> digit_of c = None.
Proof.
  destruct c as [[] [] [] [] [] [] [] []]; vm_compute; congruence.
Qed.

Lemma uint_chars_digits u : Forall (fun c => is_digit c = true) (uint_chars u).
Proof. induction u; simpl; constructor; auto. Qed.

Lemma read_uint_chars u rest :
  match rest with [] => True | c :: _ => is_digit c = false end ->
  read_uint (uint_chars u ++ rest) = (u, rest).
Proof.
  intros Hrest. induction u; simpl; try (rewrite IHu; reflexivity).
  destruct rest as [|c r]; [reflexivity|].
  simpl. rewrite (digit_of_is_digit c Hrest). reflexivity.
Qed.

Lemma uint_beq_refl u : uint_beq u u = true.
Proof. induction u; simpl; auto. Qed.

Lemma unorm_to_uint n : unorm (N.to_uint n) = N.to_uint n.
Proof. rewrite <- DecimalN.Unsigned.to_of, DecimalN.Unsigned.of_to. reflexivity. Qed.

Lemma natural_head a : exists c t, natural a = c :: t /\ is_digit c = true.
Proof.
  unfold natural. pose proof (uint_chars_digits (N.to_uint a)) as H.
  destruct (uint_chars (N.to_uint a)) as [|c t] eqn:E.
  - exfalso. destruct a as [|p]; [discriminate E|].
    simpl in E. pose proof (DecimalPos.Unsigned.to_uint_nonnil p) as Hn.
    destruct (Pos.to_uint p); [congruence | discriminate ..].
  - exists c, t. split; [reflexivity|]. inversion H; auto.
Qed.

Lemma is_digit_not_minus c : is_digit c = true -> (code c =? 45)%N = false.
Proof.
  unfold is_digit. intros H. apply andb_true_iff in H as [H1 H2].
  apply N.leb_le in H1. apply N.eqb_neq. lia.
Qed.

Lemma code_chr k : (k < 256)%N -> code (chr k) = k.
Proof. intros H. unfold code, chr. apply N_ascii_embedding. exact H. Qed.

Lemma digit_char k : (k < 10)%N -> is_digit (chr (48 + k)) = true /\ (code (chr (48 + k)) - 48)%N = k.
Proof.
  intros H. unfold is_digit. rewrite code_chr by lia. split; [|lia].
  apply andb_true_iff. split; apply N.leb_le; lia.
Qed.

Lemma digits_are_digits w a : Forall (fun c => is_digit c = true) (digits w a).
Proof.
  revert a. induction w as [|w IH]; intros a; [constructor|].
  cbn [digits]. apply Forall_app. split; [apply IH|].
  constructor; [|constructor]. apply digit_char, N.mod_lt. discriminate.
Qed.

Lemma digits_length w a : length (digits w a) = w.
Proof.
  revert a. induction w as [|w IH]; intros a; [reflexivity|].
  cbn [digits]. rewrite length_app, IH. cbn. lia.
Qed.

Lemma value_of_snoc ds c : value_of (ds ++ [c]) = (10 * value_of ds + (code c - 48))%N.
Proof. unfold value_of. rewrite fold_left_app. reflexivity. Qed.

Lemma value_of_digits w a : value_of (digits w a) = (a mod 10 ^ N.of_nat w)%N.
Proof.
  revert a. induction w as [|w IH]; intros a.
  - cbn. rewrite N.mod_1_r. reflexivity.
  - cbn [digits]. rewrite value_of_snoc, IH.
    destruct (digit_char (a mod 10)) as [_ ->]; [apply N.mod_lt; discriminate|].
    rewrite Nat2N.inj_succ, N.pow_succ_r'.
    rewrite (N.Div0.mod_mul_r a 10 (10 ^ N.of_nat w)). lia.
Qed.

Lemma read_digits_run ds rest :
  Forall (fun c => is_digit c = true) ds ->
  match rest with [] => True | c :: _ => is_digit c = false end ->
  read_digits (ds ++ rest) = (ds, rest).
Proof.
  intros Hds Hrest. induction Hds as [|c ds Hc _ IH]; cbn [List.app read_digits].
  - destruct rest as [|c r]; [reflexivity|]. cbn [read_digits].
    unfold is_digit in Hrest. rewrite Hrest. reflexivity.
  - unfold is_digit in Hc. rewrite Hc, IH. reflexivity.
Qed.

Lemma ends_number_no_digit rest :
  ends_number rest -> match rest with [] => True | c :: _ => is_digit c = false end.
Proof. destruct rest; [trivial | intros H; apply H]. Qed.

Lemma read_fraction_none rest : ends_number rest -> read_fraction rest = Some ([], rest).
Proof.
  destruct rest as [|c r]; [reflexivity|]. intros (_ & H & _).
  cbn [read_fraction]. rewrite H. reflexivity.
Qed.

Lemma read_exponent_none rest : ends_number rest -> read_exponent rest = Some (0, rest).
Proof.
  destruct rest as [|c r]; [reflexivity|]. intros (_ & _ & H1 & H2).
  cbn [read_exponent]. rewrite H1, H2. reflexivity.
Qed.

Lemma read_fraction_digits w a rest :
  ends_number rest ->
  read_fraction (chr 46 :: digits (S w) a ++ rest) = Some (digits (S w) a, rest).
Proof.
  intros Hrest. cbn [read_fraction]. change (code (chr 46) =? 46)%N with true. cbv iota.
  rewrite (read_digits_run _ _ (digits_are_digits (S w) a) (ends_number_no_digit _ Hrest)).
  pose proof (digits_length (S w) a) as Hl.
  destruct (digits (S w) a); [discriminate Hl | reflexivity].
Qed.

(** Reading back the positional notation of [a / 10 ^ sc]. *)
Lemma read_unsigned_positional neg a sc rest :
  ends_number rest ->
  read_unsigned neg
    (natural (a / 10 ^ N.of_nat sc)
     ++ match sc with
        | O => []
        | S _ => chr 46 :: digits sc (a mod 10 ^ N.of_nat sc)
        end ++ rest)
  = Some (scaled (if neg then - Z.of_N a else Z.of_N a) (- Z.of_nat sc), rest).
Proof.
  intros Hrest. unfold read_unsigned, natural.
  rewrite read_uint_chars.
  2:{ destruct sc; [apply ends_number_no_digit, Hrest | reflexivity]. }
  rewrite unorm_to_uint, uint_beq_refl, DecimalN.Unsigned.of_to.
  destruct sc as [|k].
  - cbn [List.app]. rewrite (read_fraction_none _ Hrest), (read_exponent_none _ Hrest).
    cbn [length value_of fold_left]. change (N.of_nat 0) with 0%N.
    rewrite N.pow_0_r, N.div_1_r, N.mul_1_r, N.add_0_r. reflexivity.
  - cbn [List.app]. rewrite (read_fraction_digits k _ _ Hrest), (read_exponent_none _ Hrest).
    rewrite digits_length, value_of_digits, N.Div0.mod_mod.
    replace (a / 10 ^ N.of_nat (S k) * 10 ^ N.of_nat (S k)
             + a mod 10 ^ N.of_nat (S k))%N with a
      by (pose proof (N.div_mod' a (10 ^ N.of_nat (S k))); lia).
    reflexivity.
Qed.

Lemma scaled_canonical m sc :
  canonical (Number m sc) = true -> scaled m (- Z.of_nat sc) = Number m sc.
Proof.
  unfold canonical, scaled. cbn [mantissa scale]. intros H. destruct sc as [|k].
  - cbn. rewrite Z.mul_1_r. reflexivity.
  - cbn [Nat.eqb orb] in H. apply negb_true_iff in H.
    replace (0 <=? - Z.of_nat (S k)) with false by (symmetry; apply Z.leb_gt; lia).
    rewrite Z.opp_involutive, Nat2Z.id. cbn [canon]. rewrite H. reflexivity.
Qed.

Lemma fold_digits_acc u acc :
  fold_left (fun a c => (10 * a + (code c - 48))%N) (uint_chars u) (Npos acc)
  = Npos (Pos.of_uint_acc u acc).
Proof.
  revert acc. induction u; intros acc; cbn [uint_chars fold_left Pos.of_uint_acc];
    [reflexivity | rewrite <- IHu; f_equal; cbn; lia ..].
Qed.

Lemma value_of_uint_chars u : value_of (uint_chars u) = N.of_uint u.
Proof.
  unfold value_of.
  induction u; cbn [uint_chars fold_left]; [reflexivity | exact IHu | ..];
    apply (fold_digits_acc u).
Qed.

Lemma value_of_natural a : value_of (natural a) = a.
Proof. unfold natural. rewrite value_of_uint_chars. apply DecimalN.Unsigned.of_to. Qed.

Lemma value_of_app ds es :
  value_of (ds ++ es) = (value_of ds * 10 ^ N.of_nat (length es) + value_of es)%N.
Proof.
  induction es as [|c es IH] using rev_ind.
  - rewrite app_nil_r. cbn. lia.
  - rewrite app_assoc, !value_of_snoc, IH, length_app. cbn [length].
    replace (N.of_nat (length es + 1)) with (N.succ (N.of_nat (length es))) by lia.
    rewrite N.pow_succ_r'. lia.
Qed.

Lemma uint_chars_revapp d d' :
  uint_chars (Decimal.revapp d d') = List.rev (uint_chars d) ++ uint_chars d'.
Proof.
  revert d'. induction d; intros d'; cbn [Decimal.revapp uint_chars List.rev];
    [reflexivity | rewrite IHd, <- app_assoc; reflexivity ..].
Qed.

Lemma natural_tenfold b : b <> 0%N -> natural (10 * b) = natural b ++ [chr 48].
Proof.
  destruct b as [|p]; [congruence|]. intros _. unfold natural.
  change (N.to_uint (10 * N.pos p)) with (Decimal.rev (DecimalPos.Unsigned.to_lu (10 * N.pos p))).
  rewrite DecimalPos.Unsigned.to_ldec_tenfold.
  change (N.to_uint (N.pos p)) with (Decimal.rev (DecimalPos.Unsigned.to_lu (N.pos p))).
  unfold Decimal.rev. rewrite !uint_chars_revapp. cbn [uint_chars List.rev].
  rewrite !app_nil_r. reflexivity.
Qed.

Lemma strip_zeros_spec fuel a :
  a <> 0%N ->
  exists z,
    a = (strip_zeros fuel a * 10 ^ N.of_nat z)%N
    /\ natural a = natural (strip_zeros fuel a) ++ repeat (chr 48) z.
Proof.
  revert a. induction fuel as [|f IH]; intros a Ha; cbn [strip_zeros].
  - exists 0%nat. cbn. rewrite app_nil_r. split; [lia | reflexivity].
  - destruct (N.eqb_spec (a mod 10) 0) as [E|E].
    + pose proof (N.div_mod' a 10) as Hdm. rewrite E, N.add_0_r in Hdm.
      assert (Hq : (a / 10 <> 0)%N) by lia.
      destruct (IH (a / 10)%N Hq) as (z & Hz & Hn).
      exists (S z). split.
      * rewrite Nat2N.inj_succ, N.pow_succ_r'. lia.
      * rewrite Hdm at 1. rewrite (natural_tenfold _ Hq), Hn, <- app_assoc.
        f_equal. change [chr 48] with (repeat (chr 48) 1).
        rewrite <- repeat_app. f_equal. lia.
    + exists 0%nat. cbn. rewrite app_nil_r. split; [lia | reflexivity].
Qed.

Lemma natural_digits a : Forall (fun c => is_digit c = true) (natural a).
Proof. apply uint_chars_digits. Qed.

Lemma read_exponent_print e rest :
  ends_number rest ->
  read_exponent (chr 101 :: (if e <? 0 then chr 45 else chr 43)
                 :: natural (Z.to_N (Z.abs e)) ++ rest)
  = Some (e, rest).
Proof.
  intros Hrest. cbn [read_exponent]. change (code (chr 101) =? 101)%N with true.
  cbn [orb]. cbv iota.
  assert (Hd : read_digits (natural (Z.to_N (Z.abs e)) ++ rest)
               = (natural (Z.to_N (Z.abs e)), rest))
    by (apply read_digits_run; [apply natural_digits | apply ends_number_no_digit, Hrest]).
  destruct (natural_head (Z.to_N (Z.abs e))) as (c & t & E & _).
  pose proof (value_of_natural (Z.to_N (Z.abs e))) as Hv.
  destruct (Z.ltb_spec e 0) as [Hneg|Hpos].
  - change (code (chr 45) =? 45)%N with true. cbv iota. rewrite Hd, E, <- E, Hv.
    f_equal. f_equal. lia.
  - change (code (chr 43) =? 45)%N with false. change (code (chr 43) =? 43)%N with true.
    cbv iota. rewrite Hd, E, <- E, Hv. f_equal. f_equal. lia.
Qed.

Lemma single_digit_valid u c ds :
  uint_chars u = c :: ds ->
  exists d : uint -> uint,
    uint_chars (d Nil) = [c] /\ uint_beq (unorm (d Nil)) (d Nil) = true
    /\ N.of_uint (d Nil) = value_of [c].
Proof.
  destruct u; cbn [uint_chars]; intros H; [discriminate H | injection H as <- _ ..].
  - exists D0. repeat split.
  - exists D1. repeat split.
  - exists D2. repeat split.
  - exists D3. repeat split.
  - exists D4. repeat split.
  - exists D5. repeat split.
  - exists D6. repeat split.
  - exists D7. repeat split.
  - exists D8. repeat split.
  - exists D9. repeat split.
Qed.

(** Reading back the scientific notation of [s * 10 ^ e']. *)
Lemma read_unsigned_exponential neg s e rest :
  ends_number rest ->
  read_unsigned neg
    (match natural s with
     | [] => []
     | c :: ds =>
         c :: match ds with [] => [] | _ :: _ => chr 46 :: ds end
         ++ chr 101 :: (if e <? 0 then chr 45 else chr 43) :: natural (Z.to_N (Z.abs e))
     end ++ rest)
  = Some (scaled (if neg then - Z.of_N s else Z.of_N s)
            (e - Z.of_nat (length (natural s) - 1)), rest).
Proof.
  intros Hrest.
  pose proof (value_of_natural s) as Hv. pose proof (natural_digits s) as Hds.
  destruct (natural_head s) as (c & ds & E & Hc). rewrite E in *.
  destruct (single_digit_valid (N.to_uint s) c ds E) as (d & Hd1 & Hd2 & Hd3).
  pose proof (List.Forall_inv_tail Hds) as Hrestd.
  unfold read_unsigned. cbn [length Nat.sub]. rewrite Nat.sub_0_r.
  change (c :: ?x) with ([c] ++ x) at 1. rewrite <- Hd1, <- !app_assoc.
  rewrite read_uint_chars.
  2:{ destruct ds; reflexivity. }
  rewrite Hd2, Hd3.
  change (c :: ds) with ([c] ++ ds) in Hv. rewrite value_of_app in Hv.
  destruct ds as [|c' ds'].
  - cbn [List.app]. change (read_fraction (chr 101 :: ?x)) with (Some (@nil ascii, chr 101 :: x)).
    cbv beta iota.
    rewrite (read_exponent_print e rest Hrest). cbn [length] in *.
    change (value_of []) with 0%N in *. rewrite Hv. reflexivity.
  - cbn [List.app].
    change (read_fraction (chr 46 :: ?x)) with
      (match read_digits x with ([], _) => None | (fp, r') => Some (fp, r') end).
    change (c' :: ds' ++ ?x) with ((c' :: ds') ++ x).
    rewrite (read_digits_run (c' :: ds') _ Hrestd) by reflexivity.
    cbv beta iota.
    rewrite (read_exponent_print e rest Hrest), Hv. reflexivity.
Qed.

Lemma nb_digits_length u : nb_digits u = length (uint_chars u).
Proof. induction u; cbn [nb_digits uint_chars length]; congruence. Qed.

(** A canonical number is its significant digits times a power of ten. *)
Lemma scaled_significand m sc s z :
  canonical (Number m sc) = true ->
  Z.to_N (Z.abs m) = (s * 10 ^ N.of_nat z)%N ->
  scaled (if m <? 0 then - Z.of_N s else Z.of_N s) (Z.of_nat z - Z.of_nat sc)
  = Number m sc.
Proof.
  intros Hcan Ha. destruct sc as [|k].
  - unfold scaled. replace (0 <=? Z.of_nat z - Z.of_nat 0) with true
      by (symmetry; apply Z.leb_le; lia).
    f_equal. replace (Z.of_nat z - Z.of_nat 0) with (Z.of_nat z) by lia.
    assert (Hz : Z.abs m = Z.of_N s * 10 ^ Z.of_nat z).
    { rewrite <- (Z2N.id (Z.abs m)) by lia. rewrite Ha, N2Z.inj_mul, N2Z.inj_pow.
      rewrite nat_N_Z. reflexivity. }
    destruct (Z.ltb_spec m 0); lia.
  - assert (z = 0%nat) as ->.
    { destruct z as [|z']; [reflexivity|]. exfalso.
      unfold canonical in Hcan. cbn [mantissa scale Nat.eqb orb] in Hcan.
      apply negb_true_iff, Z.eqb_neq in Hcan. apply Hcan.
      assert (Hd : (Z.abs m mod 10 = 0)).
      { rewrite <- (Z2N.id (Z.abs m)) by lia. rewrite Ha.
        rewrite Nat2N.inj_succ, N.pow_succ_r', N2Z.inj_mul, N2Z.inj_mul.
        change (Z.of_N 10) with 10.
        replace (Z.of_N s * (10 * Z.of_N (10 ^ N.of_nat z')))
          with (Z.of_N s * Z.of_N (10 ^ N.of_nat z') * 10) by lia.
        apply Z.mod_mul. discriminate. }
      destruct (Z.abs_spec m) as [[_ E]|[_ E]]; rewrite E in Hd; [exact Hd|].
      rewrite <- (Z.opp_involutive m). apply Z.mod_opp_l_z; [discriminate | exact Hd]. }
    cbn [N.of_nat] in Ha. rewrite N.pow_0_r, N.mul_1_r in Ha.
    replace (if m <? 0 then - Z.of_N s else Z.of_N s) with m
      by (destruct (Z.ltb_spec m 0); lia).
    replace (Z.of_nat 0 - Z.of_nat (S k)) with (- Z.of_nat (S k)) by lia.
    apply scaled_canonical, Hcan.
Qed.

Lemma read_number_print n rest :
  canonical n = true -> ends_number rest ->
  read_number (print_number n ++ rest) = Some (n, rest).
Proof.
  destruct n as [m sc]. intros Hcan Hrest.
  unfold print_number. unfold magnitude. cbn [mantissa scale].
  destruct (N.eqb_spec (Z.to_N (Z.abs m)) 0) as [Hz|Hnz].
  - assert (m = 0) by lia. subst m.
    assert (sc = 0%nat) as ->.
    { unfold canonical in Hcan. cbn [mantissa scale] in Hcan.
      destruct sc; [reflexivity | discriminate Hcan]. }
    pose proof (read_unsigned_positional false 0 0 rest Hrest) as H. exact H.
  - destruct (plain_range (Number m sc)).
    + unfold positional, magnitude. cbn [mantissa scale].
      pose proof (scaled_canonical m sc Hcan) as Hs.
      destruct (Z.ltb_spec m 0) as [Hneg|Hpos].
      * rewrite <- !app_assoc.
        change (read_number ([chr 45] ++ ?y)) with (read_unsigned true y).
        rewrite read_unsigned_positional by exact Hrest.
        replace (- Z.of_N (Z.to_N (Z.abs m))) with m by lia. rewrite Hs. reflexivity.
      * change ([] ++ ?y) with y. rewrite <- app_assoc.
        pose proof (read_unsigned_positional false (Z.to_N (Z.abs m)) sc rest Hrest) as H.
        destruct (natural_head (Z.to_N (Z.abs m) / 10 ^ N.of_nat sc)) as (c & t & E & Hc).
        rewrite E in *. cbn [List.app read_number] in *.
        rewrite (is_digit_not_minus c Hc), H.
        replace (Z.of_N (Z.to_N (Z.abs m))) with m by lia. rewrite Hs. reflexivity.
    + unfold exponential, exponent, magnitude. cbn [mantissa scale].
      set (a := Z.to_N (Z.abs m)) in *.
      set (s := strip_zeros (nb_digits (N.to_uint a)) a).
      destruct (strip_zeros_spec (nb_digits (N.to_uint a)) a Hnz) as (z & Ha & Hn).
      fold s in Ha, Hn.
      assert (Hlen : Z.of_nat (nb_digits (N.to_uint a)) - Z.of_nat sc - 1
                     - Z.of_nat (length (natural s) - 1) = Z.of_nat z - Z.of_nat sc).
      { rewrite nb_digits_length. fold (natural a). rewrite Hn, length_app, repeat_length.
        destruct (natural_head s) as (c & t & E & _). rewrite E. cbn [length]. lia. }
      pose proof (scaled_significand m sc s z Hcan Ha) as Hs.
      pose proof (read_unsigned_exponential (m <? 0) s
                    (Z.of_nat (nb_digits (N.to_uint a)) - Z.of_nat sc - 1) rest Hrest) as H.
      rewrite Hlen, Hs in H.
      destruct (Z.ltb_spec m 0) as [Hneg|Hpos].
      * change (read_number (([chr 45] ++ ?y) ++ ?r)) with (read_unsigned true (y ++ r)).
        exact H.
      * change ([] ++ ?y) with y.
        destruct (natural_head s) as (c & t & E & Hc).
        rewrite E in *. cbn [List.app read_number] in *.
        rewrite (is_digit_not_minus c Hc). exact H.
Qed.

Lemma print_number_head n :
  exists c t, print_number n = c :: t /\ (is_digit c = true \/ code c = 45%N).
Proof.
  unfold print_number. destruct (magnitude n =? 0)%N.
  - eexists _, _. split; [reflexivity|]. left. reflexivity.
  - destruct (mantissa n <? 0).
    + eexists _, _. split; [reflexivity|]. right. reflexivity.
    + cbn [List.app]. destruct (plain_range n).
      * unfold positional.
        destruct (natural_head (magnitude n / 10 ^ N.of_nat (scale n))) as (c & t & E & Hc).
        rewrite E. eexists _, _. split; [reflexivity|]. left. exact Hc.
      * unfold exponential.
        destruct (natural_head (strip_zeros (nb_digits (N.to_uint (magnitude n)))
                                  (magnitude n))) as (c & t & E & Hc).
        rewrite E. eexists _, _. split; [reflexivity|]. left. exact Hc.
Qed.

Lemma read_chars_escape_char c tl :
  read_chars (escape_char c ++ tl) =
  match read_chars tl with
  | Some (t, r) => Some (c :: t, r)
  | None => None
  end.
Proof.
  destruct c as [[] [] [] [] [] [] [] []]; reflexivity.
Qed.

Lemma read_chars_quote s rest :
  read_chars (flat_map escape_char s ++ chr 34 :: rest) = Some (s, rest).
Proof.
  induction s as [|c s IH]; [reflexivity|].
  simpl flat_map. rewrite <- app_assoc, read_chars_escape_char, IH. reflexivity.
Qed.

Lemma jsval_ind (P : jsval -> Prop) :
  P JUndefined -> P JNull -> (forall b, P (JBool b)) -> (forall n, P (JNum n)) ->
  (forall s, P (JStr s)) -> (forall ms, P (JDate ms)) -> (forall h, P (JOid h)) ->
  (forall l, Forall P l -> P (JArr l)) ->
  (forall ps, Forall (fun p => P (snd p)) ps -> P (JObj ps)) ->
  forall v, P v.
Proof.
  intros Hu Hn Hb Hz Hs Hd Ho Ha Hp.
  fix IH 1. intros [| |b|n|s|ms|h|l|ps];
    [exact Hu | exact Hn | apply Hb | apply Hz | apply Hs | apply Hd | apply Ho | | ].
  - apply Ha. induction l as [|x l IHl]; constructor; [apply IH | exact IHl].
  - apply Hp. induction ps as [|[k x] ps IHps]; constructor; [apply IH | exact IHps].
Qed.

Lemma print_arr l :
  print_item (JArr l) = chr 91 :: join [chr 44] (map print_item l) ++ [chr 93].
Proof. reflexivity. Qed.

Lemma print_obj ps :
  print_item (JObj ps) = chr 123 :: join [chr 44] (flat_map print_member ps) ++ [chr 125].
Proof. reflexivity. Qed.

Lemma image_obj ps : image (JObj ps) = JObj (flat_map image_member ps).
Proof. reflexivity. Qed.

Lemma delimited_ends_number rest : delimited rest -> ends_number rest.
Proof.
  destruct rest as [|c r]; [trivial|]. unfold delimited, ends_number, is_digit.
  intros [H|[H|H]]; rewrite H; repeat split; reflexivity.
Qed.

Lemma number_dispatch fuel c r :
  is_digit c = true \/ code c = 45%N ->
  parse_value (S fuel) (c :: r) =
  match read_number (c :: r) with
  | Some (z, r') => Some (JNum z, r')
  | None => None
  end.
Proof.
  destruct c as [[] [] [] [] [] [] [] []]; intros [H|H];
    try discriminate H; reflexivity.
Qed.

Lemma parse_number fuel z rest :
  canonical z = true -> delimited rest ->
  parse_value (S fuel) (print_number z ++ rest) = Some (JNum z, rest).
Proof.
  intros Hcan Hrest.
  pose proof (read_number_print z rest Hcan (delimited_ends_number _ Hrest)) as Hr.
  destruct (print_number_head z) as (c & t & E & Hc). rewrite E in *.
  cbn [List.app] in *. rewrite (number_dispatch fuel c _ Hc), Hr. reflexivity.
Qed.

Lemma parse_quoted fuel t rest :
  parse_value (S fuel) (quote t ++ rest) = Some (JStr (string_of_list_ascii t), rest).
Proof.
  unfold quote. cbn [List.app]. rewrite <- app_assoc. cbn [List.app].
  change (parse_value (S fuel) (chr 34 :: ?x)) with
    (match read_chars x with
     | Some (t, r') => Some (JStr (string_of_list_ascii t), r')
     | None => None
     end).
  rewrite read_chars_quote. reflexivity.
Qed.

(** Unfolding equations of the parser. *)
Lemma parse_value_array m r :
  parse_value (S m) (chr 91 :: r) =
  match skip_ws r with
  | c' :: r' =>
      if (code c' =? 93)%N then Some (JArr [], r')
      else match parse_items m r with
           | Some (vs, t) => Some (JArr vs, t)
           | None => None
           end
  | [] => None
  end.
Proof. reflexivity. Qed.

Lemma parse_value_object m r :
  parse_value (S m) (chr 123 :: r) =
  match skip_ws r with
  | c' :: r' =>
      if (code c' =? 125)%N then Some (JObj [], r')
      else match parse_members m r with
           | Some (ms, t) => Some (build_object ms, t)
           | None => None
           end
  | [] => None
  end.
Proof. reflexivity. Qed.

Lemma parse_items_eq m s :
  parse_items (S m) s =
  match parse_value m s with
  | Some (v, r) =>
      match skip_ws r with
      | c :: r' =>
          if (code c =? 44)%N then
            match parse_items m r' with
            | Some (vs, t) => Some (v :: vs, t)
            | None => None
            end
          else if (code c =? 93)%N then Some ([v], r')
          else None
      | [] => None
      end
  | None => None
  end.
Proof. reflexivity. Qed.

Lemma parse_members_eq m t s :
  parse_members (S m) (quote t ++ chr 58 :: s) =
  match parse_value m s with
  | Some (v, r3) =>
      match skip_ws r3 with
      | c :: r4 =>
          if (code c =? 44)%N then
            match parse_members m r4 with
            | Some (ms, u) => Some ((string_of_list_ascii t, v) :: ms, u)
            | None => None
            end
          else if (code c =? 125)%N then Some ([(string_of_list_ascii t, v)], r4)
          else None
      | [] => None
      end
  | None => None
  end.
Proof.
  unfold quote. cbn [List.app]. rewrite <- app_assoc. cbn [List.app].
  change (parse_members (S m) (chr 34 :: ?x)) with
    (match read_chars x with
     | Some (k, r1) =>
         match skip_ws r1 with
         | col :: r2 =>
             if (code col =? 58)%N then
               match parse_value m r2 with
               | Some (v, r3) =>
                   match skip_ws r3 with
                   | c :: r4 =>
                       if (code c =? 44)%N then
                         match parse_members m r4 with
                         | Some (ms, u) => Some ((string_of_list_ascii k, v) :: ms, u)
                         | None => None
                         end
                       else if (code c =? 125)%N then Some ([(string_of_list_ascii k, v)], r4)
                       else None
                   | [] => None
                   end
               | None => None
               end
             else None
         | [] => None
         end
     | None => None
     end).
  rewrite read_chars_quote. reflexivity.
Qed.

Lemma number_head_ok c :
  is_digit c = true \/ code c = 45%N -> is_ws c = false /\ (code c =? 93)%N = false.
Proof.
  destruct c as [[] [] [] [] [] [] [] []]; intros [H|H];
    try discriminate H; split; reflexivity.
Qed.

Lemma print_item_head v : head_ok (print_item v).
Proof.
  unfold head_ok.
  destruct v as [| |[]|n|s|ms|h|l|ps];
    try (eexists _, _; split; [reflexivity | split; reflexivity]).
  - destruct (print_number_head n) as (c & t & E & Hc).
    exists c, t. split; [exact E | apply number_head_ok, Hc].
  - unfold print_item, print_value. destruct (valid_time ms);
      eexists _, _; (split; [reflexivity | split; reflexivity]).
Qed.

Lemma parse_items_join xs :
  Forall roundtrips xs -> forallb wf_value xs = true ->
  forall x, roundtrips x -> wf_value x = true ->
  forall fuel rest, (S (fuel_of (x :: xs)) <= fuel)%nat ->
  parse_items fuel (join [chr 44] (map print_item (x :: xs)) ++ chr 93 :: rest)
  = Some (map image (x :: xs), rest).
Proof.
  induction xs as [|y ys IH]; intros Hall Hwf x Hx Hwx fuel rest Hfuel;
    (destruct fuel as [|m]; [lia|]); unfold fuel_of in Hfuel; cbn [map list_sum fold_right] in Hfuel.
  - cbn [map join]. rewrite parse_items_eq.
    rewrite (Hx Hwx m (chr 93 :: rest)); [reflexivity | lia | right; left; reflexivity].
  - cbn [forallb] in Hwf. apply andb_true_iff in Hwf as [Hwy Hwys].
    inversion Hall as [|? ? Hy Hys]; subst.
    change (join [chr 44] (map print_item (x :: y :: ys)))
      with (print_item x ++ [chr 44] ++ join [chr 44] (map print_item (y :: ys))).
    rewrite <- !app_assoc. cbn [List.app].
    rewrite parse_items_eq.
    rewrite (Hx Hwx m (chr 44 :: _)); [ | lia | left; reflexivity].
    change (skip_ws (chr 44 :: ?r)) with (chr 44 :: r). cbv beta iota.
    change (code (chr 44) =? 44)%N with true. cbv iota.
    rewrite (IH Hys Hwys y Hy Hwy m rest); [reflexivity|].
    unfold fuel_of. cbn [map list_sum fold_right].
    assert (1 <= jsize (image x))%nat by (destruct (image x); simpl; lia). lia.
Qed.

Lemma print_member_kept ps : flat_map print_member ps = map member_text (kept ps).
Proof.
  induction ps as [|[k x] ps IH]; [reflexivity|].
  cbn [flat_map kept List.filter snd]. fold (kept ps). rewrite IH.
  destruct x as [| |[]| | | | | |]; reflexivity.
Qed.

Lemma image_member_kept ps : flat_map image_member ps = map member_image (kept ps).
Proof.
  induction ps as [|[k x] ps IH]; [reflexivity|].
  cbn [flat_map kept List.filter snd]. fold (kept ps). rewrite IH.
  destruct x; reflexivity.
Qed.

Lemma join_cons sep p ps : exists tail, join sep (p :: ps) = p ++ tail.
Proof.
  destruct ps as [|q qs]; [exists []; symmetry; apply app_nil_r | eexists; reflexivity].
Qed.

Lemma head_ok_app t u : head_ok t -> head_ok (t ++ u).
Proof. intros (c & r & -> & H). exists c, (r ++ u). auto. Qed.

Lemma parse_value_array_items m s :
  head_ok s ->
  parse_value (S m) (chr 91 :: s) =
  match parse_items m s with
  | Some (vs, t) => Some (JArr vs, t)
  | None => None
  end.
Proof.
  intros (c & r & -> & Hws & H93). rewrite parse_value_array.
  cbn [skip_ws]. rewrite Hws, H93. reflexivity.
Qed.

Lemma parse_value_object_members m s :
  parse_value (S m) (chr 123 :: chr 34 :: s) =
  match parse_members m (chr 34 :: s) with
  | Some (ms, t) => Some (build_object ms, t)
  | None => None
  end.
Proof. reflexivity. Qed.

Lemma lit_string k : string_of_list_ascii (lit k) = k.
Proof. apply string_of_list_ascii_of_string. Qed.

Lemma jsize_pos v : (1 <= jsize v)%nat.
Proof. destruct v; simpl; lia. Qed.

Lemma parse_members_join es :
  Forall (fun p => roundtrips (snd p)) es ->
  forallb (fun p => wf_value (snd p)) es = true ->
  forall e, roundtrips (snd e) -> wf_value (snd e) = true ->
  forall fuel rest, (S (fuel_of (map snd (e :: es))) <= fuel)%nat ->
  parse_members fuel (join [chr 44] (map member_text (e :: es)) ++ chr 125 :: rest)
  = Some (map member_image (e :: es), rest).
Proof.
  induction es as [|y ys IH]; intros Hall Hwf [k x] Hx Hwx fuel rest Hfuel;
    (destruct fuel as [|m]; [lia|]); unfold fuel_of in Hfuel;
    cbn [map list_sum fold_right snd] in Hfuel; cbn [snd] in Hx, Hwx.
  - cbn [map join]. unfold member_text at 1. cbn [fst snd]. rewrite <- app_assoc. cbn [List.app].
    rewrite parse_members_eq.
    rewrite (Hx Hwx m (chr 125 :: rest)); [ | lia | right; right; reflexivity].
    unfold member_image. cbn [fst snd]. rewrite lit_string. reflexivity.
  - cbn [forallb] in Hwf. apply andb_true_iff in Hwf as [Hwy Hwys].
    inversion Hall as [|? ? Hy Hys]; subst.
    change (join [chr 44] (map member_text ((k, x) :: y :: ys)))
      with (member_text (k, x) ++ [chr 44] ++ join [chr 44] (map member_text (y :: ys))).
    unfold member_text at 1. cbn [fst snd]. rewrite <- !app_assoc. cbn [List.app].
    rewrite parse_members_eq.
    rewrite (Hx Hwx m (chr 44 :: _)); [ | lia | left; reflexivity].
    change (skip_ws (chr 44 :: ?r)) with (chr 44 :: r). cbv beta iota.
    change (code (chr 44) =? 44)%N with true. cbv iota.
    rewrite (IH Hys Hwys y Hy Hwy m rest).
    + cbn [map]. unfold member_image at 2. cbn [fst snd]. rewrite lit_string. reflexivity.
    + unfold fuel_of. cbn [map list_sum fold_right]. pose proof (jsize_pos (image x)). lia.
Qed.

Lemma existsb_eqb_In k ks : existsb (String.eqb k) ks = true <-> In k ks.
Proof.
  rewrite existsb_exists. split.
  - intros (x & Hin & Heq). apply String.eqb_eq in Heq. subst. exact Hin.
  - intros Hin. exists k. split; [exact Hin | apply String.eqb_refl].
Qed.

Lemma distinct_keys_NoDup ks : distinct_keys ks = true <-> List.NoDup ks.
Proof.
  induction ks as [|k ks IH]; cbn [distinct_keys].
  - split; [constructor | reflexivity].
  - rewrite andb_true_iff, negb_true_iff, IH. split.
    + intros [Hn Hd]. constructor; [|exact Hd].
      intros Hin. apply existsb_eqb_In in Hin. congruence.
    + intros Hnd. inversion Hnd as [|? ? Hn Hd]; subst. split; [|exact Hd].
      destruct (existsb (String.eqb k) ks) eqn:E; [|reflexivity].
      apply existsb_eqb_In in E. contradiction.
Qed.

Lemma set_prop_fresh k v acc :
  ~ In k (map fst acc) -> set_prop k v acc = acc ++ [(k, v)].
Proof.
  induction acc as [|[k' v'] acc IH]; intros Hn; [reflexivity|].
  cbn [set_prop]. destruct (String.eqb k k') eqn:E.
  - apply String.eqb_eq in E. subst. exfalso. apply Hn. left. reflexivity.
  - cbn [List.app]. rewrite IH; [reflexivity|]. intros Hin. apply Hn. right. exact Hin.
Qed.

Lemma fold_set_prop_distinct ms :
  forall acc, List.NoDup (map fst acc ++ map fst ms) ->
  fold_left (fun acc p => set_prop (fst p) (snd p) acc) ms acc = acc ++ ms.
Proof.
  induction ms as [|[k v] ms IH]; intros acc Hnd; cbn [fold_left fst snd].
  - symmetry. apply app_nil_r.
  - cbn [map fst] in Hnd. pose proof (NoDup_remove_2 _ _ _ Hnd) as Hn.
    rewrite set_prop_fresh.
    + rewrite IH.
      * rewrite <- app_assoc. reflexivity.
      * rewrite map_app, <- app_assoc. exact Hnd.
    + intros Hin. apply Hn. apply in_or_app. left. exact Hin.
Qed.

Lemma build_object_distinct ms :
  distinct_keys (map fst ms) = true -> build_object ms = JObj ms.
Proof.
  intros H. unfold build_object. rewrite fold_set_prop_distinct; [reflexivity|].
  apply distinct_keys_NoDup. exact H.
Qed.

Lemma kept_keys_incl k ps : In k (map fst (kept ps)) -> In k (map fst ps).
Proof.
  unfold kept. intros H. apply in_map_iff in H as (p & <- & Hin).
  apply filter_In in Hin as [Hin _]. apply in_map. exact Hin.
Qed.

Lemma kept_distinct ps :
  distinct_keys (map fst ps) = true -> distinct_keys (map fst (map member_image (kept ps))) = true.
Proof.
  rewrite map_map. cbn [member_image fst]. change (fun x => fst x) with (@fst string jsval).
  rewrite !distinct_keys_NoDup.
  induction ps as [|[k x] ps IH]; intros Hnd; [constructor|].
  inversion Hnd as [|? ? Hn Hd]; subst.
  cbn [kept List.filter snd]. fold (kept ps).
  destruct x; try (cbn [map fst]; constructor;
                   [intros Hin; apply Hn, kept_keys_incl, Hin | apply IH, Hd]).
  apply IH, Hd.
Qed.

Lemma kept_Forall (P : jsval -> Prop) ps :
  Forall (fun p => P (snd p)) ps -> Forall (fun p => P (snd p)) (kept ps).
Proof.
  intros H. apply List.Forall_forall. intros p Hin. apply filter_In in Hin as [Hin _].
  rewrite List.Forall_forall in H. apply H, Hin.
Qed.

Lemma kept_wf ps :
  forallb (fun p => match p with (_, x) => wf_value x end) ps = true ->
  forallb (fun p => wf_value (snd p)) (kept ps) = true.
Proof.
  rewrite !forallb_forall. intros H p Hin. apply filter_In in Hin as [Hin _].
  specialize (H p Hin). destruct p. exact H.
Qed.

Lemma list_sum_double {A : Type} (f : A -> nat) (l : list A) :
  list_sum (map (fun x => (2 * f x)%nat) l) = (2 * list_sum (map f l))%nat.
Proof.
  induction l as [|a l IH]; [reflexivity|].
  change (list_sum (map (fun x => (2 * f x)%nat) (a :: l)))
    with (2 * f a + list_sum (map (fun x => (2 * f x)%nat) l))%nat.
  change (list_sum (map f (a :: l))) with (f a + list_sum (map f l))%nat.
  rewrite IH. lia.
Qed.

(** Printing then parsing gives the JSON image of the value. *)
Theorem parse_print v : roundtrips v.
Proof.
  induction v as [| |b|n|s|ms|h|l IHl|ps IHps] using jsval_ind;
    intros Hwf fuel rest Hfuel Hd;
    (destruct fuel as [|m];
     [match type of Hfuel with
      | (2 * jsize ?x <= 0)%nat => pose proof (jsize_pos x); lia
      end|]).
  - reflexivity.
  - reflexivity.
  - destruct b; reflexivity.
  - apply parse_number; assumption.
  - change (print_item (JStr s)) with (quote (lit s)).
    rewrite parse_quoted, lit_string. reflexivity.
  - unfold print_item, print_value, image. destruct (valid_time ms).
    + apply parse_quoted.
    + reflexivity.
  - change (print_item (JOid h)) with (quote (lit h)).
    rewrite parse_quoted, lit_string. reflexivity.
  - rewrite print_arr. cbn [List.app]. rewrite <- app_assoc. cbn [List.app].
    destruct l as [|x xs]; [reflexivity|].
    cbn [wf_value forallb] in Hwf. apply andb_true_iff in Hwf as [Hwx Hwxs].
    inversion IHl as [|? ? Hx Hxs]; subst.
    rewrite parse_value_array_items.
    + rewrite (parse_items_join xs Hxs Hwxs x Hx Hwx m rest); [reflexivity|].
      unfold fuel_of. cbn [image jsize] in Hfuel. rewrite map_map in Hfuel.
      rewrite (list_sum_double (fun v => jsize (image v))). lia.
    + destruct (join_cons [chr 44] (print_item x) (map print_item xs)) as [tl E].
      cbn [map]. rewrite E, <- app_assoc. apply head_ok_app, print_item_head.
  - rewrite print_obj, image_obj, print_member_kept, image_member_kept.
    cbn [List.app]. rewrite <- app_assoc. cbn [List.app].
    cbn [wf_value] in Hwf. apply andb_true_iff in Hwf as [Hkeys Hwps].
    rewrite image_obj, image_member_kept in Hfuel.
    pose proof (kept_distinct ps Hkeys) as Hdist.
    pose proof (kept_Forall _ ps IHps) as Hall.
    pose proof (kept_wf ps Hwps) as Hwk.
    destruct (kept ps) as [|e es]; [reflexivity|].
    cbn [forallb] in Hwk. apply andb_true_iff in Hwk as [Hwe Hwes].
    inversion Hall as [|? ? He Hes]; subst.
    destruct (join_cons [chr 44] (member_text e) (map member_text es)) as [tl E].
    assert (Hq : exists s', join [chr 44] (map member_text (e :: es)) ++ chr 125 :: rest = chr 34 :: s').
    { cbn [map]. rewrite E. unfold member_text, quote. cbn [List.app]. eexists. reflexivity. }
    destruct Hq as [s' Es]. rewrite Es, parse_value_object_members, <- Es.
    rewrite (parse_members_join es Hes Hwes e He Hwe m rest).
    + rewrite (build_object_distinct _ Hdist). reflexivity.
    + unfold fuel_of. cbn [jsize] in Hfuel. rewrite map_map in *.
      rewrite (list_sum_double (fun p => jsize (image (snd p)))).
      replace (map (fun p => let (_, x) := member_image p in jsize x) (e :: es))
        with (map (fun p => jsize (image (snd p))) (e :: es)) in Hfuel
        by (apply map_ext; intros []; reflexivity).
      lia.
Qed.

Lemma join_length_bound {A : Type} (b : A -> nat) (p : A -> text) (c : ascii) (l : list A) :
  Forall (fun x => (b x <= S (length (p x)))%nat) l ->
  (list_sum (map b l) <= S (length (join [c] (map p l))))%nat.
Proof.
  induction l as [|x l IH]; intros H; [cbn; lia|].
  inversion H as [|? ? Hx Hl]; subst. specialize (IH Hl).
  change (list_sum (map b (x :: l))) with (b x + list_sum (map b l))%nat.
  destruct l as [|y l].
  - cbn [map join list_sum fold_right]. lia.
  - change (join [c] (map p (x :: y :: l)))
      with (p x ++ [c] ++ join [c] (map p (y :: l))).
    rewrite !length_app. cbn [length]. lia.
Qed.

Lemma print_item_length v : (2 * jsize (image v) <= S (length (print_item v)))%nat.
Proof.
  induction v as [| |b|n|s|ms|h|l IHl|ps IHps] using jsval_ind.
  - cbn. lia.
  - cbn. lia.
  - destruct b; cbn; lia.
  - destruct (print_number_head n) as (c & t & E & _).
    change (print_item (JNum n)) with (print_number n). rewrite E. cbn. lia.
  - change (print_item (JStr s)) with (quote (lit s)). unfold quote.
    cbn [image jsize length]. rewrite length_app. cbn. lia.
  - unfold print_item, print_value, image. destruct (valid_time ms).
    + unfold quote. cbn [jsize length]. rewrite length_app. cbn. lia.
    + cbn. lia.
  - change (print_item (JOid h)) with (quote (lit h)). unfold quote.
    cbn [image jsize length]. rewrite length_app. cbn. lia.
  - rewrite print_arr. cbn [image jsize length]. rewrite length_app. cbn [length].
    rewrite map_map.
    pose proof (join_length_bound (fun v => 2 * jsize (image v))%nat print_item (chr 44) l IHl) as H.
    rewrite (list_sum_double (fun v => jsize (image v))) in H. lia.
  - rewrite print_obj, image_obj, print_member_kept, image_member_kept.
    cbn [jsize length]. rewrite length_app. cbn [length]. rewrite map_map.
    replace (map (fun p => let (_, x) := member_image p in jsize x) (kept ps))
      with (map (fun p => jsize (image (snd p))) (kept ps))
      by (apply map_ext; intros []; reflexivity).
    pose proof (kept_Forall (fun v => (2 * jsize (image v) <= S (length (print_item v)))%nat) ps IHps) as Hk.
    assert (Hb : Forall (fun e => (2 * jsize (image (snd e)) <= S (length (member_text e)))%nat) (kept ps)).
    { eapply List.Forall_impl; [|exact Hk]. intros [k x] Hx. cbn [snd] in *.
      unfold member_text, quote. cbn [fst snd]. rewrite length_app. cbn [length]. lia. }
    pose proof (join_length_bound _ member_text (chr 44) _ Hb) as H.
    rewrite (list_sum_double (fun p => jsize (image (snd p)))) in H. lia.
Qed.

(** [JSON.parse(JSON.stringify(v))] is the JSON image of [v]. *)
Theorem parse_stringify v s :
  wf_value v = true -> stringify v = Some s -> parse s = Some (image v).
Proof.
  intros Hwf Hs. unfold stringify in Hs.
  destruct (print_value v) as [t|] eqn:E; [|discriminate].
  cbn [option_map] in Hs. injection Hs as <-.
  unfold parse. rewrite list_ascii_of_string_of_list_ascii.
  assert (Ei : print_item v = t) by (unfold print_item; rewrite E; reflexivity).
  pose proof (parse_print v Hwf (S (length t)) [] ) as H.
  rewrite Ei, app_nil_r in H. rewrite H; [reflexivity | | exact I].
  rewrite <- Ei. apply print_item_length.
Qed.

Lemma parse_empty : parse EmptyString = None.
Proof. reflexivity. Qed.

Lemma stringify_array l : exists s, stringify (JArr l) = Some s /\ s <> EmptyString.
Proof.
  eexists. split; [reflexivity|]. cbn. discriminate.
Qed.
Lemma print_value_defined x : x <> JUndefined -> print_value x = Some (print_item x).
Proof.
  intros H. unfold print_item. destruct (print_value x) eqn:E; [reflexivity|].
  destruct x as [| |[]| | | | | |]; try discriminate E. congruence.
Qed.

Lemma image_defined x : image x <> JUndefined.
Proof.
  destruct x; cbn [image]; try discriminate.
  destruct (valid_time ms); discriminate.
Qed.

(** The image of a value is written as the value is. *)
Lemma print_item_image v : print_item (image v) = print_item v.
Proof.
  induction v as [| |b|n|s|ms|h|l IHl|ps IHps] using jsval_ind; try reflexivity.
  - unfold print_item, print_value, image. destruct (valid_time ms); [|reflexivity].
    unfold lit. rewrite list_ascii_of_string_of_list_ascii. reflexivity.
  - change (image (JArr l)) with (JArr (map image l)). rewrite !print_arr.
    do 3 f_equal. rewrite map_map. apply map_ext_Forall, IHl.
  - rewrite image_obj, !print_obj. do 3 f_equal.
    induction ps as [|[k x] ps IH]; [reflexivity|].
    inversion IHps as [|? ? Hx Hps]; subst. cbn [snd] in Hx.
    cbn [flat_map]. rewrite List.flat_map_app, (IH Hps). f_equal.
    destruct x; [reflexivity | ..];
      cbn [image_member flat_map print_member List.app];
      rewrite (print_value_defined (image _) (image_defined _)), Hx;
      (rewrite print_value_defined by discriminate); reflexivity.
Qed.

Lemma stringify_image l :
  JSON_stringify (image (JArr l)) = JSON_stringify (JArr l).
Proof.
  pose proof (print_item_image (JArr l)) as H.
  unfold JSON_stringify, stringify.
  rewrite (print_value_defined _ (image_defined (JArr l))).
  rewrite (print_value_defined (JArr l)) by discriminate.
  cbn [option_map]. rewrite H. reflexivity.
Qed.
End JSONFacts.

(* ===================================================================== *)
(** ** Regular expressions: plain patterns search for a substring *)
(* ===================================================================== *)

Module RegexFacts.
Import JSON Regex.








End RegexFacts.

(* ===================================================================== *)
(** ** Running the handlers *)
(* ===================================================================== *)

Lemma next_fault_eq script : next_fault script = (fault_at 0 script, tl script).
Proof. destruct script; reflexivity. Qed.

Lemma fault_at_tl n script : fault_at n (tl script) = fault_at (S n) script.
Proof. destruct script; [destruct n|]; reflexivity. Qed.

Lemma redis_call_eq {A : Type} (c : call) (run : world -> A * world) (show : A -> jsval) w :
  redis_call c run show w =
  match fault_at 0 (redis_faults w) with
  | Some e => (Throw e, set_redis_faults (tl (redis_faults w)) w, [Call c; Rejected e])
  | None =>
      let (a, w1) := run (set_redis_faults (tl (redis_faults w)) w) in
      (Normal a, w1, [Call c; Fulfilled (show a)])
  end.
Proof. unfold redis_call. rewrite next_fault_eq. reflexivity. Qed.

Lemma mongo_call_eq {A : Type} (c : call) (run : world -> completion A * world)
  (show : A -> jsval) w :
  mongo_call c run show w =
  match fault_at 0 (mongo_faults w) with
  | Some e => (Throw e, set_mongo_faults (tl (mongo_faults w)) w, [Call c; Rejected e])
  | None =>
      match run (set_mongo_faults (tl (mongo_faults w)) w) with
      | (Normal a, w1) => (Normal a, w1, [Call c; Fulfilled (show a)])
      | (Throw e, w1) => (Throw e, w1, [Call c; Rejected e])
      end
  end.
Proof. unfold mongo_call. rewrite next_fault_eq. reflexivity. Qed.

Ltac run_handler :=
  unfold get_products_cached, post_products, put_products_id, delete_products_id,
    get_products_search, get_stats, post_populate, fail_with, try_catch,
    mbind, Js_bind, bind, mret, Js_ret, ret, throw,
    redis_get, redis_set, redis_del, productsCollection_find,
    productsCollection_insertOne, productsCollection_insertMany,
    productsCollection_updateOne, productsCollection_deleteOne,
    productsCollection_aggregate, testProducts,
    console_log, console_error, JSON_parse, res_json, res_status_json;
  rewrite ?redis_call_eq, ?mongo_call_eq.

Ltac simpl_world :=
  cbn [redis_faults mongo_faults products keyspace now next_oid accumulator randoms drawn
       parse_message
       set_redis_faults set_mongo_faults set_products set_keyspace set_drawn].

Lemma find_all docs : Mongo.find Mongo.QAll docs = Normal docs.
Proof.
  unfold Mongo.find. cbn [Mongo.valid]. f_equal.
  induction docs as [|d docs IH]; [reflexivity|].
  change (List.filter (Mongo.matches Mongo.QAll) (d :: docs))
    with (d :: List.filter (Mongo.matches Mongo.QAll) docs).
  rewrite IH. reflexivity.
Qed.

Lemma get_after_set key val seconds w :
  0 < seconds -> Redis.get key (Redis.set key val seconds w) = Some val.
Proof.
  intros H. unfold Redis.get, Redis.set. simpl_world. rewrite lookup_insert_eq.
  cbn [expires value]. replace (now w <=? now w + seconds * 1000)%Z with true; [reflexivity|].
  symmetry. apply Z.leb_le. lia.
Qed.

Lemma truthy_parsed s v : JSON.parse s = Some v -> truthy (Some s) = true.
Proof.
  intros H. unfold truthy. destruct (String.eqb s "") eqn:E; [|reflexivity].
  apply String.eqb_eq in E. subst. discriminate H.
Qed.

(** The run of /products-cached on a hit. *)
Lemma hit_run w s v :
  fault_at 0 (redis_faults w) = None ->
  Redis.get "products" w = Some s ->
  JSON.parse s = Some v ->
  get_products_cached w
  = (Normal (Response 200 v), set_redis_faults (tl (redis_faults w)) w,
     [Call (RedisGet "products"); Fulfilled (JStr s); Log "Datos desde Redis cache"]).
Proof.
  intros Hget Hs Hv. run_handler. rewrite Hget.
  change (Redis.get "products" (set_redis_faults (tl (redis_faults w)) w))
    with (Redis.get "products" w).
  rewrite Hs. cbv beta iota. rewrite (truthy_parsed s v Hv).
  cbn [to_string]. rewrite Hv. reflexivity.
Qed.

(** The run of /products-cached on a miss, by how the store and the cache
    write fare. *)
Lemma miss_run w :
  fault_at 0 (redis_faults w) = None ->
  Redis.get "products" w = None ->
  get_products_cached w
  = let w1 := set_mongo_faults (tl (mongo_faults w))
                (set_redis_faults (tl (redis_faults w)) w) in
    let text := JSON_stringify (JArr (products w)) in
    let opening := [Call (RedisGet "products"); Fulfilled JNull;
                    Log "Cache miss - Consultando MongoDB"; Call (Find Mongo.QAll)] in
    match fault_at 0 (mongo_faults w) with
    | Some e =>
        (Normal (Response 500 (error_payload e)), w1,
         opening ++ [Rejected e; LogError "Error en /products-cached:" e])
    | None =>
        let w2 := set_redis_faults (tl (tl (redis_faults w))) w1 in
        match fault_at 1 (redis_faults w) with
        | Some e =>
            (Normal (Response 500 (error_payload e)), w2,
             opening ++ [Fulfilled (JArr (products w));
                         Call (RedisSet "products" text 3600); Rejected e;
                         LogError "Error en /products-cached:" e])
        | None =>
            (Normal (Response 200 (JArr (products w))),
             Redis.set "products" text 3600 w2,
             opening ++ [Fulfilled (JArr (products w));
                         Call (RedisSet "products" text 3600); Fulfilled (JStr "OK")])
        end
    end.
Proof.
  intros Hget Hnone. run_handler. rewrite Hget.
  change (Redis.get "products" (set_redis_faults (tl (redis_faults w)) w))
    with (Redis.get "products" w).
  rewrite Hnone. cbv beta iota zeta. cbn [truthy].
  rewrite mongo_call_eq. simpl_world.
  destruct (fault_at 0 (mongo_faults w)) as [e|]; [reflexivity|].
  rewrite find_all. rewrite redis_call_eq. simpl_world. rewrite fault_at_tl.
  destruct (fault_at 1 (redis_faults w)) as [e|]; reflexivity.
Qed.

Lemma parse_stringify_array l :
  forallb wf_value l = true ->
  JSON.parse (JSON_stringify (JArr l)) = Some (JSON.image (JArr l)).
Proof.
  intros Hwf. apply JSONFacts.parse_stringify; [exact Hwf|]. reflexivity.
Qed.

Lemma get_prop_image k ps :
  get_prop k ps <> JUndefined ->
  get_prop k (flat_map JSON.image_member ps) = JSON.image (get_prop k ps).
Proof.
  induction ps as [|[k' x] ps IH]; intros H; [contradiction H; reflexivity|].
  cbn [get_prop] in *. destruct (String.eqb k k') eqn:E.
  - destruct x; try congruence;
      cbn [flat_map JSON.image_member List.app get_prop]; rewrite E; reflexivity.
  - specialize (IH H).
    destruct x; cbn [flat_map JSON.image_member List.app get_prop]; rewrite ?E; exact IH.
Qed.

Lemma date_field_image k d ms :
  field k d = JDate ms -> JSON.valid_time ms = true ->
  field k (JSON.image d) = JStr (string_of_list_ascii (JSON.toISOString ms)).
Proof.
  intros Hf Hv. destruct d; try discriminate Hf.
  cbn [field] in Hf. rewrite JSONFacts.image_obj. cbn [field].
  rewrite get_prop_image; [|rewrite Hf; discriminate].
  rewrite Hf. cbn [JSON.image]. rewrite Hv. reflexivity.
Qed.

(** Every mutating handler has one shape: the store operation, then the
    deletion of the cache key, then the response; any rejection lands in
    the catch block. *)
Lemma mutation_handler_eq (c : call) (run : world -> completion jsval * world)
  (resp : jsval -> response) (label : string) (w : world) :
  (forall w0, redis_faults (snd (run w0)) = redis_faults w0) ->
  try_catch (result ← mongo_call c run id; redis_del "products";; ret (resp result))
    (fail_with label) w
  = match fault_at 0 (mongo_faults w) with
    | Some e =>
        (Normal (Response 500 (error_payload e)),
         set_mongo_faults (tl (mongo_faults w)) w,
         [Call c; Rejected e; LogError label e])
    | None =>
        match run (set_mongo_faults (tl (mongo_faults w)) w) with
        | (Throw e, w1) =>
            (Normal (Response 500 (error_payload e)), w1,
             [Call c; Rejected e; LogError label e])
        | (Normal a, w1) =>
            match fault_at 0 (redis_faults w) with
            | Some e =>
                (Normal (Response 500 (error_payload e)),
                 set_redis_faults (tl (redis_faults w1)) w1,
                 [Call c; Fulfilled a; Call (RedisDel "products"); Rejected e;
                  LogError label e])
            | None =>
                (Normal (resp a),
                 snd (Redis.del "products" (set_redis_faults (tl (redis_faults w1)) w1)),
                 [Call c; Fulfilled a; Call (RedisDel "products");
                  Fulfilled
                    (JNum (fst (Redis.del "products"
                                  (set_redis_faults (tl (redis_faults w1)) w1))))])
            end
        end
    end.
Proof.
  intros Hrun. unfold try_catch, fail_with, mbind, Js_bind, bind, console_error,
    res_status_json, ret, redis_del.
  rewrite mongo_call_eq.
  destruct (fault_at 0 (mongo_faults w)) as [e|]; [reflexivity|].
  pose proof (Hrun (set_mongo_faults (tl (mongo_faults w)) w)) as Hr.
  destruct (run (set_mongo_faults (tl (mongo_faults w)) w)) as [[a|e] w1];
    [|reflexivity].
  cbn [snd redis_faults set_mongo_faults] in Hr.
  rewrite redis_call_eq, Hr.
  destruct (fault_at 0 (redis_faults w)) as [e|]; reflexivity.
Qed.


Lemma insertOne_keeps_script body w0 :
  redis_faults
    (snd (match Mongo.insertOne body (next_oid w0) (products w0) with
          | Normal (docs, oid, r) => (Normal r, set_products docs oid w0)
          | Throw e => (Throw e, w0)
          end)) = redis_faults w0.
Proof. destruct (Mongo.insertOne _ _ _) as [[[docs oid] r]|e]; reflexivity. Qed.

Lemma insertMany_keeps_script docs w0 :
  redis_faults
    (snd (match Mongo.insertMany docs (next_oid w0) (products w0) with
          | (docs', oid, r) => (r, set_products docs' oid w0)
          end)) = redis_faults w0.
Proof. destruct (Mongo.insertMany _ _ _) as [[docs' oid] r]; reflexivity. Qed.

Lemma updateOne_keeps_script q set w0 :
  redis_faults
    (snd (match Mongo.updateOne q set (products w0) with
          | Normal (docs, r) => (Normal r, set_products docs (next_oid w0) w0)
          | Throw e => (Throw e, w0)
          end)) = redis_faults w0.
Proof. destruct (Mongo.updateOne _ _ _) as [[docs r]|e]; reflexivity. Qed.

Lemma deleteOne_keeps_script q w0 :
  redis_faults
    (snd (match Mongo.deleteOne q (products w0) with
          | (docs, r) => (Normal r, set_products docs (next_oid w0) w0)
          end)) = redis_faults w0.
Proof. destruct (Mongo.deleteOne _ _) as [docs r]; reflexivity. Qed.

Lemma post_products_eq body w :
  post_products body w =
  try_catch
    (result ← mongo_call (InsertOne body)
                (fun w =>
                   match Mongo.insertOne body (next_oid w) (products w) with
                   | Normal (docs, oid, r) => (Normal r, set_products docs oid w)
                   | Throw e => (Throw e, w)
                   end) id;
     redis_del "products";; ret (Response 201 result))
    (fail_with "Error al crear producto:") w.
Proof. reflexivity. Qed.

Lemma put_products_id_eq pid body w :
  put_products_id pid body w =
  try_catch
    (result ← mongo_call (UpdateOne (Mongo.QIdEq pid) body)
                (fun w =>
                   match Mongo.updateOne (Mongo.QIdEq pid) body (products w) with
                   | Normal (docs, r) => (Normal r, set_products docs (next_oid w) w)
                   | Throw e => (Throw e, w)
                   end) id;
     redis_del "products";; ret (Response 200 result))
    (fail_with "Error al actualizar producto:") w.
Proof. reflexivity. Qed.

Lemma delete_products_id_eq pid w :
  delete_products_id pid w =
  try_catch
    (result ← mongo_call (DeleteOne (Mongo.QIdEq pid))
                (fun w =>
                   match Mongo.deleteOne (Mongo.QIdEq pid) (products w) with
                   | (docs, r) => (Normal r, set_products docs (next_oid w) w)
                   end) id;
     redis_del "products";; ret (Response 200 result))
    (fail_with "Error al eliminar producto:") w.
Proof. reflexivity. Qed.

Lemma post_populate_eq w :
  post_populate w =
  let docs := map (testProduct w) (seq 0 1000) in
  try_catch
    (result ← mongo_call (InsertMany docs)
                (fun w =>
                   match Mongo.insertMany docs (next_oid w) (products w) with
                   | (docs', oid, r) => (r, set_products docs' oid w)
                   end) id;
     redis_del "products";;
     ret (Response 200
            (JObj [("message", JStr "Database populated successfully");
                   ("insertedCount", field "insertedCount" result)])))
    (fail_with "Error en /populate:") (set_drawn (drawn w + 1000) w).
Proof.
  unfold post_populate, testProducts, productsCollection_insertMany, res_json,
    try_catch, mbind, Js_bind, bind.
  cbv zeta.
  destruct (mongo_call _ _ _ _) as [[[r|e] w1] t1]; [|reflexivity].
  destruct (redis_del "products" w1) as [[[n|e] w2] t2]; reflexivity.
Qed.

(** The three ways a mutating request can go. *)
Lemma mutating_outcome req w :
  mutating req = true ->
  exists c label, is_mutation c = true /\
    ((exists e,
        trace (app req w) = [Call c; Rejected e; LogError label e]
        /\ result (app req w) = Normal (Response 500 (error_payload e)))
     \/ (exists a e,
           fault_at 0 (redis_faults w) = Some e
           /\ trace (app req w)
              = [Call c; Fulfilled a; Call (RedisDel "products"); Rejected e;
                 LogError label e]
           /\ result (app req w) = Normal (Response 500 (error_payload e)))
     \/ (exists a n resp,
           fault_at 0 (redis_faults w) = None
           /\ trace (app req w)
              = [Call c; Fulfilled a; Call (RedisDel "products"); Fulfilled (JNum n)]
           /\ result (app req w) = Normal resp
           /\ (status resp = 200 \/ status resp = 201))).
Proof.
  intros Hm.
  destruct req as [|body|pid body|pid|query| |]; try discriminate Hm; cbn [app].
  - rewrite post_products_eq.
    rewrite mutation_handler_eq by apply insertOne_keeps_script.
    exists (InsertOne body), "Error al crear producto:". split; [reflexivity|].
    destruct (fault_at 0 (mongo_faults w)) as [e|]; [left; eauto|].
    match goal with |- context [match ?x with _ => _ end] =>
      destruct x as [[a|e] w1] end; [|left; eauto].
    destruct (fault_at 0 (redis_faults w)) as [e|];
      [right; left; eauto 10 | right; right; eauto 10].
  - rewrite put_products_id_eq.
    rewrite mutation_handler_eq by apply updateOne_keeps_script.
    exists (UpdateOne (Mongo.QIdEq pid) body), "Error al actualizar producto:".
    split; [reflexivity|].
    destruct (fault_at 0 (mongo_faults w)) as [e|]; [left; eauto|].
    match goal with |- context [match ?x with _ => _ end] =>
      destruct x as [[a|e] w1] end; [|left; eauto].
    destruct (fault_at 0 (redis_faults w)) as [e|];
      [right; left; eauto 10 | right; right; eauto 10].
  - rewrite delete_products_id_eq.
    rewrite mutation_handler_eq by apply deleteOne_keeps_script.
    exists (DeleteOne (Mongo.QIdEq pid)), "Error al eliminar producto:".
    split; [reflexivity|].
    destruct (fault_at 0 (mongo_faults w)) as [e|]; [left; eauto|].
    match goal with |- context [match ?x with _ => _ end] =>
      destruct x as [[a|e] w1] end; [|left; eauto].
    destruct (fault_at 0 (redis_faults w)) as [e|];
      [right; left; eauto 10 | right; right; eauto 10].
  - rewrite post_populate_eq. cbv zeta.
    rewrite mutation_handler_eq by apply insertMany_keeps_script.
    exists (InsertMany (map (testProduct w) (seq 0 1000))), "Error en /populate:".
    split; [reflexivity|].
    change (mongo_faults (set_drawn (drawn w + 1000) w)) with (mongo_faults w).
    change (redis_faults (set_drawn (drawn w + 1000) w)) with (redis_faults w).
    destruct (fault_at 0 (mongo_faults w)) as [e|]; [left; eauto|].
    match goal with |- context [match ?x with _ => _ end] =>
      destruct x as [[a|e] w1] end; [|left; eauto].
    destruct (fault_at 0 (redis_faults w)) as [e|];
      [right; left; eauto 10 | right; right; eauto 10].
Qed.

Lemma updateOne_unmatched q set docs :
  forallb (fun d => negb (Mongo.matches q d)) docs = true ->
  Mongo.updateOne q set docs = Normal (docs, Mongo.update_result 0 0).
Proof.
  induction docs as [|d docs IH]; intros H; [reflexivity|].
  cbn [forallb] in H. apply andb_true_iff in H as [Hd Hrest].
  apply negb_true_iff in Hd. cbn [Mongo.updateOne]. rewrite Hd, (IH Hrest). reflexivity.
Qed.

Lemma deleteOne_unmatched q docs :
  forallb (fun d => negb (Mongo.matches q d)) docs = true ->
  Mongo.deleteOne q docs = (docs, Mongo.delete_result 0).
Proof.
  induction docs as [|d docs IH]; intros H; [reflexivity|].
  cbn [forallb] in H. apply andb_true_iff in H as [Hd Hrest].
  apply negb_true_iff in Hd. cbn [Mongo.deleteOne]. rewrite Hd, (IH Hrest). reflexivity.
Qed.

Lemma stats_category_counts (w : world) :
  products w <> [] ->
  fault_at 0 (mongo_faults w) = None ->
  exists doc,
    result (get_stats w) = Normal (Response 200 doc)
    /\ field "totalProducts" doc = JNum (Z.of_nat (length (products w)))
    /\ field "categoryCounts" doc = JArr (map pushed (products w)).
Proof.
  intros Hne Hmongo. run_handler. rewrite Hmongo. simpl_world.
  destruct (products w) as [|d docs] eqn:E; [congruence|].
  eexists. split; [reflexivity|]. split; reflexivity.
Qed.



(* ===================================================================== *)
(** ** The cache-through read path *)
(* ===================================================================== *)

(** C1.  GET /products-cached, the cache read being answered.  If the cache
    holds a value under [products] (one that deserializes to [v]), the
    handler returns [v] with no store query and no cache write.  If it
    holds none, the handler issues exactly one store query, for the full
    unfiltered listing; the query being answered, it issues exactly one
    cache write, of the serialized listing under [products] with a TTL of
    3600 s; the write being acknowledged, it returns the listing just
    queried, which the cache now holds. *)
Theorem cached_read_hit_and_miss (w : world) :
  fault_at 0 (redis_faults w) = None ->
  let r := get_products_cached w in
  (forall s v, Redis.get "products" w = Some s -> JSON.parse s = Some v ->
     result r = Normal (Response 200 v)
     /\ count_calls is_store_query (trace r) = 0%nat
     /\ count_calls is_cache_write (trace r) = 0%nat
     /\ products (final r) = products w
     /\ keyspace (final r) = keyspace w)
  /\ (Redis.get "products" w = None ->
      count_calls is_store_query (trace r) = 1%nat
      /\ In (Call (Find Mongo.QAll)) (trace r)
      /\ (fault_at 0 (mongo_faults w) = None ->
          count_calls is_cache_write (trace r) = 1%nat
          /\ In (Call (RedisSet "products" (JSON_stringify (JArr (products w))) 3600))
               (trace r)
          /\ (fault_at 1 (redis_faults w) = None ->
              result r = Normal (Response 200 (JArr (products w)))
              /\ Redis.get "products" (final r)
                 = Some (JSON_stringify (JArr (products w)))))).
Proof.
  intros Hget r. subst r. split.
  - intros s v Hs Hv. rewrite (hit_run w s v Hget Hs Hv).
    repeat split; reflexivity.
  - intros Hnone. rewrite (miss_run w Hget Hnone). cbv zeta.
    destruct (fault_at 0 (mongo_faults w)) as [e|].
    + split; [reflexivity|]. split; [cbn; auto 10|]. discriminate.
    + destruct (fault_at 1 (redis_faults w)) as [e|].
      * split; [reflexivity|]. split; [cbn; auto 10|]. intros _.
        split; [reflexivity|]. split; [cbn -[JSON_stringify]; auto 10|]. discriminate.
      * split; [reflexivity|]. split; [cbn; auto 10|]. intros _.
        split; [reflexivity|]. split; [cbn -[JSON_stringify]; auto 10|]. intros _.
        split; [reflexivity|]. cbn [final fst snd]. apply get_after_set. lia.
Qed.

Lemma cached_read_witness :
  (result (get_products_cached (sample [widget] (cached [gadget]) [] no_acc))
   = Normal (Response 200 (JSON.image (JArr [gadget]))))
  /\ (result (get_products_cached (sample [widget] ∅ [] no_acc))
      = Normal (Response 200 (JArr [widget]))).
Proof.
  split.
  - pose proof (cached_read_hit_and_miss (sample [widget] (cached [gadget]) [] no_acc)
                  eq_refl) as [Hhit _].
    apply (Hhit (JSON_stringify (JArr [gadget])) (JSON.image (JArr [gadget]))).
    + vm_compute. reflexivity.
    + vm_compute. reflexivity.
  - pose proof (cached_read_hit_and_miss (sample [widget] ∅ [] no_acc) eq_refl)
      as [_ Hmiss].
    apply Hmiss; reflexivity.
Defined.

(** C2, as the code has it.  When the cache read of GET /products-cached
    is rejected, the handler logs the error and answers HTTP 500 with the
    error's message; the store is not queried and nothing is cached. *)
Theorem cache_read_failure_fails_the_read (w : world) (e : error) :
  fault_at 0 (redis_faults w) = Some e ->
  let r := get_products_cached w in
  result r = Normal (Response 500 (error_payload e))
  /\ trace r = [Call (RedisGet "products"); Rejected e;
                LogError "Error en /products-cached:" e]
  /\ count_calls is_store_query (trace r) = 0%nat
  /\ products (final r) = products w
  /\ keyspace (final r) = keyspace w.
Proof.
  intros Hget r. subst r. run_handler. rewrite Hget.
  cbn -[JSON_stringify]. auto.
Qed.

Lemma cache_read_failure_witness :
  result (get_products_cached (sample [widget] ∅ [Some redis_down] no_acc))
  = Normal (Response 500 (error_payload redis_down)).
Proof.
  apply (cache_read_failure_fails_the_read
           (sample [widget] ∅ [Some redis_down] no_acc) redis_down).
  reflexivity.
Defined.

(** C2 as stated fails: with Redis unreachable the request is not served
    from the store, it fails, and the store is never asked. *)
Lemma cache_read_failure_counterexample :
  let w := sample [widget] ∅ [Some redis_down] no_acc in
  fault_at 0 (redis_faults w) = Some redis_down
  /\ result (get_products_cached w) <> Normal (Response 200 (JArr (products w)))
  /\ result (get_products_cached w) = Normal (Response 500 (error_payload redis_down))
  /\ count_calls is_store_query (trace (get_products_cached w)) = 0%nat.
Proof.
  cbv zeta. split; [reflexivity|]. split; [|split; reflexivity].
  vm_compute. discriminate.
Qed.

(** C3, as the code has it.  When, on a miss, the store query of
    GET /products-cached is answered and the cache write that follows is
    rejected, the handler logs the error and answers HTTP 500 with the
    error's message; the listing it queried is not returned. *)
Theorem cache_write_failure_fails_the_read (w : world) (e : error) :
  fault_at 0 (redis_faults w) = None ->
  Redis.get "products" w = None ->
  fault_at 0 (mongo_faults w) = None ->
  fault_at 1 (redis_faults w) = Some e ->
  let r := get_products_cached w in
  result r = Normal (Response 500 (error_payload e))
  /\ trace r = [Call (RedisGet "products"); Fulfilled JNull;
                Log "Cache miss - Consultando MongoDB";
                Call (Find Mongo.QAll); Fulfilled (JArr (products w));
                Call (RedisSet "products" (JSON_stringify (JArr (products w))) 3600);
                Rejected e; LogError "Error en /products-cached:" e]
  /\ keyspace (final r) = keyspace w.
Proof.
  intros Hget Hnone Hfind Hset r. subst r.
  rewrite (miss_run w Hget Hnone). cbv zeta. rewrite Hfind, Hset.
  repeat split; reflexivity.
Qed.

Lemma cache_write_failure_witness :
  result (get_products_cached (sample [widget] ∅ [None; Some redis_down] no_acc))
  = Normal (Response 500 (error_payload redis_down)).
Proof.
  apply (cache_write_failure_fails_the_read
           (sample [widget] ∅ [None; Some redis_down] no_acc) redis_down);
    reflexivity.
Defined.

(** C3 as stated fails: the store answered with the listing, the cache
    write was rejected, and the caller gets HTTP 500 instead of the
    listing. *)
Lemma cache_write_failure_counterexample :
  let w := sample [widget] ∅ [None; Some redis_down] no_acc in
  let r := get_products_cached w in
  In (Fulfilled (JArr (products w))) (trace r)
  /\ In (Rejected redis_down) (trace r)
  /\ result r <> Normal (Response 200 (JArr (products w)))
  /\ result r = Normal (Response 500 (error_payload redis_down)).
Proof.
  cbv zeta. split; [vm_compute; auto 10|]. split; [vm_compute; auto 10|].
  split; [vm_compute; discriminate | reflexivity].
Qed.

(* ===================================================================== *)
(** ** The invalidation-on-write path *)
(* ===================================================================== *)

(** C4, as the code has it.  When the store mutation of a mutating request
    (POST /products, PUT /products/:id, DELETE /products/:id,
    POST /populate) is acknowledged and the deletion of the cache key that
    follows is rejected, the handler logs the error and answers HTTP 500
    with the error's message, although the mutation is in the store. *)
Theorem invalidation_failure_fails_the_request (req : request) (w : world) (e : error) :
  mutating req = true ->
  mutation_acknowledged (trace (app req w)) = true ->
  fault_at 0 (redis_faults w) = Some e ->
  result (app req w) = Normal (Response 500 (error_payload e))
  /\ exists c a label,
       is_mutation c = true
       /\ trace (app req w)
          = [Call c; Fulfilled a; Call (RedisDel "products"); Rejected e;
             LogError label e].
Proof.
  intros Hm Hack Hdel.
  destruct (mutating_outcome req w Hm) as (c & label & Hc & [H|[H|H]]).
  - destruct H as (e' & Ht & _). rewrite Ht in Hack. discriminate Hack.
  - destruct H as (a & e' & He & Ht & Hr). rewrite Hdel in He.
    injection He as <-. split; [exact Hr|]. exists c, a, label. auto.
  - destruct H as (a & n & resp & He & _). congruence.
Qed.

Lemma invalidation_failure_witness :
  result (app (POST_products [("name", JStr "Widget")])
            (sample [gadget] ∅ [Some redis_down] no_acc))
  = Normal (Response 500 (error_payload redis_down)).
Proof.
  apply (invalidation_failure_fails_the_request
           (POST_products [("name", JStr "Widget")])
           (sample [gadget] ∅ [Some redis_down] no_acc) redis_down);
    reflexivity.
Defined.

(** C4 as stated fails: the product was inserted, the deletion of the
    cache key was rejected, and POST /products answers HTTP 500, not 201. *)
Lemma invalidation_failure_counterexample :
  let w := sample [gadget] ∅ [Some redis_down] no_acc in
  let r := app (POST_products [("name", JStr "Widget")]) w in
  mutation_acknowledged (trace r) = true
  /\ In (Rejected redis_down) (trace r)
  /\ length (products (final r)) = 2%nat
  /\ result r = Normal (Response 500 (error_payload redis_down))
  /\ (forall v, result r <> Normal (Response 201 v)).
Proof.
  cbv zeta. split; [reflexivity|]. split; [vm_compute; auto 10|].
  split; [reflexivity|]. split; [reflexivity|].
  intros v. vm_compute. discriminate.
Qed.

(** C5.  For every mutating request: when the store mutation is
    acknowledged, the deletion of the cache key [products] is issued right
    after the acknowledgement, and it is the only deletion; when the
    mutation is not acknowledged, no deletion is issued at all.  The
    mutation is the first call of the handler, so no deletion precedes
    it. *)
Theorem invalidation_follows_acknowledged_mutation (req : request) (w : world) :
  mutating req = true ->
  let t := trace (app req w) in
  (mutation_acknowledged t = true ->
   exists c a rest,
     t = Call c :: Fulfilled a :: Call (RedisDel "products") :: rest
     /\ is_mutation c = true
     /\ count_calls is_cache_delete t = 1%nat)
  /\ (mutation_acknowledged t = false -> count_calls is_cache_delete t = 0%nat)
  /\ first_call is_mutation t = Some 0%nat.
Proof.
  intros Hm t. subst t.
  destruct (mutating_outcome req w Hm) as (c & label & Hc & [H|[H|H]]).
  - destruct H as (e & Ht & _). rewrite Ht. cbn [mutation_acknowledged].
    split; [discriminate|]. split.
    + intros _. destruct c; try discriminate Hc; reflexivity.
    + cbn [first_call]. rewrite Hc. reflexivity.
  - destruct H as (a & e & _ & Ht & _). rewrite Ht. cbn [mutation_acknowledged].
    split; [|split].
    + intros _. exists c, a, [Rejected e; LogError label e].
      split; [reflexivity|]. split; [exact Hc|].
      destruct c; try discriminate Hc; reflexivity.
    + rewrite Hc. discriminate.
    + cbn [first_call]. rewrite Hc. reflexivity.
  - destruct H as (a & n & resp & _ & Ht & _). rewrite Ht. cbn [mutation_acknowledged].
    split; [|split].
    + intros _. exists c, a, [Fulfilled (JNum n)].
      split; [reflexivity|]. split; [exact Hc|].
      destruct c; try discriminate Hc; reflexivity.
    + rewrite Hc. discriminate.
    + cbn [first_call]. rewrite Hc. reflexivity.
Qed.

Lemma invalidation_order_witness :
  (exists c a rest,
     trace (app (DELETE_products_id "p1")
              (sample [widget; gadget] (cached [widget]) [] no_acc))
     = Call c :: Fulfilled a :: Call (RedisDel "products") :: rest
     /\ is_mutation c = true
     /\ count_calls is_cache_delete
          (trace (app (DELETE_products_id "p1")
                    (sample [widget; gadget] (cached [widget]) [] no_acc))) = 1%nat)
  /\ count_calls is_cache_delete
       (trace (app (POST_products [("_id", JStr "p1")])
                 (sample [widget] (cached [widget]) [] no_acc))) = 0%nat.
Proof.
  split.
  - apply (invalidation_follows_acknowledged_mutation (DELETE_products_id "p1")
             (sample [widget; gadget] (cached [widget]) [] no_acc) eq_refl).
    reflexivity.
  - apply (invalidation_follows_acknowledged_mutation (POST_products [("_id", JStr "p1")])
             (sample [widget] (cached [widget]) [] no_acc) eq_refl).
    reflexivity.
Defined.

(** C8.  When no document has the given id, and the store and the cache
    answer, PUT /products/:id and DELETE /products/:id respond with
    HTTP 200 carrying the zero matched/modified (resp. deleted) counts of
    the store, leave the collection as it is, and still delete the cache
    key [products]. *)
Theorem unmatched_id_answers_200 (id : string) (w : world) :
  forallb (fun d => negb (Mongo.matches (Mongo.QIdEq id) d)) (products w) = true ->
  fault_at 0 (mongo_faults w) = None ->
  fault_at 0 (redis_faults w) = None ->
  (forall body,
     let r := put_products_id id body w in
     result r = Normal (Response 200 (Mongo.update_result 0 0))
     /\ In (Call (RedisDel "products")) (trace r)
     /\ keyspace (final r) !! "products" = None
     /\ products (final r) = products w)
  /\ (let r := delete_products_id id w in
      result r = Normal (Response 200 (Mongo.delete_result 0))
      /\ In (Call (RedisDel "products")) (trace r)
      /\ keyspace (final r) !! "products" = None
      /\ products (final r) = products w).
Proof.
  intros Hnone Hmongo Hredis. split.
  - intros body r. subst r. rewrite put_products_id_eq.
    rewrite mutation_handler_eq by apply updateOne_keeps_script.
    rewrite Hmongo, Hredis. simpl_world.
    rewrite (updateOne_unmatched _ _ _ Hnone).
    split; [reflexivity|]. split; [cbn; auto|].
    split; [apply lookup_delete_eq | reflexivity].
  - intros r. subst r. rewrite delete_products_id_eq.
    rewrite mutation_handler_eq by apply deleteOne_keeps_script.
    rewrite Hmongo, Hredis. simpl_world.
    rewrite (deleteOne_unmatched _ _ Hnone).
    split; [reflexivity|]. split; [cbn; auto|].
    split; [apply lookup_delete_eq | reflexivity].
Qed.

Lemma unmatched_id_witness :
  result (put_products_id "nobody" [("price", JNum 5)]
            (sample [widget; gadget] (cached [widget]) [] no_acc))
  = Normal (Response 200 (Mongo.update_result 0 0))
  /\ result (delete_products_id "nobody"
               (sample [widget; gadget] (cached [widget]) [] no_acc))
     = Normal (Response 200 (Mongo.delete_result 0)).
Proof.
  destruct (unmatched_id_answers_200 "nobody"
              (sample [widget; gadget] (cached [widget]) [] no_acc)
              eq_refl eq_refl eq_refl) as [Hput Hdel].
  split; [apply (Hput [("price", JNum 5)]) | apply Hdel].
Defined.

(* ===================================================================== *)
(** ** Statistics and search *)
(* ===================================================================== *)

(** C9.  On an empty collection GET /stats responds with HTTP 200 and an
    empty body: the pipeline yields no group document and the handler
    sends the first element of the empty result, [undefined]. *)
Theorem stats_of_empty_collection (w : world) :
  products w = [] ->
  fault_at 0 (mongo_faults w) = None ->
  let r := get_stats w in
  result r = Normal (Response 200 JUndefined)
  /\ body (Response 200 JUndefined) = EmptyString
  /\ trace r = [Call Aggregate; Fulfilled (JArr [])].
Proof.
  intros Hempty Hmongo r. subst r. run_handler. rewrite Hmongo. simpl_world.
  rewrite Hempty. split; [reflexivity|]. split; reflexivity.
Qed.

Lemma stats_of_empty_collection_witness :
  result (get_stats (sample [] ∅ [] no_acc)) = Normal (Response 200 JUndefined).
Proof.
  apply (stats_of_empty_collection (sample [] ∅ [] no_acc)); reflexivity.
Defined.

(** C6, at the failing input.  With two products of category Books in the
    collection, the [categoryCounts] of GET /stats holds two entries for
    Books with count 1 each, one per product, and not one entry with
    count 2; this for any behaviour of the price accumulators. *)
Theorem stats_counts_one_entry_per_product (acc : string -> list jsval -> jsval) :
  exists doc,
    result (get_stats (sample [widget; gadget] ∅ [] acc)) = Normal (Response 200 doc)
    /\ field "totalProducts" doc = JNum 2
    /\ field "categoryCounts" doc
       = JArr [JObj [("category", JStr "Books"); ("count", JNum 1)];
               JObj [("category", JStr "Books"); ("count", JNum 1)]].
Proof.
  eexists. split; [reflexivity|]. split; reflexivity.
Qed.




(** A query with metacharacters is a pattern: [Wid.*t] finds the widget
    and [^abc$] the product named abc; an unbalanced parenthesis is
    refused by the store, and the request fails. *)
Lemma search_with_patterns :
  let w := sample [widget; gadget] ∅ [] no_acc in
  result (get_products_search "Wid.*t" w) = Normal (Response 200 (JArr [widget]))
  /\ result (get_products_search "^abc$" w) = Normal (Response 200 (JArr [gadget]))
  /\ exists e, result (get_products_search "(" w) = Normal (Response 500 (error_payload e)).
Proof.
  cbv zeta. split; [reflexivity|]. split; [reflexivity|]. eexists. reflexivity.
Qed.

(* ===================================================================== *)
(** ** Hit after miss *)
(* ===================================================================== *)

(** C10.  A miss of GET /products-cached returns the listing [L] and caches
    its serialization; a hit within the 3600 s that follow returns
    [JSON.parse(JSON.stringify(L))], the JSON image of [L], without
    querying the store.  The two responses have the same body on the wire,
    but as values they differ where [L] holds a value that is not JSON: a
    [Date]-valued [createdAt] comes back as its ISO string. *)
Theorem hit_after_miss_returns_json_image (w : world) (dt : Z) :
  forallb wf_value (products w) = true ->
  Redis.get "products" w = None ->
  fault_at 0 (redis_faults w) = None ->
  fault_at 0 (mongo_faults w) = None ->
  fault_at 1 (redis_faults w) = None ->
  fault_at 2 (redis_faults w) = None ->
  0 <= dt < 3600000 ->
  let miss := get_products_cached w in
  let hit := get_products_cached (elapse dt (final miss)) in
  result miss = Normal (Response 200 (JArr (products w)))
  /\ JSON.parse (JSON_stringify (JArr (products w)))
     = Some (JSON.image (JArr (products w)))
  /\ result hit = Normal (Response 200 (JSON.image (JArr (products w))))
  /\ count_calls is_store_query (trace hit) = 0%nat
  /\ body (Response 200 (JSON.image (JArr (products w))))
     = body (Response 200 (JArr (products w)))
  /\ (forall d ms,
        field "createdAt" d = JDate ms -> JSON.valid_time ms = true ->
        field "createdAt" (JSON.image d)
        = JStr (string_of_list_ascii (JSON.toISOString ms))).
Proof.
  intros Hwf Hnone Hget Hfind Hset Hget2 Hdt miss hit. subst hit miss.
  rewrite (miss_run w Hget Hnone). cbv zeta. rewrite Hfind, Hset.
  cbn [result final fst snd].
  pose proof (parse_stringify_array _ Hwf) as Hparse.
  split; [reflexivity|]. split; [exact Hparse|].
  erewrite hit_run; [ | | | exact Hparse].
  - split; [reflexivity|]. split; [reflexivity|].
    split; [apply JSONFacts.stringify_image|]. intros d ms. apply date_field_image.
  - unfold elapse, Redis.set. simpl_world. rewrite !fault_at_tl. exact Hget2.
  - unfold elapse, Redis.set, Redis.get. simpl_world. rewrite lookup_insert_eq.
    cbn [expires value].
    replace (now w + dt <=? now w + 3600 * 1000)%Z with true; [reflexivity|].
    symmetry. apply Z.leb_le. lia.
Qed.

Lemma hit_after_miss_witness :
  result (get_products_cached
            (elapse 1000 (final (get_products_cached (sample [widget] ∅ [] no_acc)))))
  = Normal (Response 200 (JSON.image (JArr [widget]))).
Proof.
  apply (hit_after_miss_returns_json_image (sample [widget] ∅ [] no_acc) 1000);
    try reflexivity.
  split; [discriminate | reflexivity].
Defined.

Example widget_image_has_a_string_date :
  field "createdAt" (JSON.image widget) = JStr "2023-11-14T22:13:20.000Z"
  /\ field "createdAt" widget = JDate 1700000000000.
Proof. split; reflexivity. Qed.


(* ===================================================================== *)
(** ** The routes besides the cached read: listing, cache clearing *)
(* ===================================================================== *)

Ltac simpl_state :=
  cbn [redis_faults mongo_faults products keyspace now next_oid accumulator randoms drawn
       parse_message
       set_redis_faults set_mongo_faults set_products set_keyspace set_drawn elapse
       final result trace fst snd].

Lemma get_products_run w :
  get_products w
  = match fault_at 0 (mongo_faults w) with
    | Some e =>
        (Normal (Response 500 (error_payload e)), set_mongo_faults (tl (mongo_faults w)) w,
         [Call (Find Mongo.QAll); Rejected e; LogError "Error en /products:" e])
    | None =>
        (Normal (Response 200 (JArr (products w))), set_mongo_faults (tl (mongo_faults w)) w,
         [Call (Find Mongo.QAll); Fulfilled (JArr (products w))])
    end.
Proof.
  unfold get_products. run_handler.
  destruct (fault_at 0 (mongo_faults w)) as [e|]; [reflexivity|].
  simpl_world. rewrite find_all. reflexivity.
Qed.

Lemma post_clear_cache_run w :
  post_clear_cache w
  = let w0 := set_redis_faults (tl (redis_faults w)) w in
    match fault_at 0 (redis_faults w) with
    | Some e =>
        (Normal (Response 500 (error_payload e)), w0,
         [Call (RedisDel "products"); Rejected e; LogError "Error clearing cache:" e])
    | None =>
        (Normal (Response 200 (JObj [("message", JStr "Cache cleared successfully")])),
         snd (Redis.del "products" w0),
         [Call (RedisDel "products"); Fulfilled (JNum (fst (Redis.del "products" w0)))])
    end.
Proof.
  unfold post_clear_cache. run_handler. cbv zeta.
  destruct (fault_at 0 (redis_faults w)) as [e|]; reflexivity.
Qed.

Lemma get_deleted key w : Redis.get key (snd (Redis.del key w)) = None.
Proof.
  unfold Redis.get, Redis.del. cbn [snd]. simpl_world. rewrite lookup_delete_eq. reflexivity.
Qed.

Lemma get_elapse_none key dt w : Redis.get key w = None -> 0 <= dt -> Redis.get key (elapse dt w) = None.
Proof.
  unfold Redis.get, elapse. simpl_world.
  destruct (keyspace w !! key) as [e|]; [|reflexivity].
  destruct (now w <=? expires e) eqn:E; [discriminate|]. intros _ Hdt.
  apply Z.leb_gt in E. replace (now w + dt <=? expires e) with false; [reflexivity|].
  symmetry. apply Z.leb_gt. lia.
Qed.

Lemma get_absent key w : keyspace w !! key = None -> Redis.get key w = None.
Proof. unfold Redis.get. intros ->. reflexivity. Qed.

(** X1.  GET /products never involves Redis.  It answers HTTP 200 with
    the whole collection, in its order, whenever the store answers the
    query, whatever the state of Redis, and HTTP 500 with the store's
    message when the query is rejected; it issues no Redis command and
    leaves the cache, the Redis script and the collection as they were. *)
Theorem uncached_listing_is_independent_of_redis (w : world) :
  let r := get_products w in
  result r = Normal (match fault_at 0 (mongo_faults w) with
                     | None => Response 200 (JArr (products w))
                     | Some e => Response 500 (error_payload e)
                     end)
  /\ count_calls is_redis_call (trace r) = 0%nat
  /\ keyspace (final r) = keyspace w
  /\ redis_faults (final r) = redis_faults w
  /\ products (final r) = products w.
Proof.
  cbv zeta. rewrite get_products_run.
  destruct (fault_at 0 (mongo_faults w)) as [e|]; repeat split; reflexivity.
Qed.

(** X2.  POST /clear-cache, Redis answering, responds HTTP 200 and leaves
    no listing cached, whether one was cached or not; it issues no store
    call and leaves the collection alone; and the cached read that
    follows, at any later time, is a miss that returns the collection as
    it is then.  When Redis rejects the deletion the response is HTTP 500
    and the cache is as before. *)
Theorem clear_cache_forces_a_miss (w : world) :
  let r := post_clear_cache w in
  products (final r) = products w
  /\ count_calls is_store_call (trace r) = 0%nat
  /\ match fault_at 0 (redis_faults w) with
     | Some e =>
         result r = Normal (Response 500 (error_payload e))
         /\ keyspace (final r) = keyspace w
     | None =>
         result r = Normal (Response 200 (JObj [("message", JStr "Cache cleared successfully")]))
         /\ Redis.get "products" (final r) = None
         /\ forall dt,
              0 <= dt ->
              fault_at 1 (redis_faults w) = None ->
              fault_at 0 (mongo_faults w) = None ->
              fault_at 2 (redis_faults w) = None ->
              let next := get_products_cached (elapse dt (final r)) in
              result next = Normal (Response 200 (JArr (products w)))
              /\ count_calls is_store_query (trace next) = 1%nat
     end.
Proof.
  cbv zeta. rewrite post_clear_cache_run. cbv zeta.
  destruct (fault_at 0 (redis_faults w)) as [e|] eqn:E0.
  - repeat split; reflexivity.
  - split; [reflexivity|]. split; [reflexivity|]. split; [reflexivity|].
    split; [apply get_deleted|]. intros dt Hdt H1 Hm H2.
    cbn [final fst snd].
    rewrite miss_run.
    + cbv zeta. unfold Redis.del. simpl_state.
      rewrite !fault_at_tl, Hm, H2. split; reflexivity.
    + unfold Redis.del. simpl_state. rewrite fault_at_tl. exact H1.
    + apply get_elapse_none; [apply get_deleted | exact Hdt].
Qed.

(* ===================================================================== *)
(** ** The cache across requests *)
(* ===================================================================== *)

(** The mutating requests have one shape. *)
Lemma mutating_shape req w :
  mutating req = true ->
  exists c run resp label w0,
    is_mutation c = true
    /\ (forall a, status (resp a) = 200 \/ status (resp a) = 201)
    /\ keeps_cache run
    /\ (keyspace w0 = keyspace w /\ redis_faults w0 = redis_faults w /\ now w0 = now w)
    /\ app req w
       = try_catch (result ← mongo_call c run id; redis_del "products";; ret (resp result))
           (fail_with label) w0.
Proof.
  intros Hm. destruct req as [|body|pid body|pid|query| |]; try discriminate Hm; cbn [app].
  - eexists (InsertOne body), _, (Response 201), _, w.
    split; [reflexivity|]. split; [cbn; auto|]. split; [|split; [auto|apply post_products_eq]].
    intros w0. destruct (Mongo.insertOne _ _ _) as [[[docs oid] r]|e]; repeat split; reflexivity.
  - eexists (UpdateOne (Mongo.QIdEq pid) body), _, (Response 200), _, w.
    split; [reflexivity|]. split; [cbn; auto|]. split; [|split; [auto|apply put_products_id_eq]].
    intros w0. destruct (Mongo.updateOne _ _ _) as [[docs r]|e]; repeat split; reflexivity.
  - eexists (DeleteOne (Mongo.QIdEq pid)), _, (Response 200), _, w.
    split; [reflexivity|]. split; [cbn; auto|].
    split; [|split; [auto|apply delete_products_id_eq]].
    intros w0. destruct (Mongo.deleteOne _ _) as [docs r]; repeat split; reflexivity.
  - eexists (InsertMany (map (testProduct w) (seq 0 1000))), _,
      (fun result => Response 200
         (JObj [("message", JStr "Database populated successfully");
                ("insertedCount", field "insertedCount" result)])), _,
      (set_drawn (drawn w + 1000) w).
    split; [reflexivity|]. split; [cbn; auto|].
    split; [|split; [repeat split; reflexivity | apply post_populate_eq]].
    intros w0. destruct (Mongo.insertMany _ _ _) as [[docs' oid] r]; repeat split; reflexivity.
Qed.

(** Where a mutating request leaves the cache: untouched when the store
    or Redis rejected, without the key [products] otherwise. *)
Lemma mutating_final req w :
  mutating req = true ->
  let r := app req w in
  now (final r) = now w
  /\ ((mutation_acknowledged (trace r) = false
       /\ keyspace (final r) = keyspace w
       /\ exists e, result r = Normal (Response 500 (error_payload e)))
      \/ (mutation_acknowledged (trace r) = true
          /\ keyspace (final r) = keyspace w
          /\ redis_faults (final r) = tl (redis_faults w)
          /\ exists e, fault_at 0 (redis_faults w) = Some e
                       /\ result r = Normal (Response 500 (error_payload e)))
      \/ (mutation_acknowledged (trace r) = true
          /\ keyspace (final r) = delete "products" (keyspace w)
          /\ redis_faults (final r) = tl (redis_faults w)
          /\ fault_at 0 (redis_faults w) = None
          /\ exists resp, result r = Normal resp /\ (status resp = 200 \/ status resp = 201))).
Proof.
  intros Hm r. subst r.
  destruct (mutating_shape req w Hm)
    as (c & run & resp & label & w0 & Hc & Hresp & Hrun & (Hk & Hf & Hn) & ->).
  rewrite mutation_handler_eq by (intros x; apply Hrun).
  destruct (fault_at 0 (mongo_faults w0)) as [e|].
  { simpl_state. split; [exact Hn|]. left. cbn [mutation_acknowledged]. eauto. }
  destruct (Hrun (set_mongo_faults (tl (mongo_faults w0)) w0)) as (Hr1 & Hr2 & Hr3).
  destruct (run (set_mongo_faults (tl (mongo_faults w0)) w0)) as [[a|e] w1].
  2:{ simpl_state. cbn [snd] in *. simpl_state. simpl_world.
      split; [rewrite Hr3; exact Hn|]. left. cbn [mutation_acknowledged].
      rewrite Hr2. eauto. }
  cbn [snd] in Hr1, Hr2, Hr3. cbn [redis_faults keyspace now set_mongo_faults] in Hr1, Hr2, Hr3.
  rewrite Hf. destruct (fault_at 0 (redis_faults w)) as [e|].
  - simpl_state. split; [congruence|]. right; left. cbn [mutation_acknowledged].
    rewrite Hc, Hr1, Hr2, Hf, Hk. eauto 10.
  - unfold Redis.del. simpl_state. split; [congruence|]. right; right.
    cbn [mutation_acknowledged]. rewrite Hc, Hr1, Hr2, Hf, Hk. eauto 10.
Qed.

(** X3.  After a mutating request that was answered with a status other
    than 500, no listing is cached; the cached read that follows, at any
    later time and the collaborators answering, is a miss that returns the
    collection as the mutation left it, which is what GET /products
    returns. *)
Theorem successful_mutation_invalidates (req : request) (w : world) (resp : response) :
  mutating req = true ->
  result (app req w) = Normal resp ->
  status resp <> 500 ->
  let w1 := final (app req w) in
  Redis.get "products" w1 = None
  /\ forall dt,
       0 <= dt ->
       fault_at 0 (redis_faults w1) = None ->
       fault_at 0 (mongo_faults w1) = None ->
       fault_at 1 (redis_faults w1) = None ->
       result (get_products_cached (elapse dt w1)) = Normal (Response 200 (JArr (products w1)))
       /\ result (get_products (elapse dt w1)) = Normal (Response 200 (JArr (products w1))).
Proof.
  intros Hm Hres Hstatus w1.
  assert (Hnone : Redis.get "products" w1 = None).
  { subst w1. destruct (mutating_final req w Hm) as [_ [H|[H|H]]].
    - destruct H as (_ & _ & e & He). rewrite He in Hres. injection Hres as <-.
      contradiction Hstatus. reflexivity.
    - destruct H as (_ & _ & _ & e & _ & He). rewrite He in Hres. injection Hres as <-.
      contradiction Hstatus. reflexivity.
    - destruct H as (_ & Hk & _). apply get_absent. rewrite Hk. apply lookup_delete_eq. }
  split; [exact Hnone|]. intros dt Hdt H0 Hmongo H1. split.
  - rewrite miss_run; [|exact H0|apply get_elapse_none; assumption].
    cbv zeta. simpl_state. rewrite Hmongo, H1. reflexivity.
  - rewrite get_products_run. simpl_state. rewrite Hmongo. reflexivity.
Qed.

Lemma successful_mutation_invalidates_witness :
  let w1 := final (app (POST_products [("name", JStr "Widget")])
                     (sample [gadget] (cached [gadget]) [] no_acc)) in
  Redis.get "products" w1 = None
  /\ result (get_products_cached (elapse 5000 w1)) = Normal (Response 200 (JArr (products w1))).
Proof.
  cbv zeta.
  destruct (successful_mutation_invalidates (POST_products [("name", JStr "Widget")])
              (sample [gadget] (cached [gadget]) [] no_acc)
              (Response 201
                 (JObj [("acknowledged", JBool true);
                        ("insertedId", JOid "000000000000000000000000")]))
              eq_refl eq_refl ltac:(discriminate)) as [Hnone Hnext].
  split; [exact Hnone|].
  apply (Hnext 5000); [lia | reflexivity | reflexivity | reflexivity].
Defined.

(** The store does not see the script of Redis: what a mutating request
    leaves in the collection, and whether its mutation is acknowledged,
    is the same under every script. *)
Lemma store_ignores_redis_script req w fs :
  mutating req = true ->
  products (final (app req (set_redis_faults fs w))) = products (final (app req w))
  /\ mutation_acknowledged (trace (app req (set_redis_faults fs w)))
     = mutation_acknowledged (trace (app req w)).
Proof.
  intros Hm. destruct req as [|body|pid body|pid|query| |]; try discriminate Hm; cbn [app].
  - rewrite !post_products_eq.
    rewrite !mutation_handler_eq by apply insertOne_keeps_script. simpl_world.
    destruct (fault_at 0 (mongo_faults w)) as [e|]; [split; reflexivity|].
    destruct (Mongo.insertOne body (next_oid w) (products w)) as [[[docs oid] r]|e];
      [|split; reflexivity].
    destruct (fault_at 0 fs), (fault_at 0 (redis_faults w)); split; reflexivity.
  - rewrite !put_products_id_eq.
    rewrite !mutation_handler_eq by apply updateOne_keeps_script. simpl_world.
    destruct (fault_at 0 (mongo_faults w)) as [e|]; [split; reflexivity|].
    destruct (Mongo.updateOne (Mongo.QIdEq pid) body (products w)) as [[docs r]|e];
      [|split; reflexivity].
    destruct (fault_at 0 fs), (fault_at 0 (redis_faults w)); split; reflexivity.
  - rewrite !delete_products_id_eq.
    rewrite !mutation_handler_eq by apply deleteOne_keeps_script. simpl_world.
    destruct (fault_at 0 (mongo_faults w)) as [e|]; [split; reflexivity|].
    destruct (Mongo.deleteOne (Mongo.QIdEq pid) (products w)) as [docs r].
    destruct (fault_at 0 fs), (fault_at 0 (redis_faults w)); split; reflexivity.
  - rewrite !post_populate_eq. cbv zeta.
    rewrite !mutation_handler_eq by apply insertMany_keeps_script. simpl_world.
    change (testProduct (set_redis_faults fs w)) with (testProduct w).
    destruct (fault_at 0 (mongo_faults w)) as [e|]; [split; reflexivity|].
    destruct (Mongo.insertMany (map (testProduct w) (seq 0 1000)) (next_oid w) (products w))
      as [[docs oid] [r|e]]; [|split; reflexivity].
    destruct (fault_at 0 fs), (fault_at 0 (redis_faults w)); split; reflexivity.
Qed.

(** X4.  When the deletion of the cache key is rejected after an
    acknowledged mutation, the request is answered with HTTP 500
    although the mutation stays: after the rejected deletion the handler
    does nothing but log the error (it neither undoes the mutation nor
    tries the deletion again), and the collection is the one the same
    request leaves when the deletion succeeds.  GET /products then
    shows the change, while GET /products-cached, if Redis still holds
    the listing cached before the mutation, serves that listing without
    asking the store. *)
Theorem failed_invalidation_keeps_the_old_listing (req : request) (w : world) (e : error) :
  mutating req = true ->
  mutation_acknowledged (trace (app req w)) = true ->
  fault_at 0 (redis_faults w) = Some e ->
  let failed := app req w in
  let done := app req (set_redis_faults (None :: tl (redis_faults w)) w) in
  result failed = Normal (Response 500 (error_payload e))
  /\ (exists c a label,
        is_mutation c = true
        /\ trace failed
           = [Call c; Fulfilled a; Call (RedisDel "products"); Rejected e; LogError label e])
  /\ (exists resp, result done = Normal resp /\ (status resp = 200 \/ status resp = 201))
  /\ products (final failed) = products (final done)
  /\ (fault_at 0 (mongo_faults (final failed)) = None ->
      result (get_products (final failed))
      = Normal (Response 200 (JArr (products (final done)))))
  /\ forall s v,
       Redis.get "products" (final failed) = Some s ->
       JSON.parse s = Some v ->
       fault_at 0 (redis_faults (final failed)) = None ->
       result (get_products_cached (final failed)) = Normal (Response 200 v)
       /\ count_calls is_store_query (trace (get_products_cached (final failed))) = 0%nat.
Proof.
  intros Hm Hack Hdel failed done. subst failed done.
  set (w' := set_redis_faults (None :: tl (redis_faults w)) w).
  destruct (store_ignores_redis_script req w (None :: tl (redis_faults w)) Hm)
    as [Hsame Hack']. fold w' in Hsame, Hack'. rewrite Hack in Hack'.
  destruct (mutating_outcome req w Hm) as (c & label & Hc & [H|[H|H]]).
  { destruct H as (e0 & Ht & _). rewrite Ht in Hack. discriminate Hack. }
  2:{ destruct H as (a & n & resp & Hnone & _). rewrite Hnone in Hdel. discriminate Hdel. }
  destruct H as (a & e0 & He0 & Ht & Hres). rewrite Hdel in He0. injection He0 as <-.
  split; [exact Hres|]. split; [exists c, a, label; split; [exact Hc | exact Ht]|].
  split.
  { destruct (mutating_outcome req w' Hm) as (c' & label' & _ & [H|[H|H]]).
    - destruct H as (e0 & Ht' & _). rewrite Ht' in Hack'. discriminate Hack'.
    - destruct H as (a' & e0 & He0 & _). discriminate He0.
    - destruct H as (a' & n & resp & _ & _ & Hr & Hs). exists resp. split; assumption. }
  split; [symmetry; exact Hsame|]. split.
  { intros Hmongo. rewrite get_products_run, Hmongo, <- Hsame. reflexivity. }
  intros s v Hs Hv H1.
  rewrite (hit_run _ s v H1 Hs Hv). split; reflexivity.
Qed.

Lemma failed_invalidation_witness :
  let w := sample [gadget] (cached [gadget]) [Some redis_down] no_acc in
  let failed := app (POST_products [("name", JStr "Widget")]) w in
  result failed = Normal (Response 500 (error_payload redis_down))
  /\ length (products (final failed)) = 2%nat
  /\ result (get_products_cached (final failed))
     = Normal (Response 200 (JSON.image (JArr [gadget]))).
Proof.
  cbv zeta.
  destruct (failed_invalidation_keeps_the_old_listing
              (POST_products [("name", JStr "Widget")])
              (sample [gadget] (cached [gadget]) [Some redis_down] no_acc) redis_down
              eq_refl eq_refl eq_refl) as (Hres & _ & _ & _ & _ & Hhit).
  split; [exact Hres|]. split; [reflexivity|].
  apply (Hhit (JSON_stringify (JArr [gadget])) (JSON.image (JArr [gadget])));
    vm_compute; reflexivity.
Defined.

Lemma get_set_elapse key val seconds dt w :
  Redis.get key (elapse dt (Redis.set key val seconds w))
  = if dt <=? seconds * 1000 then Some val else None.
Proof.
  unfold Redis.get, Redis.set. simpl_state. rewrite lookup_insert_eq. cbn [expires value].
  destruct (dt <=? seconds * 1000) eqn:E.
  - apply Z.leb_le in E. replace (now w + dt <=? now w + seconds * 1000) with true;
      [reflexivity|]. symmetry. apply Z.leb_le. lia.
  - apply Z.leb_gt in E. replace (now w + dt <=? now w + seconds * 1000) with false;
      [reflexivity|]. symmetry. apply Z.leb_gt. lia.
Qed.

(** A key whose expiry time is past is gone. *)
Lemma miss_after_expiry w1 e :
  keyspace w1 !! "products" = Some e ->
  expires e < now w1 ->
  Redis.get "products" w1 = None.
Proof.
  intros Hk Hlate. unfold Redis.get. rewrite Hk.
  replace (now w1 <=? expires e) with false; [reflexivity|].
  symmetry. apply Z.leb_gt. exact Hlate.
Qed.

(** X5.  A listing cached by a miss of GET /products-cached is not
    served beyond its 3600 s, whatever became of the collection in the
    meantime: once more than 3600 s have passed since the miss, the
    cached read is a miss again.  It asks Redis, queries the store once,
    answers with the collection as it is then, and caches that for
    another 3600 s. *)
Theorem cached_listing_expires_after_an_hour (w w1 : world) :
  Redis.get "products" w = None ->
  fault_at 0 (redis_faults w) = None ->
  fault_at 0 (mongo_faults w) = None ->
  fault_at 1 (redis_faults w) = None ->
  keyspace w1 = keyspace (final (get_products_cached w)) ->
  now w + 3600000 < now w1 ->
  fault_at 0 (redis_faults w1) = None ->
  fault_at 0 (mongo_faults w1) = None ->
  fault_at 1 (redis_faults w1) = None ->
  let again := get_products_cached w1 in
  let text := JSON_stringify (JArr (products w1)) in
  trace again
  = [Call (RedisGet "products"); Fulfilled JNull;
     Log "Cache miss - Consultando MongoDB";
     Call (Find Mongo.QAll); Fulfilled (JArr (products w1));
     Call (RedisSet "products" text 3600); Fulfilled (JStr "OK")]
  /\ result again = Normal (Response 200 (JArr (products w1)))
  /\ keyspace (final again) !! "products" = Some (Entry text (now w1 + 3600000)).
Proof.
  intros Hnone H0 Hm0 H1 Hk Hlate G0 Gm G1 again text. subst again text.
  assert (Hentry : keyspace w1 !! "products"
                   = Some (Entry (JSON_stringify (JArr (products w))) (now w + 3600000))).
  { rewrite Hk, (miss_run w H0 Hnone). cbv zeta. rewrite Hm0, H1.
    cbn [final fst snd]. unfold Redis.set. simpl_state. rewrite lookup_insert_eq.
    f_equal. }
  assert (Hgone : Redis.get "products" w1 = None).
  { apply (miss_after_expiry w1 _ Hentry). cbn [expires]. exact Hlate. }
  rewrite (miss_run w1 G0 Hgone). cbv zeta. rewrite Gm, G1.
  cbn [trace result final fst snd].
  split; [reflexivity|]. split; [reflexivity|].
  unfold Redis.set. simpl_state. rewrite lookup_insert_eq. f_equal.
Qed.

Lemma cached_listing_expires_witness :
  let w := sample [widget] ∅ [] no_acc in
  let w1 := set_products [gadget] 0 (elapse 3600001 (final (get_products_cached w))) in
  result (get_products_cached w1) = Normal (Response 200 (JArr [gadget])).
Proof.
  cbv zeta.
  apply (cached_listing_expires_after_an_hour (sample [widget] ∅ [] no_acc)
           (set_products [gadget] 0
              (elapse 3600001 (final (get_products_cached (sample [widget] ∅ [] no_acc))))));
    reflexivity.
Defined.

(** X6.  A cached value that is neither empty nor JSON text makes GET
    /products-cached fail: [JSON.parse] throws inside the try block, and
    the handler logs the error and answers HTTP 500 with its message.
    It does not fall back on the store and leaves the value in the
    cache, so that the reads that follow fail in the same way until the
    key is deleted or expires. *)
Theorem unreadable_cache_entry_fails_the_read (w : world) (s : string) :
  fault_at 0 (redis_faults w) = None ->
  Redis.get "products" w = Some s ->
  s <> EmptyString ->
  JSON.parse s = None ->
  let r := get_products_cached w in
  let thrown := syntax_error w s in
  result (JSON_parse s w) = Throw thrown
  /\ result r = Normal (Response 500 (JObj [("error", JStr (message thrown))]))
  /\ trace r
     = [Call (RedisGet "products"); Fulfilled (JStr s); Log "Datos desde Redis cache";
        LogError "Error en /products-cached:" thrown]
  /\ keyspace (final r) = keyspace w
  /\ (fault_at 1 (redis_faults w) = None ->
      result (get_products_cached (final r)) = result r).
Proof.
  intros H0 Hs Hne Hparse r thrown. subst r thrown.
  assert (Hrun : get_products_cached w
                 = (Normal (Response 500 (error_payload (syntax_error w s))),
                    set_redis_faults (tl (redis_faults w)) w,
                    [Call (RedisGet "products"); Fulfilled (JStr s);
                     Log "Datos desde Redis cache";
                     LogError "Error en /products-cached:" (syntax_error w s)])).
  { run_handler. rewrite H0.
    change (Redis.get "products" (set_redis_faults (tl (redis_faults w)) w))
      with (Redis.get "products" w).
    rewrite Hs. cbv beta iota. unfold truthy.
    destruct (String.eqb s EmptyString) eqn:E; [apply String.eqb_eq in E; contradiction|].
    cbn [negb to_string]. rewrite Hparse. reflexivity. }
  split; [unfold JSON_parse; rewrite Hparse; reflexivity|].
  rewrite Hrun. cbn [result trace final fst snd].
  split; [reflexivity|]. split; [reflexivity|]. split; [reflexivity|].
  intros H1. run_handler. simpl_world. rewrite fault_at_tl, H1.
  change (Redis.get "products"
            (set_redis_faults (tl (tl (redis_faults w)))
               (set_redis_faults (tl (redis_faults w)) w)))
    with (Redis.get "products" w).
  rewrite Hs. cbv beta iota. unfold truthy.
  destruct (String.eqb s EmptyString) eqn:E; [apply String.eqb_eq in E; contradiction|].
  cbn [negb to_string]. rewrite Hparse. reflexivity.
Qed.

Lemma unreadable_cache_entry_witness :
  let w := sample [widget] {[ "products" := Entry "[1," 4600000 ]} [] no_acc in
  result (get_products_cached w)
  = Normal (Response 500 (JObj [("error", JStr "Unexpected end of JSON input")]))
  /\ keyspace (final (get_products_cached w)) = keyspace w.
Proof.
  cbv zeta.
  destruct (unreadable_cache_entry_fails_the_read
              (sample [widget] {[ "products" := Entry "[1," 4600000 ]} [] no_acc) "[1,")
    as (_ & Hres & _ & Hk & _);
    [reflexivity | reflexivity | discriminate | vm_compute; reflexivity | ].
  split; [exact Hres | exact Hk].
Defined.

(* ===================================================================== *)
(** ** Products by id *)
(* ===================================================================== *)

Lemma store_op_eq {A : Type} (c : op) (run : process -> completion A * process)
  (show : A -> jsval) p :
  store_op c run show p =
  let p0 := set_server (set_mongo_faults (tl (mongo_faults (server p))) (server p)) p in
  match fault_at 0 (mongo_faults (server p)) with
  | Some e => (Raised e, p0, [Op c; Ev (Rejected e)])
  | None =>
      match run p0 with
      | (Normal a, p1) => (Returned a, p1, [Op c; Ev (Fulfilled (show a))])
      | (Throw e, p1) => (Raised e, p1, [Op c; Ev (Rejected e)])
      end
  end.
Proof. unfold store_op. rewrite next_fault_eq. reflexivity. Qed.

Lemma cache_op_eq {A : Type} (c : op) (run : process -> A * process) (show : A -> jsval) p :
  cache_op c run show p =
  let p0 := set_server (set_redis_faults (tl (redis_faults (server p))) (server p)) p in
  match fault_at 0 (redis_faults (server p)) with
  | Some e => (Raised e, p0, [Op c; Ev (Rejected e)])
  | None => let (a, p1) := run p0 in (Returned a, p1, [Op c; Ev (Fulfilled (show a))])
  end.
Proof. unfold cache_op. rewrite next_fault_eq. reflexivity. Qed.

Ltac run_process :=
  unfold attempt, mbind, Proc_bind, proc_bind, mret, Proc_ret, proc_ret, raise, exit,
    get_process, modify, say, complain, lift, console_log, console_error,
    res_json, res_status_json, fail_with, Js_bind, bind, Js_ret, ret;
  rewrite ?store_op_eq, ?cache_op_eq.

Ltac simpl_process :=
  cbn [server env uptime config_db index_db productsCollection indexes listening
       ping_reply pong_reply set_server set_config_db set_index_db set_productsCollection
       set_indexes set_listening ensure_index
       redis_faults mongo_faults products keyspace now next_oid accumulator randoms drawn
       parse_message
       set_redis_faults set_mongo_faults set_products set_keyspace set_drawn elapse
       outcome_of state_of events_of fst snd].

Lemma jsval_eqb_str x s : jsval_eqb x (JStr s) = true <-> x = JStr s.
Proof.
  destruct x; cbn [jsval_eqb]; split; intros H; try discriminate H.
  - apply String.eqb_eq in H. subst. reflexivity.
  - injection H as ->. apply String.eqb_refl.
Qed.

Lemma matches_id id d : Mongo.matches (Mongo.QIdEq id) d = true <-> field "_id" d = JStr id.
Proof. cbn [Mongo.matches]. apply jsval_eqb_str. Qed.

Lemma matching_document_is_truthy id d :
  Mongo.matches (Mongo.QIdEq id) d = true -> falsy d = false.
Proof.
  intros H. apply matches_id in H. destruct d; try discriminate H. reflexivity.
Qed.

(** The run of GET /products/:id. *)
Lemma get_products_id_run id p :
  get_products_id id p
  = let p0 := set_server (set_mongo_faults (tl (mongo_faults (server p))) (server p)) p in
    let q := Mongo.QIdEq id in
    match fault_at 0 (mongo_faults (server p)) with
    | Some e =>
        (Returned (Response 500 (error_payload e)), p0,
         [Op (FindOne q); Ev (Rejected e); Ev (LogError "Error en /products/:id:" e)])
    | None =>
        let found := nth 0 (List.filter (Mongo.matches q) (products (server p))) JNull in
        (Returned (if falsy found
                   then Response 404 (JObj [("message", JStr "Producto no encontrado")])
                   else Response 200 found),
         p0, [Op (FindOne q); Ev (Fulfilled found)])
    end.
Proof.
  unfold get_products_id, productsCollection_findOne. run_process. cbv zeta.
  destruct (fault_at 0 (mongo_faults (server p))) as [e|]; [reflexivity|].
  unfold Mongo.find. cbn [Mongo.valid]. simpl_process.
  destruct (falsy _); reflexivity.
Qed.

Lemma filter_first {A : Type} (f : A -> bool) before d after :
  forallb (fun x => negb (f x)) before = true -> f d = true ->
  List.filter f (before ++ d :: after) = d :: List.filter f after.
Proof.
  intros Hb Hd. induction before as [|x before IH]; cbn [List.app List.filter].
  - rewrite Hd. reflexivity.
  - cbn [forallb] in Hb. apply andb_true_iff in Hb as [Hx Hb].
    apply negb_true_iff in Hx. rewrite Hx. apply IH, Hb.
Qed.

Lemma filter_none {A : Type} (f : A -> bool) l :
  forallb (fun x => negb (f x)) l = true -> List.filter f l = [].
Proof.
  induction l as [|x l IH]; intros H; [reflexivity|].
  cbn [forallb] in H. apply andb_true_iff in H as [Hx Hl].
  apply negb_true_iff in Hx. cbn [List.filter]. rewrite Hx. apply IH, Hl.
Qed.

(** X7.  GET /products/:id, the store answering, responds HTTP 200 with
    the first document of the collection whose [_id] is the string given
    in the URL, and HTTP 404 with the message [Producto no encontrado]
    when no document has that string as its [_id]; it issues no Redis
    command and changes neither the collection nor the cache. *)
Theorem lookup_by_id_finds_the_first_match (id : string) (p : process) :
  fault_at 0 (mongo_faults (server p)) = None ->
  let r := get_products_id id p in
  (forallb (fun d => negb (jsval_eqb (field "_id" d) (JStr id))) (products (server p)) = true ->
   outcome_of r
   = Returned (Response 404 (JObj [("message", JStr "Producto no encontrado")])))
  /\ (forall before d after,
        products (server p) = before ++ d :: after ->
        forallb (fun x => negb (jsval_eqb (field "_id" x) (JStr id))) before = true ->
        field "_id" d = JStr id ->
        outcome_of r = Returned (Response 200 d))
  /\ products (server (state_of r)) = products (server p)
  /\ keyspace (server (state_of r)) = keyspace (server p)
  /\ redis_faults (server (state_of r)) = redis_faults (server p).
Proof.
  intros H0 r. subst r. rewrite get_products_id_run. cbv zeta. rewrite H0. simpl_process.
  split; [|split; [|repeat split; reflexivity]].
  - intros Hnone.
    rewrite (filter_none (Mongo.matches (Mongo.QIdEq id)) _ Hnone). reflexivity.
  - intros before d after Hp Hb Hd. rewrite Hp.
    assert (Hm : Mongo.matches (Mongo.QIdEq id) d = true) by (apply matches_id, Hd).
    rewrite (filter_first (Mongo.matches (Mongo.QIdEq id)) before d after Hb Hm).
    cbn [nth]. rewrite (matching_document_is_truthy id d Hm). reflexivity.
Qed.

Lemma lift_eq {A : Type} (m : Js A) p :
  lift m p
  = (match result (m (server p)) with Normal a => Returned a | Throw e => Raised e end,
     set_server (final (m (server p))) p, map Ev (trace (m (server p)))).
Proof. unfold lift. destruct (m (server p)) as [[[a|e] w] t]; reflexivity. Qed.

Ltac split_matches :=
  repeat (first
            [ progress (rewrite ?mongo_call_eq, ?redis_call_eq)
            | match goal with
              | |- context [match ?x with _ => _ end] =>
                  lazymatch x with
                  | context [match _ with _ => _ end] => fail
                  | _ => destruct x
                  end
              end ];
          cbv beta iota zeta; simpl_state).

(** The handlers that read leave the collection and the ObjectId counter
    alone. *)
Lemma reads_keep_collection req w :
  mutating req = false ->
  products (final (app req w)) = products w /\ next_oid (final (app req w)) = next_oid w.
Proof.
  intros Hm. destruct req as [|body|pid body|pid|query| |]; try discriminate Hm; cbn [app].
  - run_handler. unfold ret, throw, Redis.set. cbv beta iota zeta. simpl_state.
    split_matches; split; reflexivity.
  - run_handler. unfold ret, throw. cbv beta iota zeta. simpl_state.
    split_matches; split; reflexivity.
  - run_handler. unfold ret, throw. cbv beta iota zeta. simpl_state.
    split_matches; split; reflexivity.
Qed.

Lemma has_oid_unmatched id d : has_oid d = true -> Mongo.matches (Mongo.QIdEq id) d = false.
Proof.
  unfold has_oid. cbn [Mongo.matches]. destruct (field "_id" d); try discriminate. reflexivity.
Qed.

Lemma all_oid_unmatched id docs :
  forallb has_oid docs = true ->
  forallb (fun d => negb (Mongo.matches (Mongo.QIdEq id) d)) docs = true.
Proof.
  induction docs as [|d docs IH]; intros H; [reflexivity|].
  cbn [forallb] in *. apply andb_true_iff in H as [Hd Hrest].
  rewrite (has_oid_unmatched id d Hd), (IH Hrest). reflexivity.
Qed.

(** The collection after a mutating handler. *)
Lemma mutation_products (c : call) (run : world -> completion jsval * world)
  (resp : jsval -> response) (label : string) (w : world) :
  (forall w0, redis_faults (snd (run w0)) = redis_faults w0) ->
  products (final (try_catch (result ← mongo_call c run id; redis_del "products";;
                              ret (resp result)) (fail_with label) w))
  = match fault_at 0 (mongo_faults w) with
    | Some _ => products w
    | None => products (snd (run (set_mongo_faults (tl (mongo_faults w)) w)))
    end.
Proof.
  intros Hrun. rewrite (mutation_handler_eq c run resp label w Hrun).
  destruct (fault_at 0 (mongo_faults w)) as [e|]; [reflexivity|].
  destruct (run (set_mongo_faults (tl (mongo_faults w)) w)) as [[a|e] w1]; [|reflexivity].
  destruct (fault_at 0 (redis_faults w)) as [e|]; reflexivity.
Qed.

Lemma insertOne_oids body oid docs :
  has_prop "_id" body = false ->
  forallb has_oid docs = true ->
  match Mongo.insertOne body oid docs with
  | Normal (docs', _, r) =>
      forallb has_oid docs' = true /\ length docs' = S (length docs)
      /\ field "insertedId" r = JOid (Mongo.oid_hex oid)
  | Throw _ => True
  end.
Proof.
  intros Hid Hdocs. unfold Mongo.insertOne, Mongo.with_id. rewrite Hid.
  destruct (Mongo.id_taken _ docs); [exact I|].
  rewrite forallb_app, Hdocs, length_app. cbn. split; [reflexivity|]. split; [lia|reflexivity].
Qed.

Lemma insert_each_oids news :
  Forall (fun doc => has_prop "_id" doc = false) news ->
  forall oid docs ids,
    forallb has_oid docs = true ->
    forallb has_oid (fst (fst (Mongo.insert_each news oid docs ids))) = true.
Proof.
  induction 1 as [|doc news Hdoc Hnews IH]; intros oid docs ids Hdocs; [exact Hdocs|].
  cbn [Mongo.insert_each].
  pose proof (insertOne_oids doc oid docs Hdoc Hdocs) as H1.
  destruct (Mongo.insertOne doc oid docs) as [[[docs' oid'] r]|e]; [|exact Hdocs].
  apply IH, H1.
Qed.

Lemma testProduct_has_no_id w i : has_prop "_id" (testProduct w i) = false.
Proof. reflexivity. Qed.

(** A request that brings no [_id] of its own keeps every [_id] of the
    collection an ObjectId. *)
Lemma request_keeps_oids req w :
  brings_no_id req = true ->
  forallb has_oid (products w) = true ->
  forallb has_oid (products (final (app req w))) = true.
Proof.
  intros Hreq Hw.
  destruct (mutating req) eqn:Hm;
    [|rewrite (proj1 (reads_keep_collection req w Hm)); exact Hw].
  destruct req as [|body|pid body|pid|query| |]; try discriminate Hm; cbn [app].
  - cbn [brings_no_id] in Hreq. apply negb_true_iff in Hreq.
    rewrite post_products_eq, mutation_products by apply insertOne_keeps_script.
    destruct (fault_at 0 (mongo_faults w)); [exact Hw|]. simpl_world.
    pose proof (insertOne_oids body (next_oid w) (products w) Hreq Hw) as H1.
    destruct (Mongo.insertOne _ _ _) as [[[docs oid] r]|e]; [apply H1 | exact Hw].
  - rewrite put_products_id_eq, mutation_products by apply updateOne_keeps_script.
    destruct (fault_at 0 (mongo_faults w)); [exact Hw|]. simpl_world.
    rewrite (updateOne_unmatched _ _ _ (all_oid_unmatched pid _ Hw)). exact Hw.
  - rewrite delete_products_id_eq, mutation_products by apply deleteOne_keeps_script.
    destruct (fault_at 0 (mongo_faults w)); [exact Hw|]. simpl_world.
    rewrite (deleteOne_unmatched _ _ (all_oid_unmatched pid _ Hw)). exact Hw.
  - rewrite post_populate_eq. cbv zeta.
    rewrite mutation_products by apply insertMany_keeps_script.
    simpl_world. destruct (fault_at 0 (mongo_faults w)); [exact Hw|]. simpl_world.
    unfold Mongo.insertMany.
    pose proof (insert_each_oids (map (testProduct w) (seq 0 1000))) as H1.
    specialize (H1 ltac:(apply List.Forall_forall; intros doc Hin;
                         apply in_map_iff in Hin as (i & <- & _);
                         apply testProduct_has_no_id)
                  (next_oid w) (products w) [] Hw).
    destruct (Mongo.insert_each _ _ _ _) as [[docs' oid'] [ids|e]]; exact H1.
Qed.

Lemma after_cons r reqs w :
  after (r :: reqs) w = after reqs (final (app (snd r) (elapse (fst r) w))).
Proof. reflexivity. Qed.

Lemma after_keeps_oids reqs :
  forall w,
    forallb (fun r => brings_no_id (snd r)) reqs = true ->
    forallb has_oid (products w) = true ->
    forallb has_oid (products (after reqs w)) = true.
Proof.
  induction reqs as [|r reqs IH]; intros w Hreqs Hw; [exact Hw|].
  cbn [forallb] in Hreqs. apply andb_true_iff in Hreqs as [Hr Hreqs].
  rewrite after_cons. apply IH; [exact Hreqs|].
  apply request_keeps_oids; [exact Hr | exact Hw].
Qed.

Lemma put_unmatched_run id body w :
  forallb (fun d => negb (Mongo.matches (Mongo.QIdEq id) d)) (products w) = true ->
  fault_at 0 (mongo_faults w) = None ->
  fault_at 0 (redis_faults w) = None ->
  result (put_products_id id body w) = Normal (Response 200 (Mongo.update_result 0 0))
  /\ products (final (put_products_id id body w)) = products w.
Proof.
  intros Hnone Hmongo Hredis. rewrite put_products_id_eq.
  rewrite mutation_handler_eq by apply updateOne_keeps_script.
  rewrite Hmongo, Hredis. simpl_world. rewrite (updateOne_unmatched _ _ _ Hnone).
  split; reflexivity.
Qed.

Lemma delete_unmatched_run id w :
  forallb (fun d => negb (Mongo.matches (Mongo.QIdEq id) d)) (products w) = true ->
  fault_at 0 (mongo_faults w) = None ->
  fault_at 0 (redis_faults w) = None ->
  result (delete_products_id id w) = Normal (Response 200 (Mongo.delete_result 0))
  /\ products (final (delete_products_id id w)) = products w.
Proof.
  intros Hnone Hmongo Hredis. rewrite delete_products_id_eq.
  rewrite mutation_handler_eq by apply deleteOne_keeps_script.
  rewrite Hmongo, Hredis. simpl_world. rewrite (deleteOne_unmatched _ _ Hnone).
  split; reflexivity.
Qed.

(** X8.  The routes by id compare [_id] with the string of the URL, and a
    driver-generated ObjectId is never equal to a string.  So, in a
    collection whose documents all carry an ObjectId (an empty one, for
    instance), and after any sequence of requests none of which posts a
    product with an [_id] of its own, every document still carries an
    ObjectId and, for every id, GET /products/:id answers 404, PUT
    /products/:id reports no match and DELETE /products/:id reports no
    deletion, the collection being left as it is. *)
Theorem generated_ids_are_out_of_reach
  (reqs : list (Z * request)) (id : string) (body : props) (p : process) :
  forallb (fun r => brings_no_id (snd r)) reqs = true ->
  forallb has_oid (products (server p)) = true ->
  let p1 := set_server (after reqs (server p)) p in
  fault_at 0 (mongo_faults (server p1)) = None ->
  fault_at 0 (redis_faults (server p1)) = None ->
  let get := handler_of (GET_products_id id) p1 in
  let put := handler_of (Request (PUT_products_id id body)) p1 in
  let del := handler_of (Request (DELETE_products_id id)) p1 in
  forallb has_oid (products (server p1)) = true
  /\ outcome_of get
     = Returned (Response 404 (JObj [("message", JStr "Producto no encontrado")]))
  /\ outcome_of put = Returned (Response 200 (Mongo.update_result 0 0))
  /\ outcome_of del = Returned (Response 200 (Mongo.delete_result 0))
  /\ products (server (state_of put)) = products (server p1)
  /\ products (server (state_of del)) = products (server p1).
Proof.
  intros Hreqs Hp p1 Hmongo Hredis get put del. subst get put del.
  assert (Hoid : forallb has_oid (products (server p1)) = true)
    by (subst p1; apply after_keeps_oids; assumption).
  pose proof (all_oid_unmatched id _ Hoid) as Hnone.
  split; [exact Hoid|]. cbn [handler_of]. split.
  - rewrite get_products_id_run. cbv zeta. rewrite Hmongo.
    rewrite (filter_none _ _ Hnone). reflexivity.
  - rewrite !lift_eq. cbn [outcome_of state_of fst snd app]. simpl_process.
    destruct (put_unmatched_run id body _ Hnone Hmongo Hredis) as [-> ->].
    destruct (delete_unmatched_run id _ Hnone Hmongo Hredis) as [-> ->].
    repeat split; reflexivity.
Qed.

Lemma generated_ids_witness :
  let p := booting (sample [] ∅ [] no_acc) ∅ in
  let p1 := set_server (after [(0, POST_products [("name", JStr "Widget")])] (server p)) p in
  products (server p1)
  = [JObj [("_id", JOid "000000000000000000000000"); ("name", JStr "Widget")]]
  /\ outcome_of (handler_of (GET_products_id "000000000000000000000000") p1)
     = Returned (Response 404 (JObj [("message", JStr "Producto no encontrado")])).
Proof.
  cbv zeta. split; [reflexivity|].
  apply (generated_ids_are_out_of_reach
           [(0, POST_products [("name", JStr "Widget")])]
           "000000000000000000000000" []
           (booting (sample [] ∅ [] no_acc) ∅));
    reflexivity.
Defined.

Lemma lookup_by_id_witness :
  let p := booting (sample [widget; gadget] ∅ [] no_acc) ∅ in
  outcome_of (get_products_id "nobody" p)
  = Returned (Response 404 (JObj [("message", JStr "Producto no encontrado")]))
  /\ outcome_of (get_products_id "p2" p) = Returned (Response 200 gadget).
Proof.
  cbv zeta.
  destruct (lookup_by_id_finds_the_first_match "nobody"
              (booting (sample [widget; gadget] ∅ [] no_acc) ∅)
              eq_refl) as [Hmissing _].
  destruct (lookup_by_id_finds_the_first_match "p2"
              (booting (sample [widget; gadget] ∅ [] no_acc) ∅)
              eq_refl) as [_ [Hfound _]].
  split; [apply Hmissing; reflexivity|].
  apply (Hfound [widget] gadget []); reflexivity.
Defined.

Lemma get_prop_has_prop k ps : get_prop k ps <> JUndefined -> has_prop k ps = true.
Proof.
  induction ps as [|[k' v] ps IH]; intros H; [contradiction H; reflexivity|].
  cbn [get_prop] in H. unfold has_prop. cbn [existsb fst].
  destruct (String.eqb k k'); [reflexivity|]. apply IH, H.
Qed.

Lemma existsb_forallb_negb {A : Type} (f : A -> bool) l :
  existsb f l = negb (forallb (fun x => negb (f x)) l).
Proof.
  induction l as [|x l IH]; [reflexivity|]. cbn [existsb forallb]. rewrite IH.
  destruct (f x); reflexivity.
Qed.

(** X9.  POST /products with a body whose [_id] is a string: when no
    document has that [_id], the responses being HTTP 201 with that
    [insertedId], the product can be read back, GET /products/:id
    answering HTTP 200 with the document as stored ([_id] first, then the
    other properties of the body); when a document has it already, the
    response is HTTP 500 and the collection and the cache are as before. *)
Theorem product_with_own_id_is_read_back (id : string) (body : props) (p : process) :
  get_prop "_id" body = JStr id ->
  fault_at 0 (mongo_faults (server p)) = None ->
  fault_at 0 (redis_faults (server p)) = None ->
  fault_at 1 (mongo_faults (server p)) = None ->
  let created := handler_of (Request (POST_products body)) p in
  let stored := JObj (("_id", JStr id) :: remove_prop "_id" body) in
  if Mongo.id_taken (JStr id) (products (server p))
  then outcome_of created = Returned (Response 500 (error_payload Mongo.duplicate_key))
       /\ products (server (state_of created)) = products (server p)
       /\ keyspace (server (state_of created)) = keyspace (server p)
  else outcome_of created
       = Returned (Response 201 (JObj [("acknowledged", JBool true);
                                       ("insertedId", JStr id)]))
       /\ products (server (state_of created)) = products (server p) ++ [stored]
       /\ outcome_of (handler_of (GET_products_id id) (state_of created))
          = Returned (Response 200 stored).
Proof.
  intros Hid Hm0 Hr0 Hm1 created stored. subst created stored.
  assert (Hhas : has_prop "_id" body = true)
    by (apply get_prop_has_prop; rewrite Hid; discriminate).
  cbn [handler_of app]. rewrite lift_eq, post_products_eq.
  rewrite mutation_handler_eq by apply insertOne_keeps_script.
  rewrite Hm0, Hr0. simpl_world.
  unfold Mongo.insertOne, Mongo.with_id. rewrite Hhas, Hid.
  destruct (Mongo.id_taken (JStr id) (products (server p))) eqn:Htaken.
  - repeat split; reflexivity.
  - unfold Redis.del. simpl_process. cbn [result final fst snd]. simpl_process.
    split; [reflexivity|]. split; [reflexivity|].
    rewrite get_products_id_run. cbv zeta. simpl_process.
    rewrite fault_at_tl, Hm1.
    unfold Mongo.id_taken in Htaken. rewrite existsb_forallb_negb in Htaken.
    apply negb_false_iff in Htaken.
    rewrite (filter_first (Mongo.matches (Mongo.QIdEq id)) (products (server p)) _ []);
      [reflexivity | exact Htaken |].
    cbn [Mongo.matches field get_prop String.eqb]. apply jsval_eqb_str. reflexivity.
Qed.

Lemma product_with_own_id_witness :
  let p := booting (sample [gadget] (cached [gadget]) [] no_acc) ∅ in
  let body := [("name", JStr "Widget"); ("_id", JStr "w1")] in
  outcome_of (handler_of (GET_products_id "w1")
                (state_of (handler_of (Request (POST_products body)) p)))
  = Returned (Response 200 (JObj [("_id", JStr "w1"); ("name", JStr "Widget")])).
Proof.
  cbv zeta.
  pose proof (product_with_own_id_is_read_back "w1"
                [("name", JStr "Widget"); ("_id", JStr "w1")]
                (booting (sample [gadget] (cached [gadget]) [] no_acc) ∅)
                eq_refl eq_refl eq_refl eq_refl) as H.
  cbv zeta in H.
  change (Mongo.id_taken (JStr "w1")
            (products (server (booting (sample [gadget] (cached [gadget]) [] no_acc) ∅)))) with false in H.
  apply H.
Defined.

(* ===================================================================== *)
(** ** The health check *)
(* ===================================================================== *)

(** The run of GET /health. *)
Lemma get_health_run p :
  get_health p
  = let w := server p in
    let ping := DbCommand (JObj [("ping", JNum 1)]) in
    let p0 := set_server (set_mongo_faults (tl (mongo_faults w)) w) p in
    match ping_failure p with
    | Some e =>
        (Returned (Response 500 (health_error e)), p0, [Op ping; Ev (Rejected e)])
    | None =>
        let p1 := set_server (set_redis_faults (tl (redis_faults w)) (server p0)) p0 in
        match fault_at 0 (redis_faults w) with
        | Some e =>
            (Returned (Response 500 (health_error e)), p1,
             [Op ping; Ev (Fulfilled (JObj (ping_reply p))); Op RedisPing; Ev (Rejected e)])
        | None =>
            (Returned
               (Response 200
                  (JObj [("mongodb", JStr "connected");
                         ("redis",
                          JStr (if String.eqb (pong_reply p) "PONG"
                                then "connected" else "disconnected"));
                         ("uptime", JNum (uptime p))])),
             p1,
             [Op ping; Ev (Fulfilled (JObj (ping_reply p))); Op RedisPing;
              Ev (Fulfilled (JStr (pong_reply p)))])
        end
    end.
Proof.
  unfold get_health, db_command_ping, redis_ping, ping_failure. run_process. cbv zeta.
  destruct (fault_at 0 (mongo_faults (server p))) as [e|]; [reflexivity|].
  simpl_process.
  destruct (jsval_eqb (get_prop "ok" (ping_reply p)) (JNum 1)) eqn:Hok; [|reflexivity].
  rewrite cache_op_eq. cbv zeta. simpl_process.
  destruct (fault_at 0 (redis_faults (server p))) as [e|]; [reflexivity|].
  rewrite Hok. reflexivity.
Qed.

(** X10.  GET /health answers HTTP 200 exactly when both pings are
    answered, and then reports [mongodb] as [connected]: the driver
    rejects a reply whose [ok] is not 1, so that [disconnected] is never
    said of MongoDB; [redis] is [connected] for the reply [PONG].  When
    either ping is rejected the response is HTTP 500 and reports both
    [mongodb] and [redis] as [error], whichever of the two failed; and
    when the MongoDB ping is the one rejected, Redis is not pinged at
    all.  The handler changes neither the collection nor the cache. *)
Theorem health_reports_both_or_neither (p : process) :
  let r := get_health p in
  match ping_failure p, fault_at 0 (redis_faults (server p)) with
  | Some e, _ =>
      outcome_of r = Returned (Response 500 (health_error e))
      /\ ~ In RedisPing (ops_of (events_of r))
  | None, Some e =>
      outcome_of r = Returned (Response 500 (health_error e))
      /\ In RedisPing (ops_of (events_of r))
  | None, None =>
      outcome_of r
      = Returned
          (Response 200
             (JObj [("mongodb", JStr "connected");
                    ("redis",
                     JStr (if String.eqb (pong_reply p) "PONG"
                           then "connected" else "disconnected"));
                    ("uptime", JNum (uptime p))]))
  end
  /\ (forall resp,
        outcome_of r = Returned resp ->
        field "mongodb" (payload resp) <> JStr "disconnected")
  /\ products (server (state_of r)) = products (server p)
  /\ keyspace (server (state_of r)) = keyspace (server p).
Proof.
  cbv zeta. rewrite get_health_run. cbv zeta.
  destruct (ping_failure p) as [e|].
  { split; [split; [reflexivity|]|].
    - cbn. intros [H|[]]. discriminate H.
    - split; [|split; reflexivity].
      intros resp H. injection H as <-. discriminate. }
  destruct (fault_at 0 (redis_faults (server p))) as [e|].
  { split; [split; [reflexivity|cbn; auto]|].
    split; [|split; reflexivity].
    intros resp H. injection H as <-. discriminate. }
  split; [reflexivity|]. split; [|split; reflexivity].
  intros resp H. injection H as <-. discriminate.
Qed.

(* ===================================================================== *)
(** ** Start-up *)
(* ===================================================================== *)

Lemma ensure_index_in key p : In key (indexes (ensure_index key p)).
Proof.
  unfold ensure_index. cbn [indexes set_indexes].
  destruct (existsb (String.eqb key) (indexes p)) eqn:E.
  - apply JSONFacts.existsb_eqb_In, E.
  - apply in_or_app. right. left. reflexivity.
Qed.

Lemma ensure_index_keeps key k p : In k (indexes p) -> In k (indexes (ensure_index key p)).
Proof.
  unfold ensure_index. cbn [indexes set_indexes].
  destruct (existsb (String.eqb key) (indexes p)); [auto|].
  intros H. apply in_or_app. left. exact H.
Qed.

(** The run of [connectDB] when no database handle is held yet. *)
Lemma connectDB_run url p :
  config_db p = None ->
  connectDB url p
  = let w := server p in
    let db := Database url (or_else (env p !! "MONGODB_DB_NAME") "testdb") in
    let p0 := set_server (set_mongo_faults (tl (mongo_faults w)) w) p in
    let p1 := set_server (set_mongo_faults (tl (tl (mongo_faults w))) w) p in
    let opening := [Op (NewMongoClient url client_options); Ev (Fulfilled JUndefined);
                    Ev (Log "Intentando conectar a MongoDB Atlas..."); Op ClientConnect] in
    match fault_at 0 (mongo_faults w) with
    | Some e => (Raised e, p0, [Op (NewMongoClient url client_options); Ev (Rejected e)])
    | None =>
        match fault_at 1 (mongo_faults w) with
        | Some e =>
            (Raised e, p1,
             opening ++ [Ev (Rejected e); Ev (LogError "Error de conexión a MongoDB:" e)])
        | None =>
            (Returned db, set_config_db (Some db) p1,
             opening ++ [Ev (Fulfilled JUndefined); Ev (Log "MongoDB connected successfully")])
        end
    end.
Proof.
  intros Hnone. unfold connectDB, new_MongoClient, client_connect. run_process.
  rewrite Hnone. cbv zeta. rewrite store_op_eq. cbv zeta.
  destruct (fault_at 0 (mongo_faults (server p))) as [e|]; [reflexivity|].
  simpl_process. rewrite store_op_eq. cbv zeta. simpl_process. rewrite fault_at_tl.
  destruct (fault_at 1 (mongo_faults (server p))) as [e|]; reflexivity.
Qed.

(** X11.  [connectDB] connects once.  With no handle held, it creates a
    client and connects it: on success it returns the handle of the
    database named by [MONGODB_DB_NAME] ([testdb] when that is unset or
    empty) and keeps it, so that every later call returns that handle
    without any call to the driver; on failure it rejects with the
    driver's own error and keeps nothing, so that a later call tries
    again.  A rejected [connect] is logged; a throwing constructor is
    not. *)
Theorem connectDB_connects_once (url : string) (p : process) :
  config_db p = None ->
  let r := connectDB url p in
  match fault_at 0 (mongo_faults (server p)), fault_at 1 (mongo_faults (server p)) with
  | None, None =>
      let db := Database url (or_else (env p !! "MONGODB_DB_NAME") "testdb") in
      outcome_of r = Returned db
      /\ config_db (state_of r) = Some db
      /\ ops_of (events_of r) = [NewMongoClient url client_options; ClientConnect]
      /\ forall url', connectDB url' (state_of r) = (Returned db, state_of r, [])
  | Some e, _ =>
      outcome_of r = Raised e
      /\ config_db (state_of r) = None
      /\ errors_logged (events_of r) = []
  | None, Some e =>
      outcome_of r = Raised e
      /\ config_db (state_of r) = None
      /\ errors_logged (events_of r) = [("Error de conexión a MongoDB:", e)]
  end.
Proof.
  intros Hnone r. subst r. rewrite (connectDB_run url p Hnone). cbv zeta.
  destruct (fault_at 0 (mongo_faults (server p))) as [e|].
  { destruct (fault_at 1 (mongo_faults (server p))); repeat split; try reflexivity; exact Hnone. }
  destruct (fault_at 1 (mongo_faults (server p))) as [e|].
  { repeat split; try reflexivity. exact Hnone. }
  repeat split; try reflexivity.
Qed.

Lemma connectDB_connects_once_witness :
  let p := started (sample [] ∅ [] no_acc) {[ "MONGODB_DB_NAME" := "shop" ]} 0
             [("ok", JNum 1)] "PONG" in
  outcome_of (connectDB "mongodb://db" p) = Returned (Database "mongodb://db" "shop")
  /\ ops_of (events_of (connectDB "mongodb://db" (state_of (connectDB "mongodb://db" p)))) = [].
Proof.
  cbv zeta.
  pose proof (connectDB_connects_once "mongodb://db"
                (started (sample [] ∅ [] no_acc) {[ "MONGODB_DB_NAME" := "shop" ]} 0
                   [("ok", JNum 1)] "PONG") eq_refl) as H.
  cbv zeta in H. destruct H as (H1 & _ & _ & H4).
  split; [exact H1|]. rewrite H4. reflexivity.
Defined.

Lemma main_run url p :
  env p !! "MONGODB_URI" = Some url -> url <> EmptyString ->
  main p
  = match initializeApp url p with
    | (o, p1, t) => (o, p1, Op (NewRedis (redis_options_of (env p))) :: t)
    end.
Proof.
  intros Henv Hurl. unfold main, config_db_module, new_Redis. run_process. rewrite Henv.
  destruct (String.eqb url "") eqn:E; [apply String.eqb_eq in E; contradiction|].
  cbv beta iota. destruct (initializeApp url p) as [[[[]|e|code] p1] t]; reflexivity.
Qed.

(** The run of [initializeApp] once the connection is there. *)
Lemma create_indexes_run (p : process) :
  (productsCollection_createIndex "name";;
   productsCollection_createIndex "price";;
   productsCollection_createIndex "category";;
   q ← get_process;
   app_listen (PORT (env q))) p
  = let w := server p in
    let script := mongo_faults w in
    let at_ n q := set_server (set_mongo_faults (Nat.iter n tl script) w) q in
    let p1 := ensure_index "name" p in
    let p2 := ensure_index "price" p1 in
    let p3 := ensure_index "category" p2 in
    let t1 := [Op (CreateIndex "name")] in
    let t2 := t1 ++ [Ev (Fulfilled (JStr "name_1")); Op (CreateIndex "price")] in
    let t3 := t2 ++ [Ev (Fulfilled (JStr "price_1")); Op (CreateIndex "category")] in
    match fault_at 0 script with
    | Some e => (Raised e, at_ 1%nat p, t1 ++ [Ev (Rejected e)])
    | None =>
        match fault_at 1 script with
        | Some e => (Raised e, at_ 2%nat p1, t2 ++ [Ev (Rejected e)])
        | None =>
            match fault_at 2 script with
            | Some e => (Raised e, at_ 3%nat p2, t3 ++ [Ev (Rejected e)])
            | None =>
                (Returned tt, set_listening (Some (PORT (env p))) (at_ 3%nat p3),
                 t3 ++ [Ev (Fulfilled (JStr "category_1")); Op (Listen (PORT (env p)));
                        Ev (Log (banner p))])
            end
        end
    end.
Proof.
  unfold productsCollection_createIndex, app_listen. run_process. cbv zeta.
  destruct (fault_at 0 (mongo_faults (server p))) as [e|]; [reflexivity|].
  simpl_process. rewrite store_op_eq. cbv zeta. simpl_process. rewrite fault_at_tl.
  destruct (fault_at 1 (mongo_faults (server p))) as [e|]; [reflexivity|].
  simpl_process. rewrite store_op_eq. cbv zeta. simpl_process. rewrite !fault_at_tl.
  destruct (fault_at 2 (mongo_faults (server p))) as [e|]; reflexivity.
Qed.

Lemma set_server_same p : set_server (server p) p = p.
Proof. destruct p; reflexivity. Qed.

Lemma initializeApp_eq url p :
  initializeApp url p
  = let failed e q t :=
      (Exited 1, q, t ++ [Ev (LogError "Failed to initialize application:" e); Exit 1]) in
    match connectDB url p with
    | (Returned db, p1, t1) =>
        match (productsCollection_createIndex "name";;
               productsCollection_createIndex "price";;
               productsCollection_createIndex "category";;
               q ← get_process;
               app_listen (PORT (env q)))
                (set_productsCollection (Some "products") (set_index_db (Some db) p1)) with
        | (Returned u, p2, t2) => (Returned u, p2, t1 ++ t2)
        | (Raised e, p2, t2) => failed e p2 (t1 ++ t2)
        | (Exited code, p2, t2) => (Exited code, p2, t1 ++ t2)
        end
    | (Raised e, p1, t1) => failed e p1 t1
    | (Exited code, p1, t1) => (Exited code, p1, t1)
    end.
Proof.
  unfold initializeApp.
  unfold attempt, mbind, Proc_bind, proc_bind, complain, lift, console_error, exit, modify.
  cbv zeta. cbn [server set_server map].
  destruct (connectDB url p) as [[[db|e|code] p1] t1];
    [|rewrite set_server_same; reflexivity|reflexivity].
  cbn [List.app]. rewrite ?app_nil_l.
  repeat match goal with
         | |- context [productsCollection_createIndex ?k ?q] =>
             destruct (productsCollection_createIndex k q) as [[[?|?|?] ?] ?];
             cbn [List.app]; rewrite ?set_server_same, <- ?app_assoc; try reflexivity
         end.
Qed.

Ltac below_five i :=
  destruct i as [|[|[|[|[|i]]]]]; try assumption; try discriminate; try lia.

Ltac no_listen :=
  let port := fresh "port" in
  let H := fresh "H" in
  intros port H; cbn [events_of snd ops_of flat_map List.app In] in H;
  repeat (destruct H as [H|H]; [discriminate H|]); exact H.

(** X12.  Starting the application, [MONGODB_URI] being set: the server
    listens only after the Redis client was created, MongoDB was
    connected and the indexes on [name], [price] and [category] were
    created, in that order; it then listens on [PORT] (3000 when that is
    unset or empty) with [db] and [productsCollection] set.  If any of
    the five driver calls fails, the error is logged, the process exits
    with code 1, and the server never listens. *)
Theorem server_listens_only_when_initialised (url : string) (p : process) :
  env p !! "MONGODB_URI" = Some url ->
  url <> EmptyString ->
  config_db p = None ->
  listening p = None ->
  let r := main p in
  let script := mongo_faults (server p) in
  ((forall i, (i < 5)%nat -> fault_at i script = None)
   /\ outcome_of r = Returned tt
   /\ listening (state_of r) = Some (PORT (env p))
   /\ index_db (state_of r)
      = Some (Database url (or_else (env p !! "MONGODB_DB_NAME") "testdb"))
   /\ productsCollection (state_of r) = Some "products"
   /\ (forall k, In k ["name"; "price"; "category"] -> In k (indexes (state_of r)))
   /\ ops_of (events_of r)
      = [NewRedis (redis_options_of (env p)); NewMongoClient url client_options;
         ClientConnect; CreateIndex "name"; CreateIndex "price"; CreateIndex "category";
         Listen (PORT (env p))])
  \/ (exists i e,
        (i < 5)%nat
        /\ fault_at i script = Some e
        /\ (forall j, (j < i)%nat -> fault_at j script = None)
        /\ outcome_of r = Exited 1
        /\ listening (state_of r) = None
        /\ (forall port, ~ In (Listen port) (ops_of (events_of r)))
        /\ In ("Failed to initialize application:", e) (errors_logged (events_of r))).
Proof.
  intros Henv Hurl Hcfg Hlisten r script. subst r script.
  rewrite (main_run url p Henv Hurl), initializeApp_eq, (connectDB_run url p Hcfg).
  cbv zeta.
  destruct (fault_at 0 (mongo_faults (server p))) as [e|] eqn:F0.
  { right. exists 0%nat, e. split; [lia|]. split; [exact F0|]. split; [intros j Hj; lia|].
    split; [reflexivity|]. split; [exact Hlisten|]. split; [no_listen|]. cbn. auto. }
  destruct (fault_at 1 (mongo_faults (server p))) as [e|] eqn:F1.
  { right. exists 1%nat, e. split; [lia|]. split; [exact F1|].
    split; [intros j Hj; below_five j|].
    split; [reflexivity|]. split; [exact Hlisten|]. split; [no_listen|]. cbn. auto 10. }
  rewrite create_indexes_run. cbv zeta. simpl_process. rewrite !fault_at_tl.
  destruct (fault_at 2 (mongo_faults (server p))) as [e|] eqn:F2.
  { right. exists 2%nat, e. split; [lia|]. split; [exact F2|].
    split; [intros j Hj; below_five j|].
    split; [reflexivity|]. split; [exact Hlisten|]. split; [no_listen|]. cbn. auto 20. }
  destruct (fault_at 3 (mongo_faults (server p))) as [e|] eqn:F3.
  { right. exists 3%nat, e. split; [lia|]. split; [exact F3|].
    split; [intros j Hj; below_five j|].
    split; [reflexivity|]. split; [exact Hlisten|]. split; [no_listen|]. cbn. auto 20. }
  destruct (fault_at 4 (mongo_faults (server p))) as [e|] eqn:F4.
  { right. exists 4%nat, e. split; [lia|]. split; [exact F4|].
    split; [intros j Hj; below_five j|].
    split; [reflexivity|]. split; [exact Hlisten|]. split; [no_listen|]. cbn. auto 20. }
  left. split; [intros i Hi; below_five i|].
  split; [reflexivity|]. split; [reflexivity|]. split; [reflexivity|].
  split; [reflexivity|]. split; [|reflexivity].
  intros k Hk. cbn [state_of fst snd]. cbn [indexes set_listening set_server].
  destruct Hk as [<-|[<-|[<-|[]]]].
  - apply ensure_index_keeps, ensure_index_keeps, ensure_index_in.
  - apply ensure_index_keeps, ensure_index_in.
  - apply ensure_index_in.
Qed.

Lemma server_listens_witness :
  listening (state_of (main (booting (unsteady [] []) uri_only))) = Some (JNum 3000)
  /\ outcome_of (main (booting (unsteady [] [None; None; None; Some mongo_down]) uri_only))
     = Exited 1.
Proof.
  split.
  - destruct (server_listens_only_when_initialised "mongodb://db"
                (booting (unsteady [] []) uri_only)
                ltac:(vm_compute; reflexivity) ltac:(discriminate) eq_refl eq_refl)
      as [H|H].
    + apply H.
    + destruct H as (i & e & Hi & He & _). exfalso.
      destruct i as [|[|[|[|[|i]]]]]; discriminate He.
  - destruct (server_listens_only_when_initialised "mongodb://db"
                (booting (unsteady [] [None; None; None; Some mongo_down]) uri_only)
                ltac:(vm_compute; reflexivity) ltac:(discriminate) eq_refl eq_refl)
      as [H|H].
    + destruct H as (Hnone & _). exfalso.
      specialize (Hnone 3%nat ltac:(lia)). discriminate Hnone.
    + destruct H as (i & e & _ & _ & _ & Hexit & _). exact Hexit.
Defined.

(** X13.  Without [MONGODB_URI] (unset, or set to the empty string) the
    process does not start: loading [config/db] throws, before the Redis
    client is created, before any connection is attempted and before the
    server could listen; nothing is logged. *)
Theorem missing_uri_stops_the_process (p : process) :
  or_else (env p !! "MONGODB_URI") EmptyString = EmptyString ->
  main p = (Raised missing_uri, p, []).
Proof.
  intros H. unfold main, config_db_module. run_process.
  destruct (env p !! "MONGODB_URI") as [url|]; [|reflexivity].
  cbn [or_else] in H. destruct (String.eqb url "") eqn:E; [reflexivity|].
  subst url. discriminate E.
Qed.

Lemma missing_uri_witness :
  outcome_of (main (booting (unsteady [] []) bare)) = Raised missing_uri.
Proof.
  rewrite (missing_uri_stops_the_process (booting (unsteady [] []) bare)
             ltac:(vm_compute; reflexivity)).
  reflexivity.
Defined.

(* ===================================================================== *)
(** ** Shutdown *)
(* ===================================================================== *)

(** The run of the SIGINT handler. *)
Lemma on_SIGINT_run p :
  on_SIGINT p
  = let w := server p in
    let p0 := set_server (set_redis_faults (tl (redis_faults w)) w) p in
    let p1 := set_server (set_mongo_faults (tl (mongo_faults w)) (server p0)) p0 in
    let closing := Ev (Log (line_feed +:+ "Cerrando conexiones...")) in
    let failed e := [Ev (LogError "Error al cerrar conexiones:" e); Exit 1] in
    match fault_at 0 (redis_faults w) with
    | Some e => (Exited 1, p0, [closing; Op RedisQuit; Ev (Rejected e)] ++ failed e)
    | None =>
        let quit := [closing; Op RedisQuit; Ev (Fulfilled (JStr "OK"))] in
        match index_db p with
        | None => (Exited 1, p0, quit ++ failed (type_error "client"))
        | Some _ =>
            match fault_at 0 (mongo_faults w) with
            | Some e => (Exited 1, p1, quit ++ [Op ClientClose; Ev (Rejected e)] ++ failed e)
            | None =>
                (Exited 0, p1,
                 quit ++ [Op ClientClose; Ev (Fulfilled JUndefined);
                          Ev (Log "Conexiones cerradas correctamente"); Exit 0])
            end
        end
    end.
Proof.
  unfold on_SIGINT, redis_quit, client_close. run_process. cbv zeta. simpl_process.
  destruct (fault_at 0 (redis_faults (server p))) as [e|]; [reflexivity|].
  simpl_process. destruct (index_db p) as [db|]; [|reflexivity].
  rewrite store_op_eq. cbv zeta. simpl_process.
  destruct (fault_at 0 (mongo_faults (server p))) as [e|]; reflexivity.
Qed.

(** X14.  The SIGINT handler always ends the process: with code 0 exactly
    when Redis acknowledged [quit], the database handle [db] was set and
    the MongoDB client was closed; with code 1 in every other case, the
    error being logged.  When [quit] is rejected the MongoDB client is
    not closed; when the signal comes before [db] is set, Redis is quit
    and the handler fails on [db.client]. *)
Theorem shutdown_exit_code (p : process) :
  let r := on_SIGINT p in
  let clean := match fault_at 0 (redis_faults (server p)), index_db p,
                     fault_at 0 (mongo_faults (server p)) with
               | None, Some _, None => true
               | _, _, _ => false
               end in
  outcome_of r = Exited (if clean then 0 else 1)
  /\ (if clean then errors_logged (events_of r) = []
      else exists e, errors_logged (events_of r) = [("Error al cerrar conexiones:", e)])
  /\ (fault_at 0 (redis_faults (server p)) <> None -> ops_of (events_of r) = [RedisQuit])
  /\ (fault_at 0 (redis_faults (server p)) = None ->
      ops_of (events_of r)
      = match index_db p with
        | Some _ => [RedisQuit; ClientClose]
        | None => [RedisQuit]
        end).
Proof.
  cbv zeta. rewrite on_SIGINT_run. cbv zeta.
  destruct (fault_at 0 (redis_faults (server p))) as [e|].
  { split; [reflexivity|]. split; [eexists; reflexivity|].
    split; [reflexivity|]. intros H; discriminate H. }
  destruct (index_db p) as [db|].
  2:{ split; [reflexivity|]. split; [eexists; reflexivity|].
      split; [intros H; contradiction H; reflexivity | reflexivity]. }
  destruct (fault_at 0 (mongo_faults (server p))) as [e|].
  - split; [reflexivity|]. split; [eexists; reflexivity|].
    split; [intros H; contradiction H; reflexivity | reflexivity].
  - split; [reflexivity|]. split; [reflexivity|].
    split; [intros H; contradiction H; reflexivity | reflexivity].
Qed.

(* ===================================================================== *)
(** ** Every request is answered and timed *)
(* ===================================================================== *)

Ltac answered :=
  eexists; split; [reflexivity|]; split; [cbn [status In]; auto 10|reflexivity].

(** A handler of the cached routes catches whatever is thrown and leaves
    the clock alone. *)
Lemma app_responds req w :
  exists resp,
    result (app req w) = Normal resp
    /\ In (status resp) [200; 201; 404; 500]
    /\ now (final (app req w)) = now w.
Proof.
  destruct (mutating req) eqn:Hm.
  - destruct (mutating_final req w Hm) as [Hnow [H|[H|H]]].
    + destruct H as (_ & _ & e & He). eexists. split; [exact He|]. cbn; auto 10.
    + destruct H as (_ & _ & _ & e & _ & He). eexists. split; [exact He|]. cbn; auto 10.
    + destruct H as (_ & _ & _ & _ & resp & Hr & Hs). exists resp. split; [exact Hr|].
      split; [|exact Hnow]. destruct Hs as [->| ->]; cbn; auto.
  - destruct req as [|body|pid body|pid|query| |]; try discriminate Hm; cbn [app].
    + run_handler. unfold ret, throw, Redis.set. cbv beta iota zeta. simpl_state.
      split_matches; answered.
    + run_handler. unfold ret, throw. cbv beta iota zeta. simpl_state.
      split_matches; answered.
    + run_handler. unfold ret, throw. cbv beta iota zeta. simpl_state.
      split_matches; answered.
Qed.

Lemma handler_responds r p :
  exists resp,
    outcome_of (handler_of r p) = Returned resp
    /\ In (status resp) [200; 201; 404; 500]
    /\ now (server (state_of (handler_of r p))) = now (server p).
Proof.
  destruct r as [req| |id| |]; cbn [handler_of].
  - rewrite lift_eq. destruct (app_responds req (server p)) as (resp & Hr & Hs & Hn).
    exists resp. cbn [outcome_of state_of fst snd server set_server]. rewrite Hr. auto.
  - rewrite lift_eq, get_products_run. cbn [outcome_of state_of fst snd server set_server].
    destruct (fault_at 0 (mongo_faults (server p))); answered.
  - rewrite get_products_id_run. cbv zeta.
    destruct (fault_at 0 (mongo_faults (server p))); [answered|].
    destruct (falsy _); answered.
  - rewrite lift_eq, post_clear_cache_run. cbv zeta.
    cbn [outcome_of state_of fst snd server set_server].
    destruct (fault_at 0 (redis_faults (server p))); answered.
  - rewrite get_health_run. cbv zeta.
    destruct (ping_failure p); [answered|].
    destruct (fault_at 0 (redis_faults (server p))); answered.
Qed.

(** X15.  Each handler of a route ends in a response: it catches
    whatever its collaborators throw, answers with status 200, 201, 404
    or 500, and leaves the clock alone.  The timing middleware, for
    whatever the rest of the chain does before it ends in a response
    (the body parser, the router, the handler), hands on that response
    unchanged and adds one line to the console, after everything else
    and for failed requests too: the path, and the time between the
    arrival of the request and the end of the response.  It changes
    nothing else. *)
Theorem every_request_is_answered_and_timed
  (path : string) (took : Z) (next : Proc response) (p : process) (resp : response) :
  outcome_of (next p) = Returned resp ->
  let served := timeMiddleware path took next p in
  let duration := now (server (state_of (next p))) + took - now (server p) in
  outcome_of served = Returned resp
  /\ events_of served
     = events_of (next p)
       ++ [Ev (Log (path +:+ " - Tiempo: "
                    +:+ string_of_list_ascii (JSON.print_number duration) +:+ "ms"))]
  /\ server (state_of served) = elapse took (server (state_of (next p)))
  /\ forall r : route,
       exists answer,
         outcome_of (handler_of r p) = Returned answer
         /\ In (status answer) [200; 201; 404; 500]
         /\ now (server (state_of (handler_of r p))) = now (server p)
         /\ outcome_of (timeMiddleware path took (handler_of r) p) = Returned answer.
Proof.
  assert (Hwrap : forall (chain : Proc response) (answer : response),
             outcome_of (chain p) = Returned answer ->
             outcome_of (timeMiddleware path took chain p) = Returned answer
             /\ events_of (timeMiddleware path took chain p)
                = events_of (chain p)
                  ++ [Ev (Log (path +:+ " - Tiempo: "
                               +:+ string_of_list_ascii
                                     (JSON.print_number
                                        (now (server (state_of (chain p))) + took
                                         - now (server p)))
                               +:+ "ms"))]
             /\ server (state_of (timeMiddleware path took chain p))
                = elapse took (server (state_of (chain p)))).
  { intros chain answer Hc. unfold timeMiddleware, tick. run_process.
    destruct (chain p) as [[o p1] t]. cbn [outcome_of state_of events_of fst snd] in *.
    subst o. cbn [server set_server elapse now map List.app].
    repeat split; reflexivity. }
  intros Hnext served duration. subst served duration.
  destruct (Hwrap next resp Hnext) as (H1 & H2 & H3).
  split; [exact H1|]. split; [exact H2|]. split; [exact H3|].
  intros r. destruct (handler_responds r p) as (answer & Hr & Hs & Hn).
  exists answer. split; [exact Hr|]. split; [exact Hs|]. split; [exact Hn|].
  apply (Hwrap (handler_of r) answer Hr).
Qed.

Lemma every_request_witness :
  let p := booting (sample [widget] ∅ [] no_acc) bare in
  events_of (timeMiddleware "/products" 7 (handler_of GET_products) p)
  = events_of (handler_of GET_products p) ++ [Ev (Log "/products - Tiempo: 7ms")].
Proof.
  cbv zeta.
  destruct (every_request_is_answered_and_timed "/products" 7 (handler_of GET_products)
              (booting (sample [widget] ∅ [] no_acc) bare)
              (Response 200 (JArr [widget])) eq_refl) as (_ & H & _).
  exact H.
Defined.

(** X16.  The routes that read (the two listings, the lookup by id, the
    search, the statistics, the health check) and /clear-cache never
    write to the collection: whatever the state of the store and of
    Redis, the documents and the ObjectId counter are after the request
    what they were before. *)
Theorem reading_routes_leave_the_collection (r : route) (p : process) :
  changes_collection r = false ->
  products (server (state_of (handler_of r p))) = products (server p)
  /\ next_oid (server (state_of (handler_of r p))) = next_oid (server p).
Proof.
  intros Hr. destruct r as [req| |id| |]; cbn [handler_of changes_collection] in *.
  - rewrite lift_eq. cbn [state_of fst snd server set_server].
    apply reads_keep_collection, Hr.
  - rewrite lift_eq, get_products_run. cbn [state_of fst snd server set_server].
    destruct (fault_at 0 (mongo_faults (server p))); split; reflexivity.
  - rewrite get_products_id_run. cbv zeta.
    destruct (fault_at 0 (mongo_faults (server p))); split; reflexivity.
  - rewrite lift_eq, post_clear_cache_run. cbv zeta.
    cbn [state_of fst snd server set_server].
    destruct (fault_at 0 (redis_faults (server p))); split; reflexivity.
  - rewrite get_health_run. cbv zeta.
    destruct (ping_failure p); [split; reflexivity|].
    destruct (fault_at 0 (redis_faults (server p))); split; reflexivity.
Qed.

Lemma reading_routes_witness :
  products (server (state_of (handler_of (Request GET_products_cached)
                                (booting (sample [widget] ∅ [] no_acc) bare))))
  = [widget].
Proof.
  apply (reading_routes_leave_the_collection (Request GET_products_cached)
           (booting (sample [widget] ∅ [] no_acc) bare)).
  reflexivity.
Defined.

(* ===================================================================== *)
(** ** Populating the collection *)
(* ===================================================================== *)

Lemma remove_absent_prop k ps : has_prop k ps = false -> remove_prop k ps = ps.
Proof.
  unfold has_prop, remove_prop. induction ps as [|[k' v] ps IH]; intros H; [reflexivity|].
  cbn [existsb fst] in H. apply orb_false_iff in H as [Hk Hps].
  cbn [List.filter fst]. rewrite Hk. cbn [negb]. rewrite (IH Hps). reflexivity.
Qed.

(** The documents [insertMany] stores for documents that bring no [_id]:
    each gets the next ObjectId, placed first. *)
Lemma insert_each_stored news :
  Forall (fun doc => has_prop "_id" doc = false) news ->
  forall oid docs ids docs' oid' ids',
    Mongo.insert_each news oid docs ids = (docs', oid', Normal ids') ->
    docs' = docs ++ stored_with oid news
    /\ length ids' = (length ids + length news)%nat.
Proof.
  induction 1 as [|doc news Hdoc Hnews IH]; intros oid docs ids docs' oid' ids' Hrun.
  - cbn in Hrun. injection Hrun as <- <- <-. rewrite app_nil_r. split; [reflexivity|].
    cbn. lia.
  - cbn [Mongo.insert_each] in Hrun. unfold Mongo.insertOne, Mongo.with_id in Hrun.
    rewrite Hdoc in Hrun. destruct (Mongo.id_taken _ docs); [discriminate Hrun|].
    apply IH in Hrun as [-> Hlen]. split.
    + rewrite (remove_absent_prop _ _ Hdoc), <- app_assoc. reflexivity.
    + rewrite length_app in Hlen. cbn [length] in *. lia.
Qed.

Lemma stored_with_length oid news : length (stored_with oid news) = length news.
Proof.
  revert oid. induction news as [|doc news IH]; intros oid; [reflexivity|].
  cbn [stored_with length]. rewrite IH. reflexivity.
Qed.

Lemma stored_with_In oid news d :
  In d (stored_with oid news) ->
  exists doc o, In doc news /\ d = JObj (("_id", JOid (Mongo.oid_hex o)) :: doc).
Proof.
  revert oid. induction news as [|doc news IH]; intros oid H; [destruct H|].
  cbn [stored_with In] in H. destruct H as [<-|H].
  - exists doc, oid. split; [left; reflexivity | reflexivity].
  - destruct (IH _ H) as (doc' & o & Hin & ->). exists doc', o. split; [right; exact Hin|].
    reflexivity.
Qed.

Lemma category_is_listed k : In (nth (k mod 4) categories EmptyString) categories.
Proof.
  apply nth_In. change (length categories) with 4%nat.
  apply Nat.mod_upper_bound. discriminate.
Qed.

(** X17.  When POST /populate answers HTTP 200, exactly 1000 documents
    were appended to the collection, in the order of their names
    [Product 0] to [Product 999], each with an ObjectId as [_id] and a
    category among Electronics, Books, Clothing and Food; the response
    reports an [insertedCount] of 1000 and no listing is cached any
    more. *)
Theorem populate_appends_a_thousand_products (w : world) (resp : response) :
  result (post_populate w) = Normal resp ->
  status resp = 200 ->
  let added := stored_with (next_oid w) (map (testProduct w) (seq 0 1000)) in
  payload resp = JObj [("message", JStr "Database populated successfully");
                       ("insertedCount", JNum 1000)]
  /\ products (final (post_populate w)) = products w ++ added
  /\ length added = 1000%nat
  /\ (forall d, In d added ->
        has_oid d = true /\ In (field "category" d) (map JStr categories))
  /\ (forall i, (i < 1000)%nat ->
        field "name" (nth i added JNull) = JStr ("Product " +:+ decimal i))
  /\ Redis.get "products" (final (post_populate w)) = None.
Proof.
  intros Hres Hstatus added.
  assert (Hlen : length added = 1000%nat).
  { subst added. rewrite stored_with_length, length_map, length_seq. reflexivity. }
  assert (Hrun : payload resp
                 = JObj [("message", JStr "Database populated successfully");
                         ("insertedCount", JNum 1000)]
                 /\ products (final (post_populate w)) = products w ++ added
                 /\ Redis.get "products" (final (post_populate w)) = None).
  { revert Hres. rewrite post_populate_eq. cbv zeta.
    rewrite mutation_handler_eq by apply insertMany_keeps_script. simpl_world.
    destruct (fault_at 0 (mongo_faults w)) as [e|];
      [intros H; injection H as <-; discriminate Hstatus|].
    unfold Mongo.insertMany.
    destruct (Mongo.insert_each (map (testProduct w) (seq 0 1000)) (next_oid w)
                (products w) []) as [[docs' oid'] [ids|e]] eqn:Hins;
      [|intros H; injection H as <-; discriminate Hstatus].
    simpl_world.
    destruct (fault_at 0 (redis_faults w)) as [e|];
      [intros H; injection H as <-; discriminate Hstatus|].
    intros H. injection H as <-.
    apply insert_each_stored in Hins as [-> Hids].
    2:{ apply List.Forall_forall. intros doc Hin. apply in_map_iff in Hin as (i & <- & _).
        apply testProduct_has_no_id. }
    rewrite length_map, length_seq in Hids. cbn [length Nat.add] in Hids.
    cbn [payload field get_prop String.eqb Ascii.eqb Bool.eqb]. rewrite Hids.
    split; [reflexivity|]. split; [reflexivity|].
    cbn [final fst snd]. apply get_deleted. }
  destruct Hrun as (Hpayload & Hproducts & Hcache).
  split; [exact Hpayload|]. split; [exact Hproducts|]. split; [exact Hlen|].
  split; [|split; [|exact Hcache]].
  - intros d Hd. apply stored_with_In in Hd as (doc & o & Hin & ->).
    apply in_map_iff in Hin as (i & <- & _). split; [reflexivity|].
    cbn [field get_prop testProduct String.eqb Ascii.eqb Bool.eqb].
    apply in_map. apply category_is_listed.
  - intros i Hi. subst added.
    assert (Hnth : forall news oid k,
               (k < length news)%nat ->
               exists o, nth k (stored_with oid news) JNull
                         = JObj (("_id", JOid (Mongo.oid_hex o)) :: nth k news [])).
    { induction news as [|doc news IH]; intros oid k Hk; [cbn in Hk; lia|].
      destruct k as [|k]; [exists oid; reflexivity|].
      cbn [stored_with nth]. apply IH. cbn [length] in Hk. lia. }
    destruct (Hnth (map (testProduct w) (seq 0 1000)) (next_oid w) i) as (o & ->).
    { rewrite length_map, length_seq. exact Hi. }
    rewrite (nth_indep _ [] (testProduct w 0%nat))
      by (rewrite length_map, length_seq; exact Hi).
    rewrite map_nth, seq_nth by exact Hi. reflexivity.
Qed.

Lemma populate_witness :
  length (products (final (post_populate (sample [widget] ∅ [] no_acc)))) = 1001%nat.
Proof.
  destruct (populate_appends_a_thousand_products (sample [widget] ∅ [] no_acc)
              (Response 200 (JObj [("message", JStr "Database populated successfully");
                                   ("insertedCount", JNum 1000)])))
    as (_ & Hproducts & Hlen & _).
  - vm_compute. reflexivity.
  - reflexivity.
  - rewrite Hproducts, length_app, Hlen. reflexivity.
Defined.

(* ===================================================================== *)
(** ** The Redis client: options and reconnection *)
(* ===================================================================== *)

Lemma lit_append s1 s2 : JSON.lit (s1 +:+ s2) = JSON.lit s1 ++ JSON.lit s2.
Proof.
  unfold JSON.lit. induction s1 as [|c s1 IH]; [reflexivity|].
  cbn [String.append list_ascii_of_string List.app]. rewrite <- IH. reflexivity.
Qed.

Lemma lit_of_text t : JSON.lit (string_of_list_ascii t) = t.
Proof. apply list_ascii_of_string_of_list_ascii. Qed.

Ltac compare_codes :=
  repeat first
    [ progress cbn [andb orb negb]
    | progress cbv beta iota
    | match goal with
      | |- context [(?a <=? ?b)%N] => destruct (N.leb_spec a b); try lia
      | |- context [(?a <? ?b)%N] => destruct (N.ltb_spec a b); try lia
      | |- context [(?a =? ?b)%N] => destruct (N.eqb_spec a b); try lia
      end ].

Lemma digit_range c : JSON.is_digit c = true -> (48 <= JSON.code c <= 57)%N.
Proof.
  unfold JSON.is_digit. intros H. apply andb_true_iff in H as [H1 H2].
  apply N.leb_le in H1. apply N.leb_le in H2. lia.
Qed.

Lemma radix_digit_decimal c :
  JSON.is_digit c = true -> radix_digit 10 c = Some (JSON.code c - 48)%N.
Proof.
  intros H. apply digit_range in H. unfold radix_digit, JSON.hex_val.
  cbv zeta. compare_codes; reflexivity.
Qed.

Lemma radix_digit_other c : JSON.is_digit c = false -> radix_digit 10 c = None.
Proof.
  unfold JSON.is_digit, radix_digit, JSON.hex_val. cbv zeta. intros H.
  destruct (N.leb_spec 48 (JSON.code c)); destruct (N.leb_spec (JSON.code c) 57);
    try discriminate H; cbn [andb]; compare_codes; reflexivity.
Qed.

Lemma read_radix_digits ds :
  forall rest acc seen,
    Forall (fun c => JSON.is_digit c = true) ds ->
    match rest with [] => True | c :: _ => JSON.is_digit c = false end ->
    ds <> [] \/ seen = true ->
    read_radix 10 (ds ++ rest) acc seen
    = Some (fold_left (fun a c => (10 * a + (JSON.code c - 48))%N) ds acc).
Proof.
  induction ds as [|d ds IH]; intros rest acc seen Hds Hrest Hseen.
  - destruct Hseen as [H|H]; [contradiction H; reflexivity|]. subst seen.
    cbn [List.app fold_left]. destruct rest as [|c rest]; [reflexivity|].
    cbn [read_radix]. rewrite (radix_digit_other c Hrest). reflexivity.
  - cbn [List.app read_radix fold_left].
    rewrite (radix_digit_decimal d (List.Forall_inv Hds)).
    apply IH; [exact (List.Forall_inv_tail Hds) | exact Hrest | right; reflexivity].
Qed.

Lemma natural_nonzero_head a :
  a <> 0%N ->
  exists c t, JSON.natural a = c :: t /\ JSON.is_digit c = true /\ JSON.code c <> 48%N.
Proof.
  intros Ha. unfold JSON.natural.
  pose proof (JSONFacts.unorm_to_uint a) as Hnorm.
  destruct (N.to_uint a) as [|u|u|u|u|u|u|u|u|u|u] eqn:E;
    try (eexists _, _; split; [reflexivity|]; split; [reflexivity|]; vm_compute; discriminate).
  - destruct a; [contradiction Ha; reflexivity|].
    exfalso. exact (DecimalPos.Unsigned.to_uint_nonnil _ E).
  - exfalso. rewrite DecimalFacts.unorm_D0 in Hnorm. unfold unorm in Hnorm.
    destruct (nzhead u) eqn:Hz; try discriminate Hnorm.
    + injection Hnorm as <-. apply Ha. apply DecimalN.Unsigned.to_uint_inj. rewrite E.
      reflexivity.
    + injection Hnorm as <-. exact (DecimalFacts.nzhead_nonzero _ _ Hz).
Qed.

Lemma trim_start_digit c r : JSON.is_digit c = true -> trim_start (c :: r) = c :: r.
Proof.
  intros H. apply digit_range in H. cbn [trim_start]. cbv zeta.
  compare_codes; reflexivity.
Qed.

(** [parseInt] on the decimal digits of a positive integer, whatever
    follows them. *)
Lemma parseInt_digits (a : N) (junk : string) :
  a <> 0%N ->
  match JSON.lit junk with [] => True | c :: _ => JSON.is_digit c = false end ->
  parseInt (string_of_list_ascii (JSON.natural a) +:+ junk) = Some (Z.of_N a).
Proof.
  intros Ha Hjunk. unfold parseInt. rewrite lit_append, lit_of_text.
  pose proof (JSONFacts.natural_digits a) as Hds.
  pose proof (JSONFacts.value_of_natural a) as Hval. unfold JSON.value_of in Hval.
  destruct (natural_nonzero_head a Ha) as (c & t & Hnat & Hc & Hnz).
  rewrite Hnat in *. cbn [List.app]. rewrite (trim_start_digit c _ Hc).
  pose proof (digit_range c Hc) as Hrange.
  assert (Hsign : read_sign (c :: t ++ JSON.lit junk) = (false, c :: t ++ JSON.lit junk)).
  { unfold read_sign. compare_codes; reflexivity. }
  rewrite Hsign.
  assert (Hprefix : read_prefix (c :: t ++ JSON.lit junk) = (10%N, c :: t ++ JSON.lit junk)).
  { unfold read_prefix. compare_codes; reflexivity. }
  rewrite Hprefix.
  change (c :: t ++ JSON.lit junk) with ((c :: t) ++ JSON.lit junk).
  rewrite read_radix_digits; [|exact Hds|exact Hjunk|left; discriminate].
  rewrite Hval. reflexivity.
Qed.

(** X18.  The port of the Redis client.  When [REDIS_PORT] holds the
    decimal digits of a positive integer (one that a [Number] holds
    exactly), followed or not by other text that does not start with a
    digit, the client is given that integer: what follows the digits is
    ignored. *)
Theorem redis_port_reads_the_leading_digits (vars : environment) (n : Z) (junk : string) :
  1 <= n <= 9007199254740992 ->
  match JSON.lit junk with [] => True | c :: _ => JSON.is_digit c = false end ->
  vars !! "REDIS_PORT" = Some (string_of_list_ascii (JSON.natural (Z.to_N n)) +:+ junk) ->
  port (redis_options_of vars) = Some n.
Proof.
  intros Hn Hjunk Hvar. unfold redis_options_of. cbn [port]. rewrite Hvar.
  assert (Ha : Z.to_N n <> 0%N) by lia.
  assert (Hne : or_else (Some (string_of_list_ascii (JSON.natural (Z.to_N n)) +:+ junk)) "6379"
                = string_of_list_ascii (JSON.natural (Z.to_N n)) +:+ junk).
  { destruct (natural_nonzero_head _ Ha) as (c & t & -> & _). reflexivity. }
  rewrite Hne, (parseInt_digits _ junk Ha Hjunk). f_equal. lia.
Qed.

Lemma redis_port_witness :
  port (redis_options_of {[ "REDIS_PORT" := "6380/tcp" ]}) = Some 6380.
Proof.
  apply (redis_port_reads_the_leading_digits {[ "REDIS_PORT" := "6380/tcp" ]} 6380 "/tcp");
    [lia | reflexivity | vm_compute; reflexivity].
Defined.

(** X19.  The defaults of the Redis client.  [REDIS_HOST] and
    [REDIS_PORT] count as missing when unset and also when set to the
    empty string: the host is then [localhost] and the port 6379.  A
    [REDIS_PORT] that starts with a visible ASCII character other than a
    digit or a sign is not replaced by the default: the port is [NaN]. *)
Theorem redis_defaults_apply_to_unset_and_empty (vars : environment) :
  (or_else (vars !! "REDIS_HOST") EmptyString = EmptyString ->
   host (redis_options_of vars) = "localhost")
  /\ (or_else (vars !! "REDIS_PORT") EmptyString = EmptyString ->
      port (redis_options_of vars) = Some 6379)
  /\ (forall c rest,
        vars !! "REDIS_PORT" = Some (String c rest) ->
        (33 <= JSON.code c < 128)%N ->
        JSON.is_digit c = false -> JSON.code c <> 43%N -> JSON.code c <> 45%N ->
        port (redis_options_of vars) = None)
  /\ password (redis_options_of vars) = vars !! "REDIS_PASSWORD".
Proof.
  unfold redis_options_of. cbn [host port password].
  split; [|split; [|split; [|reflexivity]]].
  - destruct (vars !! "REDIS_HOST") as [s|]; [|reflexivity]. cbn [or_else].
    destruct (String.eqb s "") eqn:E; [reflexivity|]. intros ->. discriminate E.
  - destruct (vars !! "REDIS_PORT") as [s|]; [|reflexivity]. cbn [or_else].
    destruct (String.eqb s "") eqn:E; [reflexivity|]. intros ->. discriminate E.
  - intros c rest -> Hrange Hdigit Hplus Hminus. cbn [or_else String.eqb].
    unfold parseInt. change (JSON.lit (String c rest)) with (c :: JSON.lit rest).
    assert (Htrim : trim_start (c :: JSON.lit rest) = c :: JSON.lit rest).
    { cbn [trim_start]. cbv zeta. compare_codes; reflexivity. }
    rewrite Htrim.
    assert (Hsign : read_sign (c :: JSON.lit rest) = (false, c :: JSON.lit rest)).
    { unfold read_sign. compare_codes; reflexivity. }
    rewrite Hsign.
    assert (Hprefix : read_prefix (c :: JSON.lit rest) = (10%N, c :: JSON.lit rest)).
    { unfold read_prefix. unfold JSON.is_digit in Hdigit.
      destruct (N.eqb_spec (JSON.code c) 48) as [E|E]; [|reflexivity].
      rewrite E in Hdigit. discriminate Hdigit. }
    rewrite Hprefix. cbn [read_radix]. rewrite (radix_digit_other c Hdigit). reflexivity.
Qed.

Lemma total_snoc l x : total (l ++ [x]) = total l + x.
Proof.
  unfold total. induction l as [|y l IH]; cbn [List.app fold_right]; [lia|].
  rewrite IH. lia.
Qed.

Lemma retry_schedule_S n :
  retry_schedule (S n) = retry_schedule n ++ [retryStrategy (Z.of_nat (S n))].
Proof. unfold retry_schedule. rewrite seq_S, map_app. reflexivity. Qed.

(** X20.  The reconnection delays of the Redis client.  The strategy
    always answers a delay, so ioredis never stops trying to reconnect;
    the delay before attempt [k] is 50 ms times [k], capped at 2000 ms
    from the 40th attempt on.  Before its [n]-th attempt in a row the
    client has thus waited 25 n (n + 1) ms in all when [n <= 40], and
    41000 + 2000 (n - 40) ms beyond. *)
Theorem retry_delays_grow_to_two_seconds (n : nat) :
  Forall (fun d => 50 <= d <= 2000) (retry_schedule n)
  /\ (forall k, (k < n)%nat ->
        nth k (retry_schedule n) 0
        = if (k <? 40)%nat then 50 * (Z.of_nat k + 1) else 2000)
  /\ total (retry_schedule n)
     = if (n <=? 40)%nat then 25 * Z.of_nat n * (Z.of_nat n + 1)
       else 41000 + 2000 * (Z.of_nat n - 40).
Proof.
  split; [|split].
  - unfold retry_schedule. apply List.Forall_forall. intros d Hd.
    apply in_map_iff in Hd as (k & <- & Hk). apply in_seq in Hk.
    unfold retryStrategy. lia.
  - intros k Hk. unfold retry_schedule.
    rewrite (nth_indep _ 0 (retryStrategy (Z.of_nat 0))) by (rewrite length_map, length_seq; lia).
    rewrite (map_nth (fun i => retryStrategy (Z.of_nat i))), seq_nth by lia.
    unfold retryStrategy. destruct (Nat.ltb_spec k 40); lia.
  - induction n as [|n IH]; [reflexivity|].
    rewrite retry_schedule_S, total_snoc, IH. unfold retryStrategy.
    destruct (Nat.leb_spec n 40); destruct (Nat.leb_spec (S n) 40); try lia.
    assert (n = 40%nat) by lia. subst n. reflexivity.
Qed.

(* ===================================================================== *)
(** ** Updating and deleting by id *)
(* ===================================================================== *)

Lemma get_set_prop_same k v ps : get_prop k (set_prop k v ps) = v.
Proof.
  induction ps as [|[k' v'] ps IH]; cbn [set_prop get_prop].
  - rewrite String.eqb_refl. reflexivity.
  - destruct (String.eqb k k') eqn:E; cbn [get_prop]; rewrite E; [reflexivity | exact IH].
Qed.

Lemma get_set_prop_other k k' v ps :
  String.eqb k k' = false -> get_prop k (set_prop k' v ps) = get_prop k ps.
Proof.
  intros Hk. induction ps as [|[k0 v0] ps IH]; cbn [set_prop get_prop].
  - rewrite Hk. reflexivity.
  - destruct (String.eqb k' k0) eqn:E; cbn [get_prop].
    + apply String.eqb_eq in E. subst k0. rewrite Hk. reflexivity.
    + destruct (String.eqb k k0); [reflexivity | exact IH].
Qed.

(** The properties of a document after [$set]: those named in the update
    hold the value given (the last one given, for a name given twice),
    the others are untouched. *)
Lemma get_prop_after_set k set :
  forall ps,
    get_prop k (fold_left (fun acc p => set_prop (fst p) (snd p) acc) set ps)
    = if has_prop k set then get_prop k (List.rev set) else get_prop k ps.
Proof.
  induction set as [|[k' v] set IH]; intros ps; [reflexivity|].
  cbn [fold_left fst snd]. rewrite IH. unfold has_prop. cbn [existsb fst List.rev].
  fold (has_prop k set).
  assert (Hrev : forall l tail,
             get_prop k (l ++ tail) = if has_prop k l then get_prop k l else get_prop k tail).
  { induction l as [|[k0 v0] l IHl]; intros tail; [reflexivity|].
    cbn [List.app get_prop]. unfold has_prop. cbn [existsb fst]. fold (has_prop k l).
    destruct (String.eqb k k0); [reflexivity | apply IHl]. }
  assert (Hhas : has_prop k (List.rev set) = has_prop k set).
  { unfold has_prop. rewrite !existsb_forallb_negb. f_equal.
    apply eq_true_iff_eq. rewrite !forallb_forall. split; intros H x Hx; apply H.
    - apply in_rev. rewrite rev_involutive. exact Hx.
    - apply in_rev in Hx. exact Hx. }
  rewrite Hrev, Hhas.
  destruct (has_prop k set); [destruct (String.eqb k k'); reflexivity|].
  cbn [get_prop]. destruct (String.eqb k k') eqn:E.
  - apply String.eqb_eq in E. subst k'. apply get_set_prop_same.
  - apply get_set_prop_other, E.
Qed.

Lemma updateOne_first_match q set before d after :
  forallb (fun x => negb (Mongo.matches q x)) before = true ->
  Mongo.matches q d = true ->
  Mongo.updateOne q set (before ++ d :: after)
  = let d' := Mongo.apply_set set d in
    if jsval_eqb (field "_id" d') (field "_id" d)
    then Normal (before ++ d' :: after,
                 Mongo.update_result 1 (if jsval_eqb d' d then 0 else 1))
    else Throw Mongo.immutable_id.
Proof.
  intros Hb Hd. induction before as [|x before IH]; cbn [List.app Mongo.updateOne].
  - rewrite Hd. reflexivity.
  - cbn [forallb] in Hb. apply andb_true_iff in Hb as [Hx Hb].
    apply negb_true_iff in Hx. rewrite Hx, (IH Hb). cbv zeta.
    destruct (jsval_eqb _ _); reflexivity.
Qed.

Lemma deleteOne_first_match q before d after :
  forallb (fun x => negb (Mongo.matches q x)) before = true ->
  Mongo.matches q d = true ->
  Mongo.deleteOne q (before ++ d :: after) = (before ++ after, Mongo.delete_result 1).
Proof.
  intros Hb Hd. induction before as [|x before IH]; cbn [List.app Mongo.deleteOne].
  - rewrite Hd. reflexivity.
  - cbn [forallb] in Hb. apply andb_true_iff in Hb as [Hx Hb].
    apply negb_true_iff in Hx. rewrite Hx, (IH Hb). reflexivity.
Qed.

Lemma jsval_eqb_refl_str s : jsval_eqb (JStr s) (JStr s) = true.
Proof. cbn [jsval_eqb]. apply String.eqb_refl. Qed.

(** X21.  PUT /products/:id on a product whose [_id] is the string of
    the URL, the collaborators answering, with a body that is not empty
    and whose property names are field names (no dot, no dollar sign at
    the start).  When the body leaves [_id] as it is, the response is
    HTTP 200 with a matched count of 1, the first such document is
    patched where it stands, and GET /products/:id then returns the
    patched document: each property named in the body holds the value
    given, every other property is as before.  When the body gives
    another [_id], the response is HTTP 500 and the collection and the
    cache are as before. *)
Theorem update_is_read_back
  (id : string) (body : props) (p : process) (before after : list jsval) (d : jsval) :
  products (server p) = before ++ d :: after ->
  forallb (fun x => negb (jsval_eqb (field "_id" x) (JStr id))) before = true ->
  field "_id" d = JStr id ->
  body <> [] ->
  forallb plain_name (map fst body) = true ->
  fault_at 0 (mongo_faults (server p)) = None ->
  fault_at 0 (redis_faults (server p)) = None ->
  fault_at 1 (mongo_faults (server p)) = None ->
  let updated := handler_of (Request (PUT_products_id id body)) p in
  let read := handler_of (GET_products_id id) (state_of updated) in
  if negb (has_prop "_id" body) || jsval_eqb (get_prop "_id" (List.rev body)) (JStr id)
  then exists patched modified,
         outcome_of updated = Returned (Response 200 (Mongo.update_result 1 modified))
         /\ (modified = 0 \/ modified = 1)
         /\ products (server (state_of updated)) = before ++ patched :: after
         /\ outcome_of read = Returned (Response 200 patched)
         /\ (forall k, field k patched
                       = if has_prop k body then get_prop k (List.rev body) else field k d)
  else outcome_of updated = Returned (Response 500 (error_payload Mongo.immutable_id))
       /\ products (server (state_of updated)) = products (server p)
       /\ keyspace (server (state_of updated)) = keyspace (server p).
Proof.
  intros Hp Hb Hd _ _ Hm0 Hr0 Hm1 updated read. subst updated read.
  assert (Hmatch : Mongo.matches (Mongo.QIdEq id) d = true) by (apply matches_id, Hd).
  assert (Hfield : forall k, field k (Mongo.apply_set body d)
                             = if has_prop k body then get_prop k (List.rev body)
                               else field k d).
  { intros k. destruct d as [| | | | | | | |ps]; try discriminate Hd.
    cbn [Mongo.apply_set field]. apply get_prop_after_set. }
  assert (Hid : jsval_eqb (field "_id" (Mongo.apply_set body d)) (JStr id)
                = negb (has_prop "_id" body)
                  || jsval_eqb (get_prop "_id" (List.rev body)) (JStr id)).
  { rewrite Hfield. destruct (has_prop "_id" body); [reflexivity|].
    rewrite Hd. cbn [negb orb jsval_eqb]. apply String.eqb_refl. }
  cbn [handler_of app]. rewrite lift_eq, put_products_id_eq.
  rewrite mutation_handler_eq by apply updateOne_keeps_script.
  rewrite Hm0, Hr0. simpl_world. rewrite Hp.
  rewrite (updateOne_first_match (Mongo.QIdEq id) body before d after Hb Hmatch). cbv zeta.
  rewrite Hd, <- Hid.
  destruct (jsval_eqb (field "_id" (Mongo.apply_set body d)) (JStr id)) eqn:E.
  - unfold Redis.del. cbn [outcome_of state_of result final fst snd]. simpl_process.
    exists (Mongo.apply_set body d). eexists.
    split; [reflexivity|]. split; [destruct (jsval_eqb _ d); auto|].
    split; [reflexivity|]. split; [|exact Hfield].
    rewrite get_products_id_run. cbv zeta. simpl_process. rewrite fault_at_tl, Hm1.
    rewrite (filter_first (Mongo.matches (Mongo.QIdEq id)) before _ after Hb E).
    cbn [nth]. rewrite (matching_document_is_truthy id _ E). reflexivity.
  - cbn [outcome_of state_of result final fst snd]. simpl_process.
    rewrite Hp. repeat split; reflexivity.
Qed.

Lemma update_is_read_back_witness :
  let p := booting (sample [widget; gadget] (cached [widget; gadget]) [] no_acc) bare in
  exists patched,
    outcome_of (handler_of (GET_products_id "p2")
                  (state_of (handler_of
                               (Request (PUT_products_id "p2" [("price", JNum 25)])) p)))
    = Returned (Response 200 patched)
    /\ field "price" patched = JNum 25
    /\ field "name" patched = JStr "abc".
Proof.
  cbv zeta.
  pose proof (update_is_read_back "p2" [("price", JNum 25)]
                (booting (sample [widget; gadget] (cached [widget; gadget]) [] no_acc) bare)
                [widget] [] gadget eq_refl eq_refl eq_refl ltac:(discriminate) eq_refl
                eq_refl eq_refl eq_refl) as H.
  cbv zeta in H. cbn [has_prop existsb negb orb String.eqb Ascii.eqb Bool.eqb fst] in H.
  destruct H as (patched & modified & _ & _ & _ & Hread & Hfield).
  exists patched. split; [exact Hread|]. split; [apply (Hfield "price") | apply (Hfield "name")].
Defined.

(** X22.  DELETE /products/:id on a product whose [_id] is the string of
    the URL and is held by no other document, the collaborators
    answering: the response is HTTP 200 with a deleted count of 1, the
    document is removed and the others keep their order, and GET
    /products/:id then answers HTTP 404. *)
Theorem deleted_product_is_gone
  (id : string) (p : process) (before after : list jsval) (d : jsval) :
  products (server p) = before ++ d :: after ->
  forallb (fun x => negb (jsval_eqb (field "_id" x) (JStr id))) (before ++ after) = true ->
  field "_id" d = JStr id ->
  fault_at 0 (mongo_faults (server p)) = None ->
  fault_at 0 (redis_faults (server p)) = None ->
  fault_at 1 (mongo_faults (server p)) = None ->
  let deleted := handler_of (Request (DELETE_products_id id)) p in
  outcome_of deleted = Returned (Response 200 (Mongo.delete_result 1))
  /\ products (server (state_of deleted)) = before ++ after
  /\ outcome_of (handler_of (GET_products_id id) (state_of deleted))
     = Returned (Response 404 (JObj [("message", JStr "Producto no encontrado")])).
Proof.
  intros Hp Hothers Hd Hm0 Hr0 Hm1 deleted. subst deleted.
  assert (Hmatch : Mongo.matches (Mongo.QIdEq id) d = true) by (apply matches_id, Hd).
  assert (Hb : forallb (fun x => negb (jsval_eqb (field "_id" x) (JStr id))) before = true).
  { rewrite forallb_app in Hothers. apply andb_true_iff in Hothers as [H _]. exact H. }
  cbn [handler_of app]. rewrite lift_eq, delete_products_id_eq.
  rewrite mutation_handler_eq by apply deleteOne_keeps_script.
  rewrite Hm0, Hr0. simpl_world. rewrite Hp.
  rewrite (deleteOne_first_match (Mongo.QIdEq id) before d after Hb Hmatch).
  unfold Redis.del. cbn [outcome_of state_of result final fst snd]. simpl_process.
  split; [reflexivity|]. split; [reflexivity|].
  rewrite get_products_id_run. cbv zeta. simpl_process. rewrite fault_at_tl, Hm1.
  rewrite (filter_none (Mongo.matches (Mongo.QIdEq id)) _ Hothers). reflexivity.
Qed.

Lemma deleted_product_witness :
  let p := booting (sample [widget; gadget] ∅ [] no_acc) bare in
  outcome_of (handler_of (GET_products_id "p1")
                (state_of (handler_of (Request (DELETE_products_id "p1")) p)))
  = Returned (Response 404 (JObj [("message", JStr "Producto no encontrado")])).
Proof.
  apply (deleted_product_is_gone "p1" (booting (sample [widget; gadget] ∅ [] no_acc) bare)
           [] [gadget] widget);
    reflexivity.
Defined.

(* ===================================================================== *)
(** ** Failures are logged and reported *)
(* ===================================================================== *)

Lemma errors_logged_lift t : errors_logged (map Ev t) = logged t.
Proof.
  unfold errors_logged, logged. induction t as [|e t IH]; [reflexivity|].
  cbn [map flat_map]. rewrite IH. reflexivity.
Qed.

Ltac reported_now :=
  eexists; split; [reflexivity|]; unfold reported; cbn [status Z.eqb Pos.eqb];
  first [reflexivity | eexists; split; reflexivity].

Lemma mutation_reported (c : call) (run : world -> completion jsval * world)
  (resp : jsval -> response) (label : string) (w : world) :
  (forall w0, redis_faults (snd (run w0)) = redis_faults w0) ->
  (forall a, status (resp a) = 200 \/ status (resp a) = 201) ->
  let r := try_catch (result ← mongo_call c run id; redis_del "products";;
                      ret (resp result)) (fail_with label) w in
  exists answer, result r = Normal answer /\ reported label answer (logged (trace r)).
Proof.
  intros Hrun Hresp r. subst r. rewrite (mutation_handler_eq c run resp label w Hrun).
  destruct (fault_at 0 (mongo_faults w)) as [e|]; [reported_now|].
  destruct (run (set_mongo_faults (tl (mongo_faults w)) w)) as [[a|e] w1]; [|reported_now].
  destruct (fault_at 0 (redis_faults w)) as [e|]; [reported_now|].
  eexists. split; [reflexivity|]. unfold reported.
  destruct (Hresp a) as [-> | ->]; reflexivity.
Qed.

Lemma app_reported req w :
  exists resp,
    result (app req w) = Normal resp
    /\ reported (label_of (Request req)) resp (logged (trace (app req w))).
Proof.
  destruct req as [|body|pid body|pid|query| |]; cbn [app label_of].
  - run_handler. unfold ret, throw, Redis.set. cbv beta iota zeta. simpl_state.
    split_matches; reported_now.
  - rewrite post_products_eq.
    apply mutation_reported; [apply insertOne_keeps_script | cbn; auto].
  - rewrite put_products_id_eq.
    apply mutation_reported; [apply updateOne_keeps_script | cbn; auto].
  - rewrite delete_products_id_eq.
    apply mutation_reported; [apply deleteOne_keeps_script | cbn; auto].
  - run_handler. unfold ret, throw. cbv beta iota zeta. simpl_state.
    split_matches; reported_now.
  - run_handler. unfold ret, throw. cbv beta iota zeta. simpl_state.
    split_matches; reported_now.
  - rewrite post_populate_eq. cbv zeta.
    apply mutation_reported; [apply insertMany_keeps_script | cbn; auto].
Qed.

(** X23.  Failures are logged once and reported.  For every route but
    /health: when the response is HTTP 500, the console shows exactly one
    error, under the label of the route, and the payload of the response
    is [{ error: message }] with the message of that error; when the
    status is another one, no error was logged.  /health logs no error,
    whatever happens. *)
Theorem failures_are_logged_and_reported (r : route) (p : process) :
  exists resp,
    outcome_of (handler_of r p) = Returned resp
    /\ match r with
       | GET_health => errors_logged (events_of (handler_of r p)) = []
       | _ => reported (label_of r) resp (errors_logged (events_of (handler_of r p)))
       end.
Proof.
  destruct r as [req| |id| |]; cbn [handler_of].
  - rewrite lift_eq. cbn [outcome_of events_of fst snd]. rewrite errors_logged_lift.
    destruct (app_reported req (server p)) as (resp & -> & Hr). exists resp. auto.
  - rewrite lift_eq, get_products_run. cbn [label_of].
    destruct (fault_at 0 (mongo_faults (server p))); reported_now.
  - rewrite get_products_id_run. cbv zeta. cbn [label_of].
    destruct (fault_at 0 (mongo_faults (server p))); [reported_now|].
    destruct (falsy _); reported_now.
  - rewrite lift_eq, post_clear_cache_run. cbv zeta. cbn [label_of].
    destruct (fault_at 0 (redis_faults (server p))); reported_now.
  - rewrite get_health_run. cbv zeta.
    destruct (ping_failure p); [eexists; split; reflexivity|].
    destruct (fault_at 0 (redis_faults (server p))); eexists; split; reflexivity.
Qed.

(* ===================================================================== *)
(** ** The routing table *)
(* ===================================================================== *)

Lemma match_pieces_length ps :
  forall segs raw, match_pieces ps segs = Some raw -> length segs = length ps.
Proof.
  induction ps as [|[t|n] ps IH]; intros [|seg segs] raw H; cbn [match_pieces] in H;
    try discriminate H; [reflexivity| |].
  - destruct (ci_eqb (JSON.lit t) seg); [|discriminate H].
    cbn [length]. f_equal. exact (IH _ _ H).
  - destruct seg; [discriminate H|].
    destruct (match_pieces ps segs) as [raw'|] eqn:E; [|discriminate H].
    cbn [length]. f_equal. exact (IH _ _ E).
Qed.

Lemma ci_eqb_lower a :
  forall b, ci_eqb a b = true -> map Regex.lower a = map Regex.lower b.
Proof.
  induction a as [|x a IH]; intros [|y b] H; cbn [ci_eqb] in H; try discriminate H;
    [reflexivity|].
  apply andb_true_iff in H as [Hx Hab]. apply Ascii.eqb_eq in Hx.
  cbn [map]. rewrite Hx, (IH b Hab). reflexivity.
Qed.

Lemma lengths_agree ps1 ps2 segs :
  match_pieces ps1 segs <> None -> match_pieces ps2 segs <> None ->
  length ps1 = length ps2.
Proof.
  intros H1 H2.
  destruct (match_pieces ps1 segs) as [r1|] eqn:E1; [|contradiction H1; reflexivity].
  destruct (match_pieces ps2 segs) as [r2|] eqn:E2; [|contradiction H2; reflexivity].
  rewrite <- (match_pieces_length _ _ _ E1), <- (match_pieces_length _ _ _ E2). reflexivity.
Qed.

Lemma literals_agree t1 t2 segs :
  match_pieces [Literal t1] segs <> None -> match_pieces [Literal t2] segs <> None ->
  map Regex.lower (JSON.lit t1) = map Regex.lower (JSON.lit t2).
Proof.
  destruct segs as [|seg segs]; cbn [match_pieces]; [intros H; contradiction H; reflexivity|].
  destruct (ci_eqb (JSON.lit t1) seg) eqn:E1; [|intros H; contradiction H; reflexivity].
  destruct (ci_eqb (JSON.lit t2) seg) eqn:E2; [|intros _ H; contradiction H; reflexivity].
  intros _ _. rewrite (ci_eqb_lower _ _ E1), (ci_eqb_lower _ _ E2). reflexivity.
Qed.

Ltac each_layer H :=
  cbn [router In] in H;
  repeat (destruct H as [H|H]; [subst|]); [..|destruct H].

(** Two routes whose paths match the same request have the same path. *)
Lemma router_paths_disjoint l1 l2 segs :
  In l1 router -> In l2 router ->
  match_pieces (layer_path l1) segs <> None ->
  match_pieces (layer_path l2) segs <> None ->
  layer_path l1 = layer_path l2.
Proof.
  intros H1 H2 M1 M2. each_layer H1; each_layer H2; cbn [layer_path] in *;
    try reflexivity; exfalso;
    first [ pose proof (lengths_agree _ _ _ M1 M2) as Hlen; discriminate Hlen
          | pose proof (literals_agree _ _ _ M1 M2) as Hlit; vm_compute in Hlit;
            discriminate Hlit ].
Qed.

(** A path and a method name at most one route. *)
Lemma router_methods_disjoint l1 l2 v :
  In l1 router -> In l2 router ->
  layer_path l1 = layer_path l2 ->
  handles l1 v = true -> handles l2 v = true ->
  l1 = l2.
Proof.
  intros H1 H2 Hp V1 V2. each_layer H1; each_layer H2; cbn [layer_path] in Hp;
    try reflexivity; try discriminate Hp;
    destruct v; discriminate.
Qed.

Lemma match_path_disjoint l1 l2 path :
  In l1 router -> In l2 router ->
  match_path (layer_path l1) path <> None ->
  match_path (layer_path l2) path <> None ->
  layer_path l1 = layer_path l2.
Proof.
  unfold match_path. intros H1 H2 M1 M2.
  destruct (segments path) as [segs|]; [|contradiction M1; reflexivity].
  exact (router_paths_disjoint l1 l2 segs H1 H2 M1 M2).
Qed.

(** A table without overlap hands a request to the one layer that
    matches it, wherever that layer stands. *)
Lemma dispatch_in_served (decode : JSON.text -> option string) table v path body :
  (forall l1 l2, In l1 table -> In l2 table ->
                 match_path (layer_path l1) path <> None ->
                 match_path (layer_path l2) path <> None ->
                 layer_path l1 = layer_path l2) ->
  (forall l1 l2, In l1 table -> In l2 table -> layer_path l1 = layer_path l2 ->
                 handles l1 v = true -> handles l2 v = true -> l1 = l2) ->
  forall l raw params,
    In l table -> handles l v = true ->
    match_path (layer_path l) path = Some raw ->
    decode_params decode raw = Some params ->
    dispatch_in decode table v path body = Served (layer_route l params body).
Proof.
  induction table as [|h table IH]; intros Hpaths Hverbs l raw params Hin Hv Hm Hd;
    [destruct Hin|].
  assert (Hrest : dispatch_in decode table v path body = Served (layer_route l params body)
                  \/ h = l).
  { destruct Hin as [->|Hin]; [right; reflexivity|]. left.
    apply (IH ltac:(intros; apply Hpaths; auto using in_cons)
              ltac:(intros; apply Hverbs; auto using in_cons) l raw params);
      assumption. }
  cbn [dispatch_in].
  destruct (match_path (layer_path h) path) as [raw'|] eqn:Eh.
  - assert (Hsame : layer_path h = layer_path l).
    { apply Hpaths; [left; reflexivity | exact Hin | rewrite Eh; discriminate
                    | rewrite Hm; discriminate]. }
    rewrite Hsame, Hm in Eh. injection Eh as <-. rewrite Hd.
    destruct (handles h v) eqn:Vh.
    + rewrite (Hverbs h l ltac:(left; reflexivity) Hin Hsame Vh Hv). reflexivity.
    + destruct Hrest as [Hrest|Heq]; [exact Hrest|]. subst h. rewrite Hv in Vh.
      discriminate Vh.
  - destruct Hrest as [Hrest|Heq]; [exact Hrest|]. subst h. rewrite Hm in Eh.
    discriminate Eh.
Qed.

Lemma dispatch_in_origin (decode : JSON.text -> option string) table v path body r :
  dispatch_in decode table v path body = Served r ->
  exists l raw params,
    In l table /\ handles l v = true
    /\ match_path (layer_path l) path = Some raw
    /\ decode_params decode raw = Some params
    /\ r = layer_route l params body.
Proof.
  induction table as [|h table IH]; cbn [dispatch_in]; [discriminate|].
  destruct (match_path (layer_path h) path) as [raw|] eqn:Eh.
  - destruct (decode_params decode raw) as [params|] eqn:Ed; [|discriminate].
    destruct (handles h v) eqn:Vh.
    + intros H. injection H as <-. exists h, raw, params. auto using in_eq.
    + intros H. destruct (IH H) as (l & raw' & params' & Hin & Hrest).
      exists l, raw', params'. auto using in_cons.
  - intros H. destruct (IH H) as (l & raw' & params' & Hin & Hrest).
    exists l, raw', params'. auto using in_cons.
Qed.

(** X24.  The routing table has no overlap: for a method and a path, at
    most one of the eleven routes matches, so that the order in which
    [index.js] registers them decides nothing.  A request is served by a
    route exactly when that route handles the method, its path matches
    and the parameters can be decoded; in particular the search route,
    registered after /products/:id, is not hidden by it. *)
Theorem routing_is_unambiguous
  (decode : JSON.text -> option string) (v : verb) (path : JSON.text) (body : props) :
  (forall l1 l2,
     In l1 router -> In l2 router ->
     handles l1 v = true -> handles l2 v = true ->
     match_path (layer_path l1) path <> None ->
     match_path (layer_path l2) path <> None ->
     l1 = l2)
  /\ (forall r,
        dispatch decode v path body = Served r
        <-> exists l raw params,
              In l router /\ handles l v = true
              /\ match_path (layer_path l) path = Some raw
              /\ decode_params decode raw = Some params
              /\ r = layer_route l params body).
Proof.
  split.
  - intros l1 l2 H1 H2 V1 V2 M1 M2.
    apply (router_methods_disjoint l1 l2 v H1 H2); [|exact V1|exact V2].
    exact (match_path_disjoint l1 l2 path H1 H2 M1 M2).
  - intros r. split; [apply dispatch_in_origin|].
    intros (l & raw & params & Hin & Hv & Hm & Hd & ->).
    apply (dispatch_in_served decode router v path body
             ltac:(intros l1 l2; apply match_path_disjoint)
             ltac:(intros l1 l2; apply router_methods_disjoint) l raw params);
      assumption.
Qed.

Lemma split_path_nonempty s : split_path s <> [].
Proof.
  destruct s as [|c r]; cbn [split_path]; [discriminate|].
  destruct (JSON.code c =? 47)%N; [discriminate|].
  destruct (split_path r); discriminate.
Qed.

Lemma split_path_segment seg rest :
  forallb (fun c => negb (JSON.code c =? 47)%N) seg = true ->
  split_path (seg ++ JSON.chr 47 :: rest) = seg :: split_path rest.
Proof.
  induction seg as [|c seg IH]; intros H; [reflexivity|].
  cbn [forallb] in H. apply andb_true_iff in H as [Hc Hseg]. apply negb_true_iff in Hc.
  cbn [List.app split_path]. rewrite Hc, (IH Hseg). reflexivity.
Qed.

Lemma split_path_last seg :
  forallb (fun c => negb (JSON.code c =? 47)%N) seg = true -> split_path seg = [seg].
Proof.
  induction seg as [|c seg IH]; intros H; [reflexivity|].
  cbn [forallb] in H. apply andb_true_iff in H as [Hc Hseg]. apply negb_true_iff in Hc.
  cbn [split_path]. rewrite Hc, (IH Hseg). reflexivity.
Qed.

(** The segments of a path of two pieces, and of three, with or without
    a slash at the end. *)
Lemma segments_two a b (trailing : bool) :
  forallb (fun c => negb (JSON.code c =? 47)%N) a = true ->
  forallb (fun c => negb (JSON.code c =? 47)%N) b = true ->
  b <> [] ->
  segments (JSON.chr 47 :: a ++ JSON.chr 47 :: b ++ (if trailing then [JSON.chr 47] else []))
  = Some [a; b].
Proof.
  intros Ha Hb Hne. unfold segments.
  change (JSON.chr 47 :: a ++ JSON.chr 47 :: b ++ (if trailing then [JSON.chr 47] else []))
    with ([] ++ JSON.chr 47 :: a ++ JSON.chr 47 :: b
             ++ (if trailing then [JSON.chr 47] else [])).
  rewrite (split_path_segment []) by reflexivity. rewrite (split_path_segment a) by exact Ha.
  destruct trailing.
  - rewrite (split_path_segment b) by exact Hb. reflexivity.
  - rewrite app_nil_r, (split_path_last b) by exact Hb.
    destruct b; [contradiction Hne; reflexivity|]. reflexivity.
Qed.

Lemma segments_three a b c (trailing : bool) :
  forallb (fun x => negb (JSON.code x =? 47)%N) a = true ->
  forallb (fun x => negb (JSON.code x =? 47)%N) b = true ->
  forallb (fun x => negb (JSON.code x =? 47)%N) c = true ->
  c <> [] ->
  segments (JSON.chr 47 :: a ++ JSON.chr 47 :: b ++ JSON.chr 47 :: c
              ++ (if trailing then [JSON.chr 47] else []))
  = Some [a; b; c].
Proof.
  intros Ha Hb Hc Hne. unfold segments.
  change (JSON.chr 47 :: a ++ JSON.chr 47 :: b ++ JSON.chr 47 :: c
            ++ (if trailing then [JSON.chr 47] else []))
    with ([] ++ JSON.chr 47 :: a ++ JSON.chr 47 :: b ++ JSON.chr 47 :: c
             ++ (if trailing then [JSON.chr 47] else [])).
  rewrite (split_path_segment []) by reflexivity. rewrite (split_path_segment a) by exact Ha.
  rewrite (split_path_segment b) by exact Hb.
  destruct trailing.
  - rewrite (split_path_segment c) by exact Hc. reflexivity.
  - rewrite app_nil_r, (split_path_last c) by exact Hc.
    destruct c; [contradiction Hne; reflexivity|]. reflexivity.
Qed.

Ltac walk_table :=
  unfold dispatch, router; cbn [dispatch_in layer_path layer_route];
  unfold match_path.

(** The table walked for a path of two segments under /products, and
    for one of three under /products/search. *)
Lemma dispatch_two (decode : JSON.text -> option string) v raw value body (trailing : bool) :
  raw <> [] ->
  forallb (fun c => negb (JSON.code c =? 47)%N) raw = true ->
  decode raw = Some value ->
  dispatch decode v
    (JSON.lit "/products/" ++ raw ++ (if trailing then [JSON.chr 47] else [])) body
  = match v with
    | GET | HEAD => Served (GET_products_id value)
    | PUT => Served (Request (PUT_products_id value body))
    | DELETE => Served (Request (DELETE_products_id value))
    | POST => Not_found
    end.
Proof.
  intros Hne Hraw Hd. walk_table.
  change (JSON.lit "/products/" ++ raw ++ (if trailing then [JSON.chr 47] else []))
    with (JSON.chr 47 :: JSON.lit "products" ++ JSON.chr 47 :: raw
            ++ (if trailing then [JSON.chr 47] else [])).
  rewrite (segments_two (JSON.lit "products") raw trailing eq_refl Hraw Hne).
  destruct raw as [|c raw]; [contradiction Hne; reflexivity|].
  cbn [match_pieces option_map].
  change (ci_eqb (JSON.lit "products") (JSON.lit "products")) with true.
  change (ci_eqb (JSON.lit "products-cached") (JSON.lit "products")) with false.
  change (ci_eqb (JSON.lit "stats") (JSON.lit "products")) with false.
  change (ci_eqb (JSON.lit "populate") (JSON.lit "products")) with false.
  change (ci_eqb (JSON.lit "clear-cache") (JSON.lit "products")) with false.
  change (ci_eqb (JSON.lit "health") (JSON.lit "products")) with false.
  cbv beta iota. cbn [decode_params]. rewrite Hd.
  destruct (ci_eqb (JSON.lit "search") (c :: raw)); destruct v; reflexivity.
Qed.

Lemma dispatch_three (decode : JSON.text -> option string) v raw value body (trailing : bool) :
  raw <> [] ->
  forallb (fun c => negb (JSON.code c =? 47)%N) raw = true ->
  decode raw = Some value ->
  dispatch decode v
    (JSON.lit "/products/search/" ++ raw ++ (if trailing then [JSON.chr 47] else [])) body
  = match v with
    | GET | HEAD => Served (Request (GET_products_search value))
    | _ => Not_found
    end.
Proof.
  intros Hne Hraw Hd. walk_table.
  change (JSON.lit "/products/search/" ++ raw ++ (if trailing then [JSON.chr 47] else []))
    with (JSON.chr 47 :: JSON.lit "products" ++ JSON.chr 47 :: JSON.lit "search"
            ++ JSON.chr 47 :: raw ++ (if trailing then [JSON.chr 47] else [])).
  rewrite (segments_three (JSON.lit "products") (JSON.lit "search") raw trailing
             eq_refl eq_refl Hraw Hne).
  destruct raw as [|c raw]; [contradiction Hne; reflexivity|].
  cbn [match_pieces option_map].
  change (ci_eqb (JSON.lit "products") (JSON.lit "products")) with true.
  change (ci_eqb (JSON.lit "search") (JSON.lit "search")) with true.
  change (ci_eqb (JSON.lit "products-cached") (JSON.lit "products")) with false.
  change (ci_eqb (JSON.lit "stats") (JSON.lit "products")) with false.
  change (ci_eqb (JSON.lit "populate") (JSON.lit "products")) with false.
  change (ci_eqb (JSON.lit "clear-cache") (JSON.lit "products")) with false.
  change (ci_eqb (JSON.lit "health") (JSON.lit "products")) with false.
  cbv beta iota. cbn [decode_params]. rewrite Hd.
  destruct v; reflexivity.
Qed.

(** X25.  The routes with a parameter are reached in spite of their
    order.  GET /products/search/<segment> is served by the search
    route, although /products/:id stands before it in [index.js]; GET,
    PUT and DELETE of /products/<segment> are served by the lookup, the
    update and the deletion with the decoded segment as id, so that GET
    /products/search without a term is a lookup of the id "search".  A
    slash at the end changes nothing.  No route takes POST
    /products/<segment>, and none but GET and HEAD the search path. *)
Theorem parameter_routes_are_reached
  (decode : JSON.text -> option string) (raw : JSON.text) (value : string)
  (body : props) (trailing : bool) :
  raw <> [] -> no_slash raw = true -> decode raw = Some value ->
  dispatch decode GET (JSON.lit "/products/search/" ++ raw ++ closing trailing) body
  = Served (Request (GET_products_search value))
  /\ dispatch decode GET (JSON.lit "/products/" ++ raw ++ closing trailing) body
     = Served (GET_products_id value)
  /\ dispatch decode PUT (JSON.lit "/products/" ++ raw ++ closing trailing) body
     = Served (Request (PUT_products_id value body))
  /\ dispatch decode DELETE (JSON.lit "/products/" ++ raw ++ closing trailing) body
     = Served (Request (DELETE_products_id value))
  /\ dispatch decode POST (JSON.lit "/products/" ++ raw ++ closing trailing) body
     = Not_found
  /\ (forall v, v <> GET -> v <> HEAD ->
        dispatch decode v (JSON.lit "/products/search/" ++ raw ++ closing trailing) body
        = Not_found).
Proof.
  unfold no_slash, closing. intros Hne Hraw Hd.
  repeat split;
    try (rewrite (dispatch_two decode _ raw value body trailing Hne Hraw Hd); reflexivity);
    try (rewrite (dispatch_three decode _ raw value body trailing Hne Hraw Hd); reflexivity).
  intros v Hget Hhead.
  rewrite (dispatch_three decode v raw value body trailing Hne Hraw Hd).
  destruct v; try reflexivity; [contradiction Hget | contradiction Hhead]; reflexivity.
Qed.

Lemma parameter_routes_witness :
  dispatch as_written GET (JSON.lit "/products/search/" ++ JSON.lit "search" ++ closing true) []
  = Served (Request (GET_products_search "search"))
  /\ dispatch as_written GET (JSON.lit "/products/" ++ JSON.lit "search" ++ closing false) []
     = Served (GET_products_id "search").
Proof.
  destruct (parameter_routes_are_reached as_written (JSON.lit "search") "search" [] true
              ltac:(discriminate) eq_refl eq_refl) as (Hsearch & _).
  destruct (parameter_routes_are_reached as_written (JSON.lit "search") "search" [] false
              ltac:(discriminate) eq_refl eq_refl) as (_ & Hid & _).
  split; [exact Hsearch | exact Hid].
Defined.
